(** * CryptoBots: position state machines, rolling buffers and indicators

  A shallow embedding of the trading loops under [TRADING-BOTS/]:
  the rolling price buffers, the indicator arithmetic, the per-tick
  trading logic of each bot and the tabular Q-learning update.

  Numbers.  Prices, profits and indicator values are Python floats in the
  source.  They are modelled as exact rationals ([Q]); rounding is not
  modelled.  Where the source relies on the IEEE special values (the RSI
  divides by an average loss that can be zero) the extended values are
  modelled explicitly, see [Module rsi_strategy].

  Effects.  Every bot talks to the trade API through [send_trade_order],
  which returns [True] on success and [False] on any error.  The API is
  modelled as a world holding the outcome of every future order and the
  journal of the orders submitted so far.  An uncaught Python exception
  (arithmetic on [None]) is the [None] result of a computation. *)

From Stdlib Require Import List ZArith QArith Qabs Qpower Lia Lqa Bool String.
From stdpp Require Import gmap strings.
Import ListNotations.

Local Open Scope Q_scope.

(** ** Rational comparisons as the source writes them *)

Definition Qltb (x y : Q) : bool := negb (Qle_bool y x).
Definition Qgtb (x y : Q) : bool := Qltb y x.
Definition Qleb (x y : Q) : bool := Qle_bool x y.
Definition Qgeb (x y : Q) : bool := Qle_bool y x.

Definition Qsum (xs : list Q) : Q := fold_left Qplus xs 0.

Definition Qof_nat (n : nat) : Q := inject_Z (Z.of_nat n).

(** ** Python list idioms *)

Module Py.

(** [xs[-n:]]: the last [n] elements; the whole list when [n] exceeds the
    length, and also when [n] is [0] (then the slice is [xs[0:]]). *)
Definition slice_last {A} (n : nat) (xs : list A) : list A :=
  match n with
  | O => xs
  | _ => skipn (length xs - n) xs
  end.

(** [xs.pop(0)]: drops the first element ([IndexError] on an empty list). *)
Definition pop0 {A} (xs : list A) : option (list A) :=
  match xs with
  | [] => None
  | _ :: tl => Some tl
  end.

(** [xs[-1]] *)
Definition last_opt {A} (xs : list A) : option A :=
  match rev xs with
  | [] => None
  | x :: _ => Some x
  end.

End Py.

(** ** The trade API *)

Record Order := mkOrder {
o_symbol : string;
o_side : string;
o_amount : Q;
o_price : Q
}.

(** [exchange k] is the outcome of the [k]-th order ever submitted;
  [journal] lists the orders submitted so far with their outcomes, oldest
  first (what [send_trade_order] prints for each leg). *)
Record World := mkWorld {
exchange : nat -> bool;
journal : list (Order * bool)
}.

(** Computations that submit orders and may raise. *)
Definition M (A : Type) : Type := World -> option A * World.

Definition ret {A} (a : A) : M A := fun w => (Some a, w).

Definition raise {A} : M A := fun w => (None, w).

Definition bind {A B} (m : M A) (k : A -> M B) : M B :=
fun w =>
  match m w with
  | (Some a, w') => k a w'
  | (None, w') => (None, w')
  end.

Notation "x <- m ;; k" := (bind m (fun x => k))
(at level 100, m at next level, right associativity).

(** Arithmetic on a value that may be [None] raises [TypeError]. *)
Definition need {A} (o : option A) : M A :=
match o with
| Some a => ret a
| None => raise
end.

(** [send_trade_order]: posts the order; [True] iff the API accepted it.
  Exceptions of the HTTP call are caught inside and reported as [False]. *)
Definition send_order (symbol side : string) (amount price : Q) : M bool :=
fun w =>
  let ok := exchange w (length (journal w)) in
  (Some ok,
   mkWorld (exchange w) (journal w ++ [(mkOrder symbol side amount price, ok)])).

(** A world whose first orders have the listed outcomes (later ones fail). *)
Definition world_of (outcomes : list bool) : World :=
mkWorld (fun k => nth k outcomes false) [].

(** The values of the successful fetches of a feed, oldest first. *)
Definition fetched {A} (feed : list (option A)) : list A :=
  flat_map (fun f => match f with Some x => [x] | None => [] end) feed.

(** A world whose trade API accepts every order. *)
Definition accepting_world : World := mkWorld (fun _ => true) [].

(** ** Rolling buffers *)

Module RollingBuffer.

(** DualMovingAverage.py, lines 114-118 (and the other single-price bots):
<<
    price_history.append(current_price)
    if len(price_history) > SLOW_WINDOW:
        price_history = price_history[-SLOW_WINDOW:]
>> *)
Definition push_slice {A} (N : nat) (buf : list A) (x : A) : list A :=
  let buf := buf ++ [x] in
  if (N <? length buf)%nat then Py.slice_last N buf else buf.

(** relative_arbitrage.py, lines 136-138 (and spread_bot.py):
<<
    ratio_history.append(current_ratio)
    if len(ratio_history) > ROLLING_WINDOW:
        ratio_history.pop(0)
>> *)
Definition push_pop {A} (N : nat) (buf : list A) (x : A) : option (list A) :=
  let buf := buf ++ [x] in
  if (N <? length buf)%nat then Py.pop0 buf else Some buf.

Definition pushes_slice {A} (N : nat) (xs : list A) : list A :=
  fold_left (push_slice N) xs [].

Fixpoint pushes_pop_from {A} (N : nat) (buf : list A) (xs : list A)
  : option (list A) :=
  match xs with
  | [] => Some buf
  | x :: xs' =>
      match push_pop N buf x with
      | Some buf' => pushes_pop_from N buf' xs'
      | None => None
      end
  end.

Definition pushes_pop {A} (N : nat) (xs : list A) : option (list A) :=
  pushes_pop_from N [] xs.

(** The [N] most recent of the values pushed so far, oldest first. *)
Definition most_recent {A} (N : nat) (xs : list A) : list A :=
  skipn (length xs - N) xs.

End RollingBuffer.

(** ** DualMovingAverage.py *)

Module DualMovingAverage.

Definition SYMBOL : string := "BTC".
Definition TRADE_AMOUNT : Q := 1 # 100.
Definition FAST_WINDOW : nat := 10.
Definition SLOW_WINDOW : nat := 50.

(** The module globals: [price_history], [position] (0 none, 1 long,
    -1 short), [entry_price] and [cum_profit]. *)
Record State := mkState {
  price_history : list Q;
  position : Z;
  entry_price : option Q;
  cum_profit : Q
}.

Definition init : State := mkState [] 0 None 0.

(** [np.mean] of a non-empty list, in exact arithmetic.  The float mean
    rounds: on prices that are not exactly representable two means that are
    equal here can compare either way in the source. *)
Definition mean (xs : list Q) : Q := Qsum xs / Qof_nat (length xs).

Definition send_trade_order (side : string) (amount price : Q) : M bool :=
  send_order SYMBOL side amount price.

(** The trading logic of [main], lines 138-175. *)
Definition trade (s : State) (fast_ma slow_ma current_price : Q) : M State :=
  if Qgtb fast_ma slow_ma then
    if (position s =? 0)%Z then
      ok <- send_trade_order "buy" TRADE_AMOUNT current_price ;;
      if ok
      then ret (mkState (price_history s) 1 (Some current_price) (cum_profit s))
      else ret s
    else if (position s =? -1)%Z then
      ok <- send_trade_order "buy" TRADE_AMOUNT current_price ;;
      if ok then
        entry <- need (entry_price s) ;;
        let profit := entry - current_price in
        let cum := cum_profit s + profit in
        ok' <- send_trade_order "buy" TRADE_AMOUNT current_price ;;
        if ok'
        then ret (mkState (price_history s) 1 (Some current_price) cum)
        else ret (mkState (price_history s) (position s) (entry_price s) cum)
      else ret s
    else ret s
  else
    if (position s =? 0)%Z then
      ok <- send_trade_order "sell" TRADE_AMOUNT current_price ;;
      if ok
      then ret (mkState (price_history s) (-1) (Some current_price) (cum_profit s))
      else ret s
    else if (position s =? 1)%Z then
      ok <- send_trade_order "sell" TRADE_AMOUNT current_price ;;
      if ok then
        entry <- need (entry_price s) ;;
        let profit := current_price - entry in
        let cum := cum_profit s + profit in
        ok' <- send_trade_order "sell" TRADE_AMOUNT current_price ;;
        if ok'
        then ret (mkState (price_history s) (-1) (Some current_price) cum)
        else ret (mkState (price_history s) (position s) (entry_price s) cum)
      else ret s
    else ret s.

(** One iteration of the loop of [main]; [fetched] is the result of
    [fetch_market_price] ([None] on any error). *)
Definition tick (s : State) (fetched : option Q) : M State :=
  match fetched with
  | None => ret s
  | Some current_price =>
      let history := RollingBuffer.push_slice SLOW_WINDOW (price_history s) current_price in
      let s := mkState history (position s) (entry_price s) (cum_profit s) in
      if (length history <? SLOW_WINDOW)%nat then ret s
      else
        let fast_ma := mean (Py.slice_last FAST_WINDOW history) in
        let slow_ma := mean history in
        trade s fast_ma slow_ma current_price
  end.

Fixpoint run (s : State) (feed : list (option Q)) : M State :=
  match feed with
  | [] => ret s
  | f :: feed' => s' <- tick s f ;; run s' feed'
  end.

(** The position is 0 with no entry price, or 1 or -1 with an entry price. *)
Definition consistent (s : State) : Prop :=
  (position s = 0%Z /\ entry_price s = None)
  \/ ((position s = 1%Z \/ position s = (-1)%Z) /\ is_Some (entry_price s)).

End DualMovingAverage.

(** ** Reinforcement_bot.py *)

Module Reinforcement_bot.

Definition SYMBOL : string := "ETH".
Definition TRADE_AMOUNT : Q := 1 # 10.
Definition epsilon : Q := 1 # 10.
Definition alpha : Q := 1 # 10.
Definition gamma : Q := 99 # 100.

(** The trading globals: [position], [entry_price], [cash]. *)
Record State := mkState {
  position : Z;
  entry_price : option Q;
  cash : Q
}.

Definition init : State := mkState 0 None 10000.

Definition send_trade_order (side : string) (amount price : Q) : M bool :=
  send_order SYMBOL side amount price.

(** [execute_action], lines 165-213.  Any action other than 1 and 2 holds. *)
Definition execute_action (s : State) (action : Z) (current_price : Q) : M State :=
  if (action =? 1)%Z then
    if (position s =? 0)%Z then
      ok <- send_trade_order "buy" TRADE_AMOUNT current_price ;;
      if ok then ret (mkState 1 (Some current_price) (cash s)) else ret s
    else if (position s =? -1)%Z then
      ok <- send_trade_order "buy" TRADE_AMOUNT current_price ;;
      if ok then
        entry <- need (entry_price s) ;;
        let profit := entry - current_price in
        let cash' := cash s + profit in
        ok' <- send_trade_order "buy" TRADE_AMOUNT current_price ;;
        if ok'
        then ret (mkState 1 (Some current_price) cash')
        else ret (mkState (position s) (entry_price s) cash')
      else ret s
    else ret s
  else if (action =? 2)%Z then
    if (position s =? 0)%Z then
      ok <- send_trade_order "sell" TRADE_AMOUNT current_price ;;
      if ok then ret (mkState (-1) (Some current_price) (cash s)) else ret s
    else if (position s =? 1)%Z then
      ok <- send_trade_order "sell" TRADE_AMOUNT current_price ;;
      if ok then
        entry <- need (entry_price s) ;;
        let profit := current_price - entry in
        let cash' := cash s + profit in
        ok' <- send_trade_order "sell" TRADE_AMOUNT current_price ;;
        if ok'
        then ret (mkState (-1) (Some current_price) cash')
        else ret (mkState (position s) (entry_price s) cash')
      else ret s
    else ret s
  else ret s.

(** *** The Q-table *)

(** The right-hand side of the assignment in [update_Q], line 163, with
    the learning rate [a], the discount [g], the stored value [v], the
    reward and [max_next]. *)
Definition q_rule (a g v reward max_next : Q) : Q :=
  v + a * (reward + g * max_next - v).

(** A Q-table maps a state [(position, trend)] to a row mapping each
    action to its value. *)
Definition fresh_row : gmap Z Q := <[0%Z := 0]> (<[1%Z := 0]> (<[2%Z := 0]> ∅)).

Definition initialize_state_if_needed (state : Z * string)
    (Q_table : gmap (Z * string) (gmap Z Q)) : gmap (Z * string) (gmap Z Q) :=
  match Q_table !! state with
  | Some _ => Q_table
  | None => <[state := fresh_row]> Q_table
  end.

(** Python's [max] keeps the first of several maximal elements. *)
Definition Qmax_first (a b : Q) : Q := if Qltb a b then b else a.

(** [max(row.values())]; [ValueError] on an empty row. *)
Definition max_values (row : gmap Z Q) : option Q :=
  match (map_to_list row).*2 with
  | [] => None
  | v :: vs => Some (fold_left Qmax_first vs v)
  end.

(** [update_Q], lines 156-163; [None] stands for a [KeyError] or
    [ValueError]. *)
Definition update_Q (state : Z * string) (action : Z) (reward : Q)
    (next_state : Z * string) (Q_table : gmap (Z * string) (gmap Z Q))
  : option (gmap (Z * string) (gmap Z Q)) :=
  let Q_table := initialize_state_if_needed state Q_table in
  let Q_table := initialize_state_if_needed next_state Q_table in
  row_next ← Q_table !! next_state;
  max_next ← max_values row_next;
  row ← Q_table !! state;
  v ← row !! action;
  Some (<[state := <[action := q_rule alpha gamma v reward max_next]> row]> Q_table).

(** [Q_table[state][action]] *)
Definition q_value (Q_table : gmap (Z * string) (gmap Z Q)) (state : Z * string)
    (action : Z) : option Q :=
  row ← Q_table !! state;
  row !! action.

(** The update applied [n] times to a stored value whose row maximum is
    the value itself, under a constant reward. *)
Fixpoint q_iter (a g reward : Q) (n : nat) (v : Q) : Q :=
  match n with
  | O => v
  | S n' => q_iter a g reward n' (q_rule a g v reward v)
  end.

(** [update_Q] called [n] times for the same state, action and reward,
    with the state itself as next state. *)
Fixpoint update_Q_repeat (n : nat) (state : Z * string) (action : Z) (reward : Q)
    (Q_table : gmap (Z * string) (gmap Z Q))
  : option (gmap (Z * string) (gmap Z Q)) :=
  match n with
  | O => Some Q_table
  | S n' =>
      match update_Q state action reward state Q_table with
      | Some Q_table' => update_Q_repeat n' state action reward Q_table'
      | None => None
      end
  end.

(** The value [R / (1 - g)] and the factor by which one update scales the
    distance to it. *)
Definition q_target (g reward : Q) : Q := reward / (1 - g).

Definition q_factor (a g : Q) : Q := 1 - a * (1 - g).

(** *** The state label, the policy and the portfolio value *)

Definition MA_WINDOW : nat := 20.
Definition TREND_THRESHOLD : Q := 1 # 100.

(** [get_state], lines 120-138, over the globals [price_history] and
    [position].  The outer [None] is the [ZeroDivisionError] of dividing by
    a moving average of zero; [Some None] is the [None] returned while fewer
    than [MA_WINDOW] prices are known.  The average and the deviation are
    exact here; in floating point they round, so a price within rounding
    distance of a threshold can get another label in the source.  The facts
    below use that a label is returned, not which one. *)
Definition get_state (price_history : list Q) (position : Z) (current_price : Q)
  : option (option (Z * string)) :=
  if (length price_history <? MA_WINDOW)%nat then Some None
  else
    let ma := Qsum (Py.slice_last MA_WINDOW price_history) / Qof_nat MA_WINDOW in
    if Qeq_bool ma 0 then None
    else
      let deviation := (current_price - ma) / ma in
      let trend :=
        if Qgtb deviation TREND_THRESHOLD then "up"
        else if Qltb deviation (- TREND_THRESHOLD) then "down"
        else "neutral" in
      Some (Some (position, trend)).

(** [max(actions, key=actions.get)]: the first key, in the iteration order
    of the row, whose value is not exceeded; [ValueError] on an empty row.
    Every row is created by [initialize_state_if_needed] with the keys 0, 1,
    2 in this order and no key is ever added to a row, so the keys of a row
    are iterated in the order 0, 1, 2. *)
Definition row_items (row : gmap Z Q) : list (Z * Q) :=
  flat_map (fun a => match row !! a with Some v => [(a, v)] | None => [] end)
    [0%Z; 1%Z; 2%Z].

Definition first_max (items : list (Z * Q)) : option Z :=
  match items with
  | [] => None
  | item :: rest =>
      Some (fst (fold_left (fun best it => if Qltb (snd best) (snd it) then it else best)
                   rest item))
  end.

(** [choose_action], lines 144-154.  [u] is the draw of [np.random.rand()]
    and [pick] the draw of [np.random.choice([0, 1, 2])].  Returns the action
    and the table, in which the state has been initialised. *)
Definition choose_action (state : Z * string) (u : Q) (pick : Z)
    (Q_table : gmap (Z * string) (gmap Z Q))
  : option (Z * gmap (Z * string) (gmap Z Q)) :=
  let Q_table := initialize_state_if_needed state Q_table in
  if Qltb u epsilon then Some (pick, Q_table)
  else
    actions ← Q_table !! state;
    a ← first_max (row_items actions);
    Some (a, Q_table).

(** [get_portfolio_value], lines 215-227.  [None] is the [None] a Python
    function returns when it falls off its end (a position other than 0, 1
    and -1). *)
Definition get_portfolio_value (s : State) (current_price : Q) : option Q :=
  if (position s =? 0)%Z then Some (cash s)
  else
    match entry_price s with
    | None => Some (cash s)
    | Some entry =>
        if (position s =? 1)%Z then Some (cash s + (current_price - entry))
        else if (position s =? -1)%Z then Some (cash s + (entry - current_price))
        else None
    end.

(** The position is 0 with no entry price, or 1 or -1 with an entry price. *)
Definition consistent (s : State) : Prop :=
  (position s = 0%Z /\ entry_price s = None)
  \/ ((position s = 1%Z \/ position s = (-1)%Z) /\ is_Some (entry_price s)).

(** The actions chosen at successive ticks with the prices they are executed
    at. *)
Fixpoint execute_all (s : State) (steps : list (Z * Q)) : M State :=
  match steps with
  | [] => ret s
  | (action, current_price) :: steps' =>
      s' <- execute_action s action current_price ;; execute_all s' steps'
  end.

(** Every row of the table has the three actions. *)
Definition rows_complete (Q_table : gmap (Z * string) (gmap Z Q)) : Prop :=
  forall state row, Q_table !! state = Some row ->
    forall a, (0 <= a <= 2)%Z -> is_Some (row !! a).

(** Successive calls of [update_Q], each with its state, action, reward and
    next state. *)
Fixpoint update_all (steps : list ((Z * string) * Z * Q * (Z * string)))
    (Q_table : gmap (Z * string) (gmap Z Q))
  : option (gmap (Z * string) (gmap Z Q)) :=
  match steps with
  | [] => Some Q_table
  | (state, action, reward, next_state) :: steps' =>
      match update_Q state action reward next_state Q_table with
      | Some Q_table' => update_all steps' Q_table'
      | None => None
      end
  end.

(** *** The loop *)

(** The globals and the locals of [main] that live across iterations.
    [previous_portfolio_value] and [state] are [None] until the first state
    is known. *)
Record Loop := mkLoop {
  Q_table : gmap (Z * string) (gmap Z Q);
  bot : State;
  price_history : list Q;
  previous_portfolio_value : option Q;
  state : option (Z * string)
}.

Definition init_loop : Loop := mkLoop ∅ init [] None None.

(** What one pass through the body of the loop reads from outside, each
    item only if the pass gets to it: the first fetch, the draws of
    [np.random.rand()] and [np.random.choice([0, 1, 2])], and the second
    fetch. *)
Record Inputs := mkInputs {
  fetch1 : option Q;
  rand : Q;
  choice : Z;
  fetch2 : option Q
}.

(** One pass through the body of the loop of [main], lines 238-300.  A
    [None] operand of the subtraction that computes the reward raises a
    [TypeError]. *)
Definition iteration (l : Loop) (i : Inputs) : M Loop :=
  match fetch1 i with
  | None => ret l
  | Some current_price =>
      let history :=
        RollingBuffer.push_slice MA_WINDOW (price_history l) current_price in
      new_state <- need (get_state history (position (bot l)) current_price) ;;
      match new_state with
      | None =>
          ret (mkLoop (Q_table l) (bot l) history (previous_portfolio_value l)
                 (state l))
      | Some new_state =>
          let '(state', previous) :=
            match state l with
            | None => (new_state, get_portfolio_value (bot l) current_price)
            | Some st => (st, previous_portfolio_value l)
            end in
          chosen <- need (choose_action state' (rand i) (choice i) (Q_table l)) ;;
          let '(action, table) := chosen in
          bot' <- execute_action (bot l) action current_price ;;
          match fetch2 i with
          | None => ret (mkLoop table bot' history previous (Some state'))
          | Some next_price =>
              let history' :=
                RollingBuffer.push_slice MA_WINDOW history next_price in
              next_state <-
                need (get_state history' (position bot') next_price) ;;
              match next_state with
              | None => ret (mkLoop table bot' history' previous (Some state'))
              | Some next_state =>
                  let new_portfolio_value :=
                    get_portfolio_value bot' next_price in
                  new_value <- need new_portfolio_value ;;
                  previous_value <- need previous ;;
                  let reward := new_value - previous_value in
                  table' <-
                    need (update_Q state' action reward next_state table) ;;
                  ret (mkLoop table' bot' history' (Some new_value)
                         (Some next_state))
              end
          end
      end
  end.

Fixpoint main_loop (l : Loop) (inputs : list Inputs) : M Loop :=
  match inputs with
  | [] => ret l
  | i :: inputs' => l' <- iteration l i ;; main_loop l' inputs'
  end.

(** The prices an iteration may read are positive and its random choice is
    one of the three actions. *)
Definition usable (i : Inputs) : Prop :=
  (forall p, fetch1 i = Some p -> 0 < p)
  /\ (forall p, fetch2 i = Some p -> 0 < p)
  /\ (0 <= choice i <= 2)%Z.

End Reinforcement_bot.

(** ** spread_bot.py *)

Module spread_bot.

Definition SYMBOL_BTC : string := "BTC".
Definition SYMBOL_ETH : string := "ETH".
Definition TRADE_AMOUNT : Q := 5 # 100.

(** The trade globals; [position] is 0 (none), 1 (long spread: long ETH,
    short BTC) or -1 (short spread). *)
Record State := mkState {
  position : Z;
  entry_BTC : option Q;
  entry_ETH : option Q;
  entry_spread : option Q;
  cum_profit : Q
}.

Definition init : State := mkState 0 None None None 0.

Definition send_trade_order (symbol side : string) (amount price : Q) : M bool :=
  send_order symbol side amount price.

(** The test [if order1 and order2:] that decides whether a two-leg action
    took place. *)
Definition both_legs (order1 order2 : bool) : bool := order1 && order2.

(** The trading logic of [main], lines 191-240.  The hedge ratio [beta],
    the current spread and the rolling statistics (the bounds use a
    floating-point square root) are inputs. *)
Definition trade (s : State) (beta BTC_close ETH_close : Q)
    (current_spread rolling_mean upper_bound lower_bound : Q) : M State :=
  if (position s =? 0)%Z then
    if Qgtb current_spread upper_bound then
      order1 <- send_trade_order SYMBOL_ETH "sell" TRADE_AMOUNT ETH_close ;;
      order2 <- send_trade_order SYMBOL_BTC "buy" TRADE_AMOUNT BTC_close ;;
      if both_legs order1 order2
      then ret (mkState (-1) (Some BTC_close) (Some ETH_close) (Some current_spread)
                  (cum_profit s))
      else ret s
    else if Qltb current_spread lower_bound then
      order1 <- send_trade_order SYMBOL_ETH "buy" TRADE_AMOUNT ETH_close ;;
      order2 <- send_trade_order SYMBOL_BTC "sell" TRADE_AMOUNT BTC_close ;;
      if both_legs order1 order2
      then ret (mkState 1 (Some BTC_close) (Some ETH_close) (Some current_spread)
                  (cum_profit s))
      else ret s
    else ret s
  else
    if (position s =? 1)%Z && Qgeb current_spread rolling_mean then
      eETH <- need (entry_ETH s) ;;
      eBTC <- need (entry_BTC s) ;;
      let profit_trade := (ETH_close - eETH) - beta * (BTC_close - eBTC) in
      let cum := cum_profit s + profit_trade in
      order1 <- send_trade_order SYMBOL_ETH "sell" TRADE_AMOUNT ETH_close ;;
      order2 <- send_trade_order SYMBOL_BTC "buy" TRADE_AMOUNT BTC_close ;;
      if both_legs order1 order2
      then ret (mkState 0 None None None cum)
      else ret (mkState (position s) (entry_BTC s) (entry_ETH s) (entry_spread s) cum)
    else if (position s =? -1)%Z && Qleb current_spread rolling_mean then
      eBTC <- need (entry_BTC s) ;;
      eETH <- need (entry_ETH s) ;;
      let profit_trade := beta * (BTC_close - eBTC) - (ETH_close - eETH) in
      let cum := cum_profit s + profit_trade in
      order1 <- send_trade_order SYMBOL_ETH "buy" TRADE_AMOUNT ETH_close ;;
      order2 <- send_trade_order SYMBOL_BTC "sell" TRADE_AMOUNT BTC_close ;;
      if both_legs order1 order2
      then ret (mkState 0 None None None cum)
      else ret (mkState (position s) (entry_BTC s) (entry_ETH s) (entry_spread s) cum)
    else ret s.

(** Two consecutive ticks at the same market data. *)
Definition trade_twice (s : State) (beta BTC_close ETH_close : Q)
    (current_spread rolling_mean upper_bound lower_bound : Q) : M State :=
  s' <- trade s beta BTC_close ETH_close current_spread rolling_mean upper_bound
          lower_bound ;;
  trade s' beta BTC_close ETH_close current_spread rolling_mean upper_bound lower_bound.

(** *** The hedge ratio and the loop *)

Definition INITIAL_WINDOW : nat := 100.
Definition ROLLING_WINDOW : nat := 60.
Definition THRESHOLD : Q := 1.

(** An element of [historical_data]. *)
Record DataPoint := mkDataPoint {
  d_time : Z;
  d_BTC_close : Q;
  d_ETH_close : Q
}.

(** [estimate_beta], lines 117-132, in exact arithmetic.  [None] is the
    [ZeroDivisionError] of the means of an empty list.  In floating point
    the sums and the means round, so the test [var_btc == 0] and the
    quotient can come out differently, and the square can raise an
    [OverflowError]; the loop below therefore takes the evaluation of
    [estimate_beta] as given and does not rely on this definition. *)
Definition estimate_beta (data_points : list DataPoint) : option Q :=
  let btc_prices := map d_BTC_close data_points in
  let eth_prices := map d_ETH_close data_points in
  let n := length btc_prices in
  if (n =? 0)%nat then None
  else
    let mean_btc := Qsum btc_prices / Qof_nat n in
    let mean_eth := Qsum eth_prices / Qof_nat n in
    let cov :=
      Qsum (map (fun i => (nth i eth_prices 0 - mean_eth)
                          * (nth i btc_prices 0 - mean_btc))
              (seq 0 n)) in
    let var_btc :=
      Qsum (map (fun i => (nth i btc_prices 0 - mean_btc) ^ 2) (seq 0 n)) in
    if Qeq_bool var_btc 0 then Some 0
    else Some (cov / var_btc).

(** The globals of the loop: [historical_data], [spread_history], [beta]
    and the trade globals. *)
Record Loop := mkLoop {
  historical_data : list DataPoint;
  spread_history : list Q;
  beta : option Q;
  bot : State
}.

Definition init_loop : Loop := mkLoop [] [] None init.

(** The position is 0 with no entry data, or 1 or -1 with the entry prices
    of both legs. *)
Definition consistent (s : State) : Prop :=
  (position s = 0%Z /\ entry_BTC s = None /\ entry_ETH s = None)
  \/ ((position s = 1%Z \/ position s = (-1)%Z)
      /\ is_Some (entry_BTC s) /\ is_Some (entry_ETH s)).

Section Loop.

(** The evaluation of [estimate_beta] by the interpreter is taken as
    given; [None] is an exception it raises ([ZeroDivisionError],
    [OverflowError]). *)
Variable estimate : list DataPoint -> option Q.

(** [statistics.pstdev], the population standard deviation (a square root
    of floats), is taken as given; [None] is an exception it raises (it does
    on a spread that has overflowed to an infinity). *)
Variable pstdev : list Q -> option Q.

(** One iteration of the loop of [main], lines 139-245.  [fetched] is the
    clock reading with the BTC and ETH prices of [fetch_market_data], or
    [None] when the fetch failed. *)
Definition tick (l : Loop) (fetched : option (Z * Q * Q)) : M Loop :=
  match fetched with
  | None => ret l
  | Some (current_time, BTC_close, ETH_close) =>
      let history :=
        historical_data l ++ [mkDataPoint current_time BTC_close ETH_close] in
      beta' <-
        match beta l with
        | None =>
            if (INITIAL_WINDOW <=? length history)%nat then
              b <- need (estimate (firstn INITIAL_WINDOW history)) ;;
              ret (Some b)
            else ret None
        | Some b => ret (Some b)
        end ;;
      match beta' with
      | None => ret (mkLoop history (spread_history l) None (bot l))
      | Some b =>
          let current_spread := ETH_close - b * BTC_close in
          spreads <-
            need (RollingBuffer.push_pop ROLLING_WINDOW (spread_history l)
                    current_spread) ;;
          if (length spreads <? ROLLING_WINDOW)%nat
          then ret (mkLoop history spreads (Some b) (bot l))
          else
            let rolling_mean := Qsum spreads / Qof_nat (length spreads) in
            rolling_std <- need (pstdev spreads) ;;
            let upper_bound := rolling_mean + THRESHOLD * rolling_std in
            let lower_bound := rolling_mean - THRESHOLD * rolling_std in
            bot' <- trade (bot l) b BTC_close ETH_close current_spread rolling_mean
                      upper_bound lower_bound ;;
            ret (mkLoop history spreads (Some b) bot')
      end
  end.

Fixpoint run (l : Loop) (feed : list (option (Z * Q * Q))) : M Loop :=
  match feed with
  | [] => ret l
  | f :: feed' => l' <- tick l f ;; run l' feed'
  end.

End Loop.

(** Closed forms of the loop's globals, used to state facts about whole
    runs: what [historical_data], [beta] and [spread_history] are after the
    data points [pts] have been fetched, when [estimate] evaluates
    [estimate_beta]. *)
Definition data_points_of (feed : list (option (Z * Q * Q))) : list DataPoint :=
  map (fun f => mkDataPoint (fst (fst f)) (snd (fst f)) (snd f)) (fetched feed).

Definition beta_after (estimate : list DataPoint -> option Q)
    (pts : list DataPoint) : option Q :=
  if (INITIAL_WINDOW <=? length pts)%nat
  then estimate (firstn INITIAL_WINDOW pts)
  else None.

Definition spread_of (b : Q) (p : DataPoint) : Q :=
  d_ETH_close p - b * d_BTC_close p.

Definition spread_history_after (estimate : list DataPoint -> option Q)
    (pts : list DataPoint) : list Q :=
  match beta_after estimate pts with
  | Some b =>
      RollingBuffer.most_recent ROLLING_WINDOW
        (map (spread_of b) (skipn (INITIAL_WINDOW - 1) pts))
  | None => []
  end.

End spread_bot.

(** ** relative_arbitrage.py *)

Module relative_arbitrage.

Definition SYMBOL_BTC : string := "BTC".
Definition SYMBOL_ETH : string := "ETH".
Definition TRADE_AMOUNT : Q := 2 # 100.
Definition ROLLING_WINDOW : nat := 60.

(** The trade globals; [position] is 0 (none), 1 (long ETH / short BTC)
    or -1 (short ETH / long BTC). *)
Record State := mkState {
  position : Z;
  entry_ratio : option Q;
  entry_BTC : option Q;
  entry_ETH : option Q;
  cum_profit : Q
}.

Definition init : State := mkState 0 None None None 0.

Definition send_trade_order (symbol side : string) (amount price : Q) : M bool :=
  send_order symbol side amount price.

Definition both_legs (order_eth order_btc : bool) : bool := order_eth && order_btc.

(** The trading logic of [main], lines 160-210; the rolling statistics of
    the ratio are inputs. *)
Definition trade (s : State) (BTC_price ETH_price : Q)
    (current_ratio rolling_mean upper_threshold lower_threshold : Q) : M State :=
  if (position s =? 0)%Z then
    if Qgtb current_ratio upper_threshold then
      order_eth <- send_trade_order SYMBOL_ETH "sell" TRADE_AMOUNT ETH_price ;;
      order_btc <- send_trade_order SYMBOL_BTC "buy" TRADE_AMOUNT BTC_price ;;
      if both_legs order_eth order_btc
      then ret (mkState (-1) (Some current_ratio) (Some BTC_price) (Some ETH_price)
                  (cum_profit s))
      else ret s
    else if Qltb current_ratio lower_threshold then
      order_eth <- send_trade_order SYMBOL_ETH "buy" TRADE_AMOUNT ETH_price ;;
      order_btc <- send_trade_order SYMBOL_BTC "sell" TRADE_AMOUNT BTC_price ;;
      if both_legs order_eth order_btc
      then ret (mkState 1 (Some current_ratio) (Some BTC_price) (Some ETH_price)
                  (cum_profit s))
      else ret s
    else ret s
  else
    if (position s =? 1)%Z && Qgeb current_ratio rolling_mean then
      eETH <- need (entry_ETH s) ;;
      eratio <- need (entry_ratio s) ;;
      eBTC <- need (entry_BTC s) ;;
      let profit_trade := (ETH_price - eETH) - eratio * (BTC_price - eBTC) in
      let cum := cum_profit s + profit_trade in
      order_eth <- send_trade_order SYMBOL_ETH "sell" TRADE_AMOUNT ETH_price ;;
      order_btc <- send_trade_order SYMBOL_BTC "buy" TRADE_AMOUNT BTC_price ;;
      if both_legs order_eth order_btc
      then ret (mkState 0 None None None cum)
      else ret (mkState (position s) (entry_ratio s) (entry_BTC s) (entry_ETH s) cum)
    else if (position s =? -1)%Z && Qleb current_ratio rolling_mean then
      eratio <- need (entry_ratio s) ;;
      eBTC <- need (entry_BTC s) ;;
      eETH <- need (entry_ETH s) ;;
      let profit_trade := eratio * (BTC_price - eBTC) - (ETH_price - eETH) in
      let cum := cum_profit s + profit_trade in
      order_eth <- send_trade_order SYMBOL_ETH "buy" TRADE_AMOUNT ETH_price ;;
      order_btc <- send_trade_order SYMBOL_BTC "sell" TRADE_AMOUNT BTC_price ;;
      if both_legs order_eth order_btc
      then ret (mkState 0 None None None cum)
      else ret (mkState (position s) (entry_ratio s) (entry_BTC s) (entry_ETH s) cum)
    else ret s.

(** Two consecutive ticks at the same market data. *)
Definition trade_twice (s : State) (BTC_price ETH_price : Q)
    (current_ratio rolling_mean upper_threshold lower_threshold : Q) : M State :=
  s' <- trade s BTC_price ETH_price current_ratio rolling_mean upper_threshold
          lower_threshold ;;
  trade s' BTC_price ETH_price current_ratio rolling_mean upper_threshold lower_threshold.

(** *** The loop *)

Definition THRESHOLD : Q := 1.

(** The globals of the loop: [ratio_history] and the trade globals. *)
Record Loop := mkLoop {
  ratio_history : list Q;
  bot : State
}.

Definition init_loop : Loop := mkLoop [] init.

(** The position is 0 with no entry data, or 1 or -1 with the entry ratio
    and the entry prices of both legs. *)
Definition consistent (s : State) : Prop :=
  (position s = 0%Z /\ entry_ratio s = None /\ entry_BTC s = None
   /\ entry_ETH s = None)
  \/ ((position s = 1%Z \/ position s = (-1)%Z)
      /\ is_Some (entry_ratio s) /\ is_Some (entry_BTC s)
      /\ is_Some (entry_ETH s)).

Section Loop.

(** [statistics.stdev], the sample standard deviation (a square root of
    floats), is taken as given; the loop calls it on full windows only.
    [None] is an exception it raises: it does on a ratio that has overflowed
    to an infinity, which the exact quotient below does not show. *)
Variable stdev : list Q -> option Q.

(** One iteration of the loop of [main], lines 121-213.  [fetched] is the
    pair of the BTC and ETH prices of [fetch_market_data], or [None] when
    the fetch failed.  The division [ETH_price / BTC_price] of two floats
    raises [ZeroDivisionError] when the BTC price is zero. *)
Definition tick (l : Loop) (fetched : option (Q * Q)) : M Loop :=
  match fetched with
  | None => ret l
  | Some (BTC_price, ETH_price) =>
      if Qeq_bool BTC_price 0 then raise
      else
        let current_ratio := ETH_price / BTC_price in
        ratios <-
          need (RollingBuffer.push_pop ROLLING_WINDOW (ratio_history l)
                  current_ratio) ;;
        if (length ratios <? ROLLING_WINDOW)%nat
        then ret (mkLoop ratios (bot l))
        else
          let rolling_mean := Qsum ratios / Qof_nat (length ratios) in
          rolling_std <- need (stdev ratios) ;;
          let upper_threshold := rolling_mean + THRESHOLD * rolling_std in
          let lower_threshold := rolling_mean - THRESHOLD * rolling_std in
          bot' <- trade (bot l) BTC_price ETH_price current_ratio rolling_mean
                    upper_threshold lower_threshold ;;
          ret (mkLoop ratios bot')
  end.

Fixpoint run (l : Loop) (feed : list (option (Q * Q))) : M Loop :=
  match feed with
  | [] => ret l
  | f :: feed' => l' <- tick l f ;; run l' feed'
  end.

End Loop.

(** The ratios of the successful fetches of a feed. *)
Definition ratios_of (feed : list (option (Q * Q))) : list Q :=
  map (fun f => snd f / fst f) (fetched feed).

End relative_arbitrage.

(** ** rsi_strategy.py *)

Module rsi_strategy.

Definition SYMBOL : string := "BTC".
Definition TRADE_AMOUNT : Q := 1 # 100.
Definition RSI_PERIOD : nat := 14.

(** *** Values of a pandas float series

    A float is a finite number, an infinity or NaN.  Division follows
    IEEE 754 as pandas applies it to a [Series]: no exception is raised
    on a zero divisor.  The sign of a zero is not tracked; a zero divisor
    is taken as [+0.0].  (With [-0.0] the quotient is the infinity of the
    other sign; [rsi_of_rs] maps both infinities to the same value.) *)
Inductive fval :=
| Num (q : Q)
| Inf (negative : bool)
| NaN.

Definition fneg (x : fval) : fval :=
  match x with
  | Num q => Num (- q)
  | Inf s => Inf (negb s)
  | NaN => NaN
  end.

Definition fadd (x y : fval) : fval :=
  match x, y with
  | NaN, _ | _, NaN => NaN
  | Num a, Num b => Num (a + b)
  | Num _, Inf s | Inf s, Num _ => Inf s
  | Inf s, Inf t => if Bool.eqb s t then Inf s else NaN
  end.

Definition fsub (x y : fval) : fval := fadd x (fneg y).

Definition fdiv (x y : fval) : fval :=
  match x, y with
  | NaN, _ | _, NaN => NaN
  | Num a, Num b =>
      if Qeq_bool b 0
      then (if Qeq_bool a 0 then NaN else Inf (Qltb a 0))
      else Num (a / b)
  | Num _, Inf _ => Num 0
  | Inf s, Num b => Inf (xorb s (Qltb b 0))
  | Inf _, Inf _ => NaN
  end.

(** [x < q] and [x > q]; every comparison with NaN is false. *)
Definition flt (x : fval) (q : Q) : bool :=
  match x with
  | Num a => Qltb a q
  | Inf s => s
  | NaN => false
  end.

Definition fgt (x : fval) (q : Q) : bool :=
  match x with
  | Num a => Qgtb a q
  | Inf s => negb s
  | NaN => false
  end.

(** A series of finite values with missing entries ([None] is NaN). *)
Definition of_missing (o : option Q) : fval :=
  match o with
  | Some q => Num q
  | None => NaN
  end.

(** *** compute_RSI, lines 61-73 *)

Fixpoint diff_from (prev : Q) (xs : list Q) : list (option Q) :=
  match xs with
  | [] => []
  | x :: xs' => Some (x - prev) :: diff_from x xs'
  end.

(** [series.diff()]: the first entry is missing. *)
Definition diff (series : list Q) : list (option Q) :=
  match series with
  | [] => []
  | x :: xs => None :: diff_from x xs
  end.

(** [delta.clip(lower=0)] and [delta.clip(upper=0)], entry by entry. *)
Definition clip_lower0 (d : option Q) : option Q :=
  option_map (fun q => if Qltb q 0 then 0 else q) d.

Definition clip_upper0 (d : option Q) : option Q :=
  option_map (fun q => if Qgtb q 0 then 0 else q) d.

Definition present (w : list (option Q)) : list Q :=
  flat_map (fun o => match o with Some q => [q] | None => [] end) w.

(** The rolling mean at the last index of [prefix]: the mean of the
    entries present among the last [window] ones, provided at least
    [min_periods] of them are present. *)
Definition window_mean (window min_periods : nat) (prefix : list (option Q))
  : option Q :=
  let w := skipn (length prefix - window) prefix in
  let vals := present w in
  if (min_periods <=? length vals)%nat
  then Some (Qsum vals / Qof_nat (length vals))
  else None.

(** [s.rolling(window=period, min_periods=period).mean()] *)
Definition rolling_mean (period : nat) (s : list (option Q)) : list (option Q) :=
  map (fun i => window_mean period period (firstn (S i) s)) (seq 0 (length s)).

Fixpoint zip_with {A B C} (f : A -> B -> C) (xs : list A) (ys : list B) : list C :=
  match xs, ys with
  | x :: xs', y :: ys' => f x y :: zip_with f xs' ys'
  | _, _ => []
  end.

(** [100 - (100 / (1 + rs))] *)
Definition rsi_of_rs (rs : fval) : fval :=
  fsub (Num 100) (fdiv (Num 100) (fadd (Num 1) rs)).

Definition compute_RSI (series : list Q) (period : nat) : list fval :=
  let delta := diff series in
  let gain := map clip_lower0 delta in
  let loss := map (fun d => option_map Qopp (clip_upper0 d)) delta in
  let avg_gain := rolling_mean period gain in
  let avg_loss := rolling_mean period loss in
  let rs := zip_with (fun g l => fdiv (of_missing g) (of_missing l)) avg_gain avg_loss in
  map rsi_of_rs rs.

(** *** The bot *)

Record Candle := mkCandle {
  c_open : Q;
  c_high : Q;
  c_low : Q;
  c_close : Q
}.

Record State := mkState {
  candles : list Candle;
  position : Z;
  entry_price : option Q;
  profit : Q
}.

Definition init : State := mkState [] 0 None 0.

Definition send_trade_order (side : string) (amount price : Q) : M bool :=
  send_order SYMBOL side amount price.

(** The trading logic of [evaluate_RSI], lines 153-176.  The result of
    [send_trade_order] is not used. *)
Definition trade (s : State) (current_rsi : fval) (current_price : Q) : M State :=
  if (position s =? 0)%Z then
    if flt current_rsi 30 then
      _ <- send_trade_order "buy" TRADE_AMOUNT current_price ;;
      ret (mkState (candles s) 1 (Some current_price) (profit s))
    else if fgt current_rsi 70 then
      _ <- send_trade_order "sell" TRADE_AMOUNT current_price ;;
      ret (mkState (candles s) (-1) (Some current_price) (profit s))
    else ret s
  else
    if (position s =? 1)%Z && fgt current_rsi 50 then
      entry <- need (entry_price s) ;;
      let profit_change := current_price - entry in
      let profit' := profit s + profit_change in
      _ <- send_trade_order "sell" TRADE_AMOUNT current_price ;;
      ret (mkState (candles s) 0 None profit')
    else if (position s =? -1)%Z && flt current_rsi 50 then
      entry <- need (entry_price s) ;;
      let profit_change := entry - current_price in
      let profit' := profit s + profit_change in
      _ <- send_trade_order "buy" TRADE_AMOUNT current_price ;;
      ret (mkState (candles s) 0 None profit')
    else ret s.

(** [evaluate_RSI], lines 124-176. *)
Definition evaluate_RSI (s : State) : M State :=
  if (length (candles s) <? RSI_PERIOD + 1)%nat then ret s
  else
    let closes := map c_close (candles s) in
    let rsi_series := compute_RSI closes RSI_PERIOD in
    current_rsi <- need (Py.last_opt rsi_series) ;;
    current_candle <- need (Py.last_opt (candles s)) ;;
    trade s current_rsi (c_close current_candle).

(** One iteration of the loop of [main]. *)
Definition tick (s : State) (fetched : option Q) : M State :=
  match fetched with
  | None => ret s
  | Some price =>
      let candle := mkCandle price price price price in
      let cs := RollingBuffer.push_slice (RSI_PERIOD + 1) (candles s) candle in
      evaluate_RSI (mkState cs (position s) (entry_price s) (profit s))
  end.

Fixpoint run (s : State) (feed : list (option Q)) : M State :=
  match feed with
  | [] => ret s
  | f :: feed' => s' <- tick s f ;; run s' feed'
  end.

(** Every value is smaller than the next one. *)
Fixpoint strictly_increasing (xs : list Q) : Prop :=
  match xs with
  | x :: ((y :: _) as tl) => x < y /\ strictly_increasing tl
  | _ => True
  end.

(** A difference that is present and positive. *)
Definition gain_entry (d : option Q) : Prop := exists q, d = Some q /\ 0 < q.

(** Every value is greater than the next one. *)
Fixpoint strictly_decreasing (xs : list Q) : Prop :=
  match xs with
  | x :: ((y :: _) as tl) => y < x /\ strictly_decreasing tl
  | _ => True
  end.

(** A difference that is present and negative, and one that is present and
    zero. *)
Definition loss_entry (d : option Q) : Prop := exists q, d = Some q /\ q < 0.

Definition flat_entry (d : option Q) : Prop := exists q, d = Some q /\ q == 0.

(** An entry that, when present, is not negative. *)
Definition nonneg_entry (d : option Q) : Prop := forall q, d = Some q -> 0 <= q.

(** A value of the RSI scale: NaN, or a number between 0 and 100. *)
Definition on_rsi_scale (x : fval) : Prop :=
  x = NaN \/ exists q, x = Num q /\ 0 <= q /\ q <= 100.

(** The position is 0 with no entry price, or 1 or -1 with an entry price. *)
Definition consistent (s : State) : Prop :=
  (position s = 0%Z /\ entry_price s = None)
  \/ ((position s = 1%Z \/ position s = (-1)%Z) /\ is_Some (entry_price s)).

End rsi_strategy.

(** ** bollinger_bands.py *)

Module bollinger_bands.

Definition SYMBOL : string := "BTC".
Definition TRADE_AMOUNT : Q := 1 # 100.
Definition WINDOW : nat := 20.

Record State := mkState {
  position : Z;
  entry_price : option Q;
  profit : Q
}.

Definition init : State := mkState 0 None 0.

Definition send_trade_order (side : string) (amount price : Q) : M bool :=
  send_order SYMBOL side amount price.

(** The trading logic of [evaluate_bollinger_bands], lines 147-174.  The
    moving average and the bands ([statistics.stdev] takes a
    floating-point square root) are inputs.  The result of
    [send_trade_order] is not used. *)
Definition trade (s : State) (ma upper_band lower_band current_price : Q) : M State :=
  if (position s =? 0)%Z then
    if Qgtb current_price upper_band then
      _ <- send_trade_order "buy" TRADE_AMOUNT current_price ;;
      ret (mkState 1 (Some current_price) (profit s))
    else if Qltb current_price lower_band then
      _ <- send_trade_order "sell" TRADE_AMOUNT current_price ;;
      ret (mkState (-1) (Some current_price) (profit s))
    else ret s
  else
    if (position s =? 1)%Z && Qltb current_price ma then
      entry <- need (entry_price s) ;;
      let profit_change := current_price - entry in
      let profit' := profit s + profit_change in
      _ <- send_trade_order "sell" TRADE_AMOUNT current_price ;;
      ret (mkState 0 None profit')
    else if (position s =? -1)%Z && Qgtb current_price ma then
      entry <- need (entry_price s) ;;
      let profit_change := entry - current_price in
      let profit' := profit s + profit_change in
      _ <- send_trade_order "buy" TRADE_AMOUNT current_price ;;
      ret (mkState 0 None profit')
    else ret s.

(** A tick at price [p1] followed by a tick at price [p2], each with its
    own indicator values. *)
Definition round_trip (s : State) (ma1 upper1 lower1 p1 ma2 upper2 lower2 p2 : Q)
  : M State :=
  s' <- trade s ma1 upper1 lower1 p1 ;;
  trade s' ma2 upper2 lower2 p2.

(** *** The loop *)

Record Candle := mkCandle {
  c_timestamp : Z;
  c_open : Q;
  c_high : Q;
  c_low : Q;
  c_close : Q
}.

(** The globals: [candles] and the trade globals. *)
Record Loop := mkLoop {
  candles : list Candle;
  bot : State
}.

Definition init_loop : Loop := mkLoop [] init.

(** The position is 0 with no entry price, or 1 or -1 with an entry price. *)
Definition consistent (s : State) : Prop :=
  (position s = 0%Z /\ entry_price s = None)
  \/ ((position s = 1%Z \/ position s = (-1)%Z) /\ is_Some (entry_price s)).

Section Loop.

(** [statistics.stdev], the sample standard deviation (a square root of
    floats), is taken as given; it is called on [WINDOW] prices. *)
Variable stdev : list Q -> Q.

(** [evaluate_bollinger_bands], lines 111-174. *)
Definition evaluate_bollinger_bands (l : Loop) : M Loop :=
  if (length (candles l) <? WINDOW)%nat then ret l
  else
    let recent_candles := Py.slice_last WINDOW (candles l) in
    let close_prices := map c_close recent_candles in
    let ma := Qsum close_prices / Qof_nat WINDOW in
    let std_dev := stdev close_prices in
    let upper_band := ma + 2 * std_dev in
    let lower_band := ma - 2 * std_dev in
    current_candle <- need (Py.last_opt (candles l)) ;;
    let current_price := c_close current_candle in
    bot' <- trade (bot l) ma upper_band lower_band current_price ;;
    ret (mkLoop (candles l) bot').

(** One iteration of the loop of [main], lines 178-196.  [fetched] is the
    clock reading and the price, or [None] when the fetch failed. *)
Definition tick (l : Loop) (fetched : option (Z * Q)) : M Loop :=
  match fetched with
  | None => ret l
  | Some (now, price) =>
      let candle := mkCandle now price price price price in
      let cs := RollingBuffer.push_slice WINDOW (candles l) candle in
      evaluate_bollinger_bands (mkLoop cs (bot l))
  end.

Fixpoint run (l : Loop) (feed : list (option (Z * Q))) : M Loop :=
  match feed with
  | [] => ret l
  | f :: feed' => l' <- tick l f ;; run l' feed'
  end.

End Loop.

End bollinger_bands.

(** ** momentum_bot.py *)

Module momentum_bot.

Definition SYMBOL : string := "BTC".
Definition TRADE_AMOUNT : Q := 1 # 100.
Definition MOMENTUM_PERIOD : nat := 10.
Definition THRESHOLD : Q := 50.

(** [price_history] holds pairs of a timestamp and a price. *)
Record State := mkState {
  price_history : list (Z * Q);
  position : Z;
  entry_price : option Q;
  profit : Q
}.

Definition init : State := mkState [] 0 None 0.

Definition send_trade_order (side : string) (amount price : Q) : M bool :=
  send_order SYMBOL side amount price.

(** The trading logic of [evaluate_trading_signal], lines 139-164. *)
Definition trade (s : State) (momentum current_price : Q) : M State :=
  if (position s =? 0)%Z then
    if Qgtb momentum THRESHOLD then
      ok <- send_trade_order "buy" TRADE_AMOUNT current_price ;;
      if ok
      then ret (mkState (price_history s) 1 (Some current_price) (profit s))
      else ret s
    else if Qltb momentum (- THRESHOLD) then
      ok <- send_trade_order "sell" TRADE_AMOUNT current_price ;;
      if ok
      then ret (mkState (price_history s) (-1) (Some current_price) (profit s))
      else ret s
    else ret s
  else
    if (position s =? 1)%Z && Qltb momentum 0 then
      ok <- send_trade_order "sell" TRADE_AMOUNT current_price ;;
      if ok then
        entry <- need (entry_price s) ;;
        ret (mkState (price_history s) 0 None (profit s + (current_price - entry)))
      else ret s
    else if (position s =? -1)%Z && Qgtb momentum 0 then
      ok <- send_trade_order "buy" TRADE_AMOUNT current_price ;;
      if ok then
        entry <- need (entry_price s) ;;
        ret (mkState (price_history s) 0 None (profit s + (entry - current_price)))
      else ret s
    else ret s.

(** [evaluate_trading_signal], lines 112-164.  [price_history[-1]] and
    [price_history[-MOMENTUM_PERIOD]] are read by position from the end. *)
Definition evaluate_trading_signal (s : State) : M State :=
  let h := price_history s in
  if (length h <? MOMENTUM_PERIOD)%nat then ret s
  else
    current <- need (nth_error h (length h - 1)) ;;
    past <- need (nth_error h (length h - MOMENTUM_PERIOD)) ;;
    let current_price := snd current in
    let past_price := snd past in
    let momentum := current_price - past_price in
    trade s momentum current_price.

(** A tick at price [p1] with momentum [m1] followed by a tick at price [p2]
    with momentum [m2]. *)
Definition round_trip (s : State) (m1 p1 m2 p2 : Q) : M State :=
  s' <- trade s m1 p1 ;;
  trade s' m2 p2.

(** One iteration of the loop of [main], lines 177-194.  [fetched] is the
    pair of the clock reading and the price of [SYMBOL], or [None] when no
    market data came back or the symbol was missing from it. *)
Definition tick (s : State) (fetched : option (Z * Q)) : M State :=
  match fetched with
  | None => ret s
  | Some (now, current_price) =>
      let h := RollingBuffer.push_slice 100 (price_history s) (now, current_price) in
      evaluate_trading_signal (mkState h (position s) (entry_price s) (profit s))
  end.

Fixpoint run (s : State) (feed : list (option (Z * Q))) : M State :=
  match feed with
  | [] => ret s
  | f :: feed' => s' <- tick s f ;; run s' feed'
  end.

(** The position is 0 with no entry price, or 1 or -1 with an entry price. *)
Definition consistent (s : State) : Prop :=
  (position s = 0%Z /\ entry_price s = None)
  \/ ((position s = 1%Z \/ position s = (-1)%Z) /\ is_Some (entry_price s)).

End momentum_bot.

(** ** moving_average.py *)

Module moving_average.

Definition SYMBOL : string := "BTC".
Definition TRADE_AMOUNT : Q := 1 # 100.
Definition WINDOW : nat := 50.

(** [candles] is kept as the list of close prices (all four prices of a
    candle are the fetched price). *)
Record State := mkState {
  candles : list Q;
  position : Z;
  entry_price : option Q;
  profit : Q
}.

Definition init : State := mkState [] 0 None 0.

Definition send_trade_order (side : string) (amount price : Q) : M bool :=
  send_order SYMBOL side amount price.

(** The entry of [evaluate_moving_average], lines 137-145 and 157-166: the
    position is set, then the order is sent. *)
Definition enter (s : State) (desired_position : Z) (current_price profit' : Q)
  : M State :=
  let s' := mkState (candles s) desired_position (Some current_price) profit' in
  if (desired_position =? 1)%Z then
    _ <- send_trade_order "buy" TRADE_AMOUNT current_price ;;
    ret s'
  else
    _ <- send_trade_order "sell" TRADE_AMOUNT current_price ;;
    ret s'.

(** [evaluate_moving_average], lines 106-169.  The average is exact here;
    the float average rounds, so a price within rounding distance of it can
    fall on the other side in the source. *)
Definition evaluate_moving_average (s : State) : M State :=
  if (length (candles s) <? WINDOW)%nat then ret s
  else
    let recent_candles := Py.slice_last WINDOW (candles s) in
    let moving_average := Qsum recent_candles / Qof_nat WINDOW in
    current_price <- need (Py.last_opt (candles s)) ;;
    let desired_position := if Qgtb current_price moving_average then 1%Z else (-1)%Z in
    if (position s =? 0)%Z then
      enter s desired_position current_price (profit s)
    else if negb (position s =? desired_position)%Z then
      entry <- need (entry_price s) ;;
      if (position s =? 1)%Z then
        let profit_change := current_price - entry in
        let profit' := profit s + profit_change in
        _ <- send_trade_order "sell" TRADE_AMOUNT current_price ;;
        enter s desired_position current_price profit'
      else
        let profit_change := entry - current_price in
        let profit' := profit s + profit_change in
        _ <- send_trade_order "buy" TRADE_AMOUNT current_price ;;
        enter s desired_position current_price profit'
    else ret s.

(** One iteration of the loop of [main]. *)
Definition tick (s : State) (fetched : option Q) : M State :=
  match fetched with
  | None => ret s
  | Some price =>
      let cs := RollingBuffer.push_slice WINDOW (candles s) price in
      evaluate_moving_average (mkState cs (position s) (entry_price s) (profit s))
  end.

Fixpoint run (s : State) (feed : list (option Q)) : M State :=
  match feed with
  | [] => ret s
  | f :: feed' => s' <- tick s f ;; run s' feed'
  end.

(** The position is 0 with no entry price, or 1 or -1 with an entry price. *)
Definition consistent (s : State) : Prop :=
  (position s = 0%Z /\ entry_price s = None)
  \/ ((position s = 1%Z \/ position s = (-1)%Z) /\ is_Some (entry_price s)).

End moving_average.

(** ** GNN_1.py *)

Module GNN_1.

Definition SYMBOL : string := "BTC".
Definition TRADE_AMOUNT : Q := 1 # 100.

(** The position globals: [in_position] ([True] while a long position is
    held) and [entry_price]. *)
Record State := mkState {
  in_position : bool;
  entry_price : option Q
}.

Definition init : State := mkState false None.

Definition send_trade_order (side : string) (amount price : Q) : M bool :=
  send_order SYMBOL side amount price.

(** The decision block of [main], lines 171-193; [decision] is the index
    returned by [np.argmax]. *)
Definition act (s : State) (decision : nat) (current_close : Q) : M State :=
  if (decision =? 1)%nat then
    if negb (in_position s) then
      ok <- send_trade_order "buy" TRADE_AMOUNT current_close ;;
      if ok then ret (mkState true (Some current_close)) else ret s
    else ret s
  else if (decision =? 2)%nat then
    if in_position s then
      ok <- send_trade_order "sell" TRADE_AMOUNT current_close ;;
      if ok then
        entry <- need (entry_price s) ;;
        let profit := current_close - entry in
        ret (mkState false None)
      else ret s
    else ret s
  else ret s.

(** The decisions of successive ticks with the prices they were taken at. *)
Fixpoint run (s : State) (ticks : list (nat * Q)) : M State :=
  match ticks with
  | [] => ret s
  | (decision, current_close) :: ticks' =>
      s' <- act s decision current_close ;; run s' ticks'
  end.

(** The entry price is set exactly when a position is open. *)
Definition consistent (s : State) : Prop :=
  in_position s = true <-> is_Some (entry_price s).

(** The lots held: one while in position. *)
Definition lots (s : State) : Z := if in_position s then 1%Z else 0%Z.

(** *** The loop *)

(** [np.argmax]: the index of the first largest output ([ValueError] on no
    output at all). *)
Fixpoint argmax_from (best_index : nat) (best : Q) (i : nat) (xs : list Q) : nat :=
  match xs with
  | [] => best_index
  | x :: xs' =>
      if Qgtb x best then argmax_from i x (S i) xs'
      else argmax_from best_index best (S i) xs'
  end.

Definition argmax (outputs : list Q) : option nat :=
  match outputs with
  | [] => None
  | x :: xs => Some (argmax_from 0 x 1 xs)
  end.

(** The globals of the loop. *)
Record Loop := mkLoop {
  bot : State;
  baseline_close : option Q;
  baseline_volume : option Q;
  baseline_trades : option Q;
  previous_close : option Q
}.

Definition init_loop : Loop := mkLoop init None None None None.

(** What [fetch_market_data] returns for a price: the volume and the trade
    count are always 1.0. *)
Record MarketData := mkMarketData {
  close : Q;
  volume : Q;
  trades : Q
}.

Definition market_data_of (price : Q) : MarketData := mkMarketData price 1 1.

Section Loop.

(** [net.activate] of the loaded network is taken as given. *)
Variable activate : list Q -> list Q.

(** One iteration of the loop of [main], lines 138-196.  [fetched] is the
    price of [fetch_market_data], or [None] when the fetch failed. *)
Definition tick (l : Loop) (fetched : option Q) : M Loop :=
  match fetched with
  | None => ret l
  | Some price =>
      let market_data := market_data_of price in
      let current_close := close market_data in
      let current_volume := volume market_data in
      let current_trades := trades market_data in
      let l :=
        match baseline_close l with
        | None =>
            mkLoop (bot l) (Some current_close)
              (Some (if negb (Qeq_bool current_volume 0) then current_volume else 1))
              (Some (if negb (Qeq_bool current_trades 0) then current_trades else 1))
              (Some current_close)
        | Some _ => l
        end in
      baseline_close' <- need (baseline_close l) ;;
      baseline_volume' <- need (baseline_volume l) ;;
      baseline_trades' <- need (baseline_trades l) ;;
      previous_close' <- need (previous_close l) ;;
      if Qeq_bool baseline_close' 0 then raise
      else
        let norm_price := current_close / baseline_close' in
        let price_change :=
          if negb (Qeq_bool previous_close' 0)
          then (current_close - previous_close') / previous_close' else 0 in
        let norm_volume :=
          if negb (Qeq_bool baseline_volume' 0)
          then current_volume / baseline_volume' else 1 in
        let norm_trades :=
          if negb (Qeq_bool baseline_trades' 0)
          then current_trades / baseline_trades' else 1 in
        let position_flag : Q := if in_position (bot l) then 1 else 0 in
        let inputs :=
          [norm_price; price_change; norm_volume; norm_trades; position_flag] in
        let outputs := activate inputs in
        decision <- need (argmax outputs) ;;
        bot' <- act (bot l) decision current_close ;;
        ret (mkLoop bot' (baseline_close l) (baseline_volume l)
               (baseline_trades l) (Some current_close))
  end.

Fixpoint main_loop (l : Loop) (feed : list (option Q)) : M Loop :=
  match feed with
  | [] => ret l
  | f :: feed' => l' <- tick l f ;; main_loop l' feed'
  end.

End Loop.

End GNN_1.

(** ** Net exposure booked at the trade API *)

(** The signed number of lots an order added to the account: [+1] for an
  executed buy, [-1] for an executed sell, [0] for a failed order. *)
Definition signed_fill (e : Order * bool) : Z :=
if snd e
then (if String.eqb (o_side (fst e)) "buy" then 1 else -1)%Z
else 0%Z.

Definition net_position (j : list (Order * bool)) : Z :=
fold_right (fun e acc => (signed_fill e + acc)%Z) 0%Z j.

(** The signed number of lots an order asked for, whether or not the API
  accepted it, and the net of the orders submitted. *)
Definition signed_order (e : Order * bool) : Z :=
if String.eqb (o_side (fst e)) "buy" then 1%Z else (-1)%Z.

Definition net_submitted (j : list (Order * bool)) : Z :=
fold_right (fun e acc => (signed_order e + acc)%Z) 0%Z j.

(** ** The aggregate result of a two-leg action, as the specification words it

    "The aggregate action is successful only if every leg succeeds.  Partial
    success (some legs fill, others fail) is a distinct, explicitly reported
    failure mode (PartialFill)."  This classification is the specification's;
    the bots compute [both_legs]. *)
Inductive Aggregate := Filled | PartialFill | Failed.

Definition spec_aggregate (leg1 leg2 : bool) : Aggregate :=
  if leg1 && leg2 then Filled
  else if leg1 || leg2 then PartialFill
  else Failed.

(** * Facts *)

(** ** Rational comparisons *)

Lemma Qltb_lt x y : Qltb x y = true <-> x < y.
Proof.
  unfold Qltb. rewrite negb_true_iff, <- not_true_iff_false, Qle_bool_iff.
  split; [apply Qnot_le_lt | apply Qlt_not_le].
Qed.

Lemma Qltb_ge x y : Qltb x y = false <-> y <= x.
Proof. unfold Qltb. rewrite negb_false_iff. apply Qle_bool_iff. Qed.

Lemma Qgtb_gt x y : Qgtb x y = true <-> y < x.
Proof. apply Qltb_lt. Qed.

Lemma Qgtb_le x y : Qgtb x y = false <-> x <= y.
Proof. apply Qltb_ge. Qed.

Lemma Qgtb_eq_false x y : x == y -> Qgtb x y = false.
Proof. intros H. apply Qgtb_le. rewrite H. apply Qle_refl. Qed.

Lemma Qsum_from_zeros xs a :
  Forall (fun q => q == 0) xs -> fold_left Qplus xs a == a.
Proof.
  intros H. revert a.
  induction H as [|x xs Hx _ IH]; intros a; cbn [fold_left].
  - reflexivity.
  - rewrite IH, Hx. ring.
Qed.

Lemma Qsum_from_pos_le xs a :
  Forall (fun q => 0 < q) xs -> a <= fold_left Qplus xs a.
Proof.
  intros H. revert a.
  induction H as [|x xs Hx _ IH]; intros a; cbn [fold_left].
  - apply Qle_refl.
  - apply Qle_trans with (a + x); [lra | apply IH].
Qed.

Lemma Qsum_pos xs :
  Forall (fun q => 0 < q) xs -> xs <> [] -> 0 < Qsum xs.
Proof.
  intros H Hne. unfold Qsum.
  destruct H as [|x xs Hx Hxs]; [congruence|].
  cbn [fold_left].
  apply Qlt_le_trans with (0 + x); [lra | now apply Qsum_from_pos_le].
Qed.

Lemma Qof_nat_nonneg n : 0 <= Qof_nat n.
Proof. unfold Qof_nat, Qle. cbn. lia. Qed.

Lemma Qof_nat_pos n : (0 < n)%nat -> 0 < Qof_nat n.
Proof. intros H. unfold Qof_nat, Qlt. cbn. lia. Qed.

Lemma Qof_nat_succ n : Qof_nat (S n) == Qof_nat n + 1.
Proof.
  unfold Qof_nat. rewrite Nat2Z.inj_succ, <- Z.add_1_r, inject_Z_plus.
  reflexivity.
Qed.

(** ** Last elements *)

Lemma last_opt_snoc {A} (l : list A) (x : A) : Py.last_opt (l ++ [x]) = Some x.
Proof. unfold Py.last_opt. now rewrite rev_app_distr. Qed.

Lemma last_opt_map {A B} (f : A -> B) (l : list A) :
  Py.last_opt (map f l) = option_map f (Py.last_opt l).
Proof. unfold Py.last_opt. rewrite <- map_rev. now destruct (rev l). Qed.

(** ** The rolling buffer *)

Section Buffer.
Context {A : Type}.
Implicit Types (N : nat) (buf xs : list A) (x : A).

Lemma push_slice_recent N buf x :
  (1 <= N)%nat ->
  RollingBuffer.push_slice N buf x = RollingBuffer.most_recent N (buf ++ [x]).
Proof.
  intros HN. unfold RollingBuffer.push_slice, RollingBuffer.most_recent.
  destruct (Nat.ltb_spec N (length (buf ++ [x]))) as [Hlt | Hge].
  - unfold Py.slice_last. destruct N as [|n]; [lia | reflexivity].
  - replace (length (buf ++ [x]) - N)%nat with 0%nat by lia. reflexivity.
Qed.

Lemma most_recent_length N xs :
  (length (RollingBuffer.most_recent N xs) <= N)%nat.
Proof. unfold RollingBuffer.most_recent. rewrite length_skipn. lia. Qed.

Lemma most_recent_snoc N xs x :
  RollingBuffer.most_recent N (RollingBuffer.most_recent N xs ++ [x])
  = RollingBuffer.most_recent N (xs ++ [x]).
Proof.
  unfold RollingBuffer.most_recent.
  rewrite !skipn_app, skipn_skipn, !length_app, !length_skipn.
  cbn [length]. f_equal; f_equal; lia.
Qed.

Lemma push_pop_recent N xs x :
  RollingBuffer.push_pop N (RollingBuffer.most_recent N xs) x
  = Some (RollingBuffer.most_recent N (xs ++ [x])).
Proof.
  rewrite <- most_recent_snoc.
  pose proof (most_recent_length N xs) as Hlen.
  unfold RollingBuffer.push_pop.
  set (buf := RollingBuffer.most_recent N xs) in *.
  unfold RollingBuffer.most_recent.
  destruct (Nat.ltb_spec N (length (buf ++ [x]))) as [Hlt | Hge].
  - rewrite length_app in Hlt. cbn [length] in Hlt.
    replace (length (buf ++ [x]) - N)%nat with 1%nat
      by (rewrite length_app; cbn [length]; lia).
    destruct buf; reflexivity.
  - replace (length (buf ++ [x]) - N)%nat with 0%nat by lia. reflexivity.
Qed.

Lemma pushes_slice_from N pre xs :
  (1 <= N)%nat ->
  fold_left (RollingBuffer.push_slice N) xs (RollingBuffer.most_recent N pre)
  = RollingBuffer.most_recent N (pre ++ xs).
Proof.
  intros HN. revert pre.
  induction xs as [|x xs IH]; intros pre; cbn [fold_left].
  - now rewrite app_nil_r.
  - rewrite push_slice_recent, most_recent_snoc by exact HN.
    rewrite IH, <- app_assoc. reflexivity.
Qed.

Lemma pushes_pop_from_recent N pre xs :
  RollingBuffer.pushes_pop_from N (RollingBuffer.most_recent N pre) xs
  = Some (RollingBuffer.most_recent N (pre ++ xs)).
Proof.
  revert pre.
  induction xs as [|x xs IH]; intros pre; cbn [RollingBuffer.pushes_pop_from].
  - now rewrite app_nil_r.
  - rewrite push_pop_recent, IH, <- app_assoc. reflexivity.
Qed.

End Buffer.

(** With capacity 0 the slice [xs[-0:]] is the whole list, so the bound on
    the capacity is needed for the slicing buffers. *)
Example push_slice_capacity_0 :
  RollingBuffer.pushes_slice 0 [10; 20] = [10; 20].
Proof. reflexivity. Qed.

(** C8.  For every capacity [N >= 1] and every sequence of pushes into an
    empty buffer, with either eviction idiom of the bots (re-slicing to the
    last [N], or popping the head), the buffer never holds more than [N]
    values and holds exactly the [N] most recent pushed values in arrival
    order.  With capacity 3, pushing 10, 20, 30, 40 leaves [20, 30, 40]. *)
Theorem rolling_buffer_keeps_most_recent :
  forall (A : Type) (N : nat) (xs : list A),
    (1 <= N)%nat ->
    (length (RollingBuffer.pushes_slice N xs) <= N)%nat
    /\ RollingBuffer.pushes_slice N xs = RollingBuffer.most_recent N xs
    /\ RollingBuffer.pushes_pop N xs = Some (RollingBuffer.most_recent N xs)
    /\ RollingBuffer.pushes_slice 3 [10; 20; 30; 40] = [20; 30; 40]
    /\ RollingBuffer.pushes_pop 3 [10; 20; 30; 40] = Some [20; 30; 40].
Proof.
  intros A N xs HN.
  assert (Hs : RollingBuffer.pushes_slice N xs = RollingBuffer.most_recent N xs).
  { unfold RollingBuffer.pushes_slice.
    change (@nil A) with (RollingBuffer.most_recent N (@nil A)).
    now rewrite pushes_slice_from. }
  split; [rewrite Hs; apply most_recent_length|].
  split; [exact Hs|].
  split.
  - unfold RollingBuffer.pushes_pop.
    change (@nil A) with (RollingBuffer.most_recent N (@nil A)) at 1.
    now rewrite pushes_pop_from_recent.
  - split; reflexivity.
Qed.

Lemma rolling_buffer_keeps_most_recent_witness :
  (length (RollingBuffer.pushes_slice 2 [1; 2; 3]) <= 2)%nat
  /\ RollingBuffer.pushes_slice 2 [1; 2; 3] = [2; 3]
  /\ RollingBuffer.pushes_pop 2 [1; 2; 3] = Some [2; 3].
Proof.
  destruct (rolling_buffer_keeps_most_recent Q 2 [1; 2; 3] ltac:(lia))
    as (H1 & H2 & H3 & _).
  split; [exact H1 | split; [exact H2 | exact H3]].
Defined.

(** ** Submitting orders *)

Lemma bind_send_order {B} symbol side amount price (k : bool -> M B) w :
  bind (send_order symbol side amount price) k w
  = k (exchange w (length (journal w)))
      (mkWorld (exchange w)
         (journal w
          ++ [(mkOrder symbol side amount price, exchange w (length (journal w)))])).
Proof. reflexivity. Qed.

Lemma bind_ret {A B} (a : A) (k : A -> M B) w : bind (ret a) k w = k a w.
Proof. reflexivity. Qed.

Lemma length_snoc {A} (l : list A) (x : A) : length (l ++ [x]) = S (length l).
Proof. rewrite length_app. cbn [length]. lia. Qed.

Lemma net_position_snoc j e :
  net_position (j ++ [e]) = (net_position j + signed_fill e)%Z.
Proof.
  unfold net_position. induction j as [|x j IH]; cbn [app fold_right]; lia.
Qed.

(** Rewrites a computation up to its next order. *)
Ltac step_order :=
  rewrite bind_send_order; cbn [exchange journal]; rewrite ?length_snoc.

(** ** Flip: the exit leg succeeds and the enter leg fails *)

(** In the crossover bot a flip whose exit order succeeds and whose enter
    order fails credits the exit profit and leaves the position and the
    entry price as they were. *)
Lemma dual_ma_flip_half_done s fast_ma slow_ma p e w :
  DualMovingAverage.position s = (-1)%Z ->
  DualMovingAverage.entry_price s = Some e ->
  slow_ma < fast_ma ->
  exchange w (length (journal w)) = true ->
  exchange w (S (length (journal w))) = false ->
  fst (DualMovingAverage.trade s fast_ma slow_ma p w)
  = Some (DualMovingAverage.mkState (DualMovingAverage.price_history s) (-1)
            (Some e) (DualMovingAverage.cum_profit s + (e - p))).
Proof.
  intros Hpos He Hlt Hx1 Hx2.
  unfold DualMovingAverage.trade, DualMovingAverage.send_trade_order.
  apply Qgtb_gt in Hlt. rewrite Hlt, Hpos. cbn [Z.eqb Pos.eqb].
  step_order. rewrite Hx1, He. cbn [need]. rewrite bind_ret.
  step_order. rewrite Hx2. reflexivity.
Qed.

Lemma rl_flip_half_done s p e w :
  Reinforcement_bot.position s = (-1)%Z ->
  Reinforcement_bot.entry_price s = Some e ->
  exchange w (length (journal w)) = true ->
  exchange w (S (length (journal w))) = false ->
  fst (Reinforcement_bot.execute_action s 1 p w)
  = Some (Reinforcement_bot.mkState (-1) (Some e) (Reinforcement_bot.cash s + (e - p))).
Proof.
  intros Hpos He Hx1 Hx2.
  unfold Reinforcement_bot.execute_action, Reinforcement_bot.send_trade_order.
  rewrite Hpos. cbn [Z.eqb Pos.eqb].
  step_order. rewrite Hx1, He. cbn [need]. rewrite bind_ret.
  step_order. rewrite Hx2. reflexivity.
Qed.

(** C1 (the code departs from the claim).  A short entered at 100 is flipped
    at 90 on a bullish crossover; the exit order succeeds and the enter
    order fails.  The crossover bot and the reinforcement-learning bot both
    end the tick still short with entry price 100, after crediting the exit
    profit of 10: the state is the pre-flip side, not Flat.  The same from
    the initial state of the crossover bot: fifty ticks at 100 (it enters
    short at 100), then a tick at 200 where the fast average 110 is above
    the slow average 102. *)
Theorem flip_enter_failure_keeps_stale_side :
  let short := DualMovingAverage.mkState [] (-1) (Some 100) 0 in
  let r := DualMovingAverage.trade short 105 100 90 (world_of [true; false]) in
  let feed := repeat (Some 100) 50 ++ [Some 200] in
  let r' := DualMovingAverage.run DualMovingAverage.init feed
              (world_of [true; true; false]) in
  fst r = Some (DualMovingAverage.mkState [] (-1) (Some 100) 10)
  /\ map snd (journal (snd r)) = [true; false]
  /\ fst (Reinforcement_bot.execute_action
            (Reinforcement_bot.mkState (-1) (Some 100) 10000) 1 90
            (world_of [true; false]))
     = Some (Reinforcement_bot.mkState (-1) (Some 100) 10010)
  /\ option_map DualMovingAverage.position (fst r') = Some (-1)%Z
  /\ option_map DualMovingAverage.entry_price (fst r') = Some (Some 100)
  /\ option_map DualMovingAverage.cum_profit (fst r') = Some (-100)
  /\ map (fun e => (o_side (fst e), o_price (fst e), snd e)) (journal (snd r'))
     = [("sell"%string, 100, true); ("buy"%string, 200, true);
        ("buy"%string, 200, false)].
Proof. vm_compute. repeat split. Qed.

(** ** Two-leg entries *)

Lemma spread_enter_partial s beta btc eth spread mean ub lb w :
  spread_bot.position s = 0%Z ->
  ub < spread \/ spread < lb ->
  xorb (exchange w (length (journal w))) (exchange w (S (length (journal w)))) = true ->
  fst (spread_bot.trade s beta btc eth spread mean ub lb w) = Some s
  /\ exists side_eth side_btc,
       journal (snd (spread_bot.trade s beta btc eth spread mean ub lb w))
       = journal w
         ++ [(mkOrder "ETH" side_eth spread_bot.TRADE_AMOUNT eth,
              exchange w (length (journal w)));
             (mkOrder "BTC" side_btc spread_bot.TRADE_AMOUNT btc,
              exchange w (S (length (journal w))))].
Proof.
  intros Hpos Hsig Hx.
  assert (Hboth : spread_bot.both_legs (exchange w (length (journal w)))
                    (exchange w (S (length (journal w)))) = false).
  { unfold spread_bot.both_legs.
    destruct (exchange w (length (journal w))), (exchange w (S (length (journal w))));
      cbn in Hx |- *; congruence. }
  unfold spread_bot.trade, spread_bot.send_trade_order.
  rewrite Hpos. cbn [Z.eqb Pos.eqb].
  destruct (Qgtb spread ub) eqn:Hub.
  - do 2 step_order. rewrite Hboth. cbn. rewrite <- app_assoc. eauto.
  - assert (Hlb : Qltb spread lb = true).
    { destruct Hsig as [H | H]; [|now apply Qltb_lt].
      apply Qgtb_gt in H. congruence. }
    rewrite Hlb. do 2 step_order. rewrite Hboth. cbn. rewrite <- app_assoc. eauto.
Qed.

Lemma arbitrage_enter_partial s btc eth ratio mean ub lb w :
  relative_arbitrage.position s = 0%Z ->
  ub < ratio \/ ratio < lb ->
  xorb (exchange w (length (journal w))) (exchange w (S (length (journal w)))) = true ->
  fst (relative_arbitrage.trade s btc eth ratio mean ub lb w) = Some s
  /\ exists side_eth side_btc,
       journal (snd (relative_arbitrage.trade s btc eth ratio mean ub lb w))
       = journal w
         ++ [(mkOrder "ETH" side_eth relative_arbitrage.TRADE_AMOUNT eth,
              exchange w (length (journal w)));
             (mkOrder "BTC" side_btc relative_arbitrage.TRADE_AMOUNT btc,
              exchange w (S (length (journal w))))].
Proof.
  intros Hpos Hsig Hx.
  assert (Hboth : relative_arbitrage.both_legs (exchange w (length (journal w)))
                    (exchange w (S (length (journal w)))) = false).
  { unfold relative_arbitrage.both_legs.
    destruct (exchange w (length (journal w))), (exchange w (S (length (journal w))));
      cbn in Hx |- *; congruence. }
  unfold relative_arbitrage.trade, relative_arbitrage.send_trade_order.
  rewrite Hpos. cbn [Z.eqb Pos.eqb].
  destruct (Qgtb ratio ub) eqn:Hub.
  - do 2 step_order. rewrite Hboth. cbn. rewrite <- app_assoc. eauto.
  - assert (Hlb : Qltb ratio lb = true).
    { destruct Hsig as [H | H]; [|now apply Qltb_lt].
      apply Qgtb_gt in H. congruence. }
    rewrite Hlb. do 2 step_order. rewrite Hboth. cbn. rewrite <- app_assoc. eauto.
Qed.

(** C2 as stated fails: no report computed from the state a two-leg entry
    leaves behind can name the specification's aggregate result, because a
    partial fill (first leg filled, second failed) and a failure of both
    legs leave the same state.  Input: flat, spread 20 above the upper
    bound 10. *)
Lemma partial_fill_not_distinguished :
  ~ exists report : option spread_bot.State -> Aggregate,
      forall leg1 leg2 : bool,
        report (fst (spread_bot.trade spread_bot.init 1 1000 1020 20 0 10 (-10)
                       (world_of [leg1; leg2])))
        = spec_aggregate leg1 leg2.
Proof.
  intros [report H].
  pose proof (H true false) as Hpartial.
  pose proof (H false false) as Hfailed.
  vm_compute in Hpartial, Hfailed. congruence.
Qed.

(** C2, amended.  For every two-leg Enter of the spread bot and of the
    relative-arbitrage bot in which exactly one leg succeeds, the state is
    left as it was (Flat, no entry data, profit unchanged), both legs are
    submitted, and the journal records each leg with its own outcome, so
    exactly the leg that succeeded is reported as executed.  The aggregate
    test of the bots is the conjunction of the two outcomes and has the same
    value as when both legs fail. *)
Theorem partial_fill_stays_flat_and_journals_each_leg :
  (forall s beta btc eth spread mean ub lb w,
      spread_bot.position s = 0%Z ->
      ub < spread \/ spread < lb ->
      xorb (exchange w (length (journal w)))
        (exchange w (S (length (journal w)))) = true ->
      fst (spread_bot.trade s beta btc eth spread mean ub lb w) = Some s
      /\ (exists side_eth side_btc,
             journal (snd (spread_bot.trade s beta btc eth spread mean ub lb w))
             = journal w
               ++ [(mkOrder "ETH" side_eth spread_bot.TRADE_AMOUNT eth,
                    exchange w (length (journal w)));
                   (mkOrder "BTC" side_btc spread_bot.TRADE_AMOUNT btc,
                    exchange w (S (length (journal w))))])
      /\ spread_bot.both_legs (exchange w (length (journal w)))
           (exchange w (S (length (journal w))))
         = spread_bot.both_legs false false)
  /\ (forall s btc eth ratio mean ub lb w,
         relative_arbitrage.position s = 0%Z ->
         ub < ratio \/ ratio < lb ->
         xorb (exchange w (length (journal w)))
           (exchange w (S (length (journal w)))) = true ->
         fst (relative_arbitrage.trade s btc eth ratio mean ub lb w) = Some s
         /\ (exists side_eth side_btc,
                journal (snd (relative_arbitrage.trade s btc eth ratio mean ub lb w))
                = journal w
                  ++ [(mkOrder "ETH" side_eth relative_arbitrage.TRADE_AMOUNT eth,
                       exchange w (length (journal w)));
                      (mkOrder "BTC" side_btc relative_arbitrage.TRADE_AMOUNT btc,
                       exchange w (S (length (journal w))))])
         /\ relative_arbitrage.both_legs (exchange w (length (journal w)))
              (exchange w (S (length (journal w))))
            = relative_arbitrage.both_legs false false).
Proof.
  split.
  - intros s beta btc eth spread mean ub lb w Hpos Hsig Hx.
    destruct (spread_enter_partial s beta btc eth spread mean ub lb w Hpos Hsig Hx)
      as [Hs Hj].
    repeat split; try assumption.
    destruct (exchange w (length (journal w))), (exchange w (S (length (journal w))));
      cbn in Hx |- *; congruence.
  - intros s btc eth ratio mean ub lb w Hpos Hsig Hx.
    destruct (arbitrage_enter_partial s btc eth ratio mean ub lb w Hpos Hsig Hx)
      as [Hs Hj].
    repeat split; try assumption.
    destruct (exchange w (length (journal w))), (exchange w (S (length (journal w))));
      cbn in Hx |- *; congruence.
Qed.

Lemma partial_fill_stays_flat_and_journals_each_leg_witness :
  fst (spread_bot.trade spread_bot.init 1 1000 1020 20 0 10 (-10)
         (world_of [true; false]))
  = Some spread_bot.init
  /\ fst (relative_arbitrage.trade relative_arbitrage.init 1000 100 (1 # 10)
            (2 # 10) (3 # 10) (15 # 100) (world_of [false; true]))
     = Some relative_arbitrage.init.
Proof.
  destruct partial_fill_stays_flat_and_journals_each_leg as [Hspread Harb].
  split.
  - apply (Hspread spread_bot.init 1 1000 1020 20 0 10 (-10) (world_of [true; false]));
      [reflexivity | left; reflexivity | reflexivity].
  - apply (Harb relative_arbitrage.init 1000 100 (1 # 10) (2 # 10) (3 # 10) (15 # 100)
             (world_of [false; true]));
      [reflexivity | right; reflexivity | reflexivity].
Defined.

(** ** Single-leg entries *)

(** The RSI bot and the Bollinger bot record the position before the order
    is sent and whatever its outcome. *)
Lemma rsi_enter_ignores_outcome s rsi p w :
  rsi_strategy.position s = 0%Z ->
  rsi_strategy.flt rsi 30 = true ->
  fst (rsi_strategy.trade s rsi p w)
  = Some (rsi_strategy.mkState (rsi_strategy.candles s) 1 (Some p)
            (rsi_strategy.profit s)).
Proof.
  intros Hpos Hrsi. unfold rsi_strategy.trade, rsi_strategy.send_trade_order.
  rewrite Hpos, Hrsi. cbn [Z.eqb Pos.eqb]. now step_order.
Qed.

Lemma bollinger_enter_ignores_outcome s ma upper lower p w :
  bollinger_bands.position s = 0%Z ->
  upper < p ->
  fst (bollinger_bands.trade s ma upper lower p w)
  = Some (bollinger_bands.mkState 1 (Some p) (bollinger_bands.profit s)).
Proof.
  intros Hpos Hup. unfold bollinger_bands.trade, bollinger_bands.send_trade_order.
  apply Qgtb_gt in Hup. rewrite Hpos, Hup. cbn [Z.eqb Pos.eqb]. now step_order.
Qed.

(** The momentum bot and the crossover bot wait for the outcome: a failed
    entry order leaves the state as it was. *)
Lemma momentum_enter_failure_stays_flat s momentum p w :
  momentum_bot.position s = 0%Z ->
  exchange w (length (journal w)) = false ->
  fst (momentum_bot.trade s momentum p w) = Some s.
Proof.
  intros Hpos Hx. unfold momentum_bot.trade, momentum_bot.send_trade_order.
  rewrite Hpos. cbn [Z.eqb Pos.eqb].
  destruct (Qgtb momentum momentum_bot.THRESHOLD);
    [step_order; now rewrite Hx|].
  destruct (Qltb momentum (- momentum_bot.THRESHOLD));
    [step_order; now rewrite Hx | reflexivity].
Qed.

Lemma dual_ma_enter_failure_stays_flat s fast_ma slow_ma p w :
  DualMovingAverage.position s = 0%Z ->
  exchange w (length (journal w)) = false ->
  fst (DualMovingAverage.trade s fast_ma slow_ma p w) = Some s.
Proof.
  intros Hpos Hx.
  unfold DualMovingAverage.trade, DualMovingAverage.send_trade_order.
  rewrite Hpos. cbn [Z.eqb Pos.eqb].
  destruct (Qgtb fast_ma slow_ma); step_order; now rewrite Hx.
Qed.

(** The RSI of fifteen falling prices is 0: all losses, no gain. *)
Example rsi_of_falling_prices :
  exists q,
    Py.last_opt
      (rsi_strategy.compute_RSI (map (fun k => Qof_nat (100 - k)) (seq 0 15)) 14)
    = Some (rsi_strategy.Num q)
    /\ q == 0.
Proof. eexists. split; reflexivity. Qed.

(** C3 (the code departs from the claim).  The RSI bot is fed fifteen
    falling prices 100, 99, ..., 86: the RSI is 0, below 30, so the bot
    decides to enter long at 86.  The only order fails, yet the bot ends
    the tick long with entry price 86.  The Bollinger bot, flat with price
    112 above the upper band 110, likewise ends long at 112 although its
    order failed. *)
Theorem enter_recorded_although_order_failed :
  let feed := map (fun k => Some (Qof_nat (100 - k))) (seq 0 15) in
  let r := rsi_strategy.run rsi_strategy.init feed (world_of [false]) in
  option_map rsi_strategy.position (fst r) = Some 1%Z
  /\ option_map rsi_strategy.entry_price (fst r) = Some (Some 86)
  /\ journal (snd r) = [(mkOrder "BTC" "buy" (1 # 100) 86, false)]
  /\ fst (bollinger_bands.trade bollinger_bands.init 100 110 90 112 (world_of [false]))
     = Some (bollinger_bands.mkState 1 (Some 112) 0)
  /\ journal (snd (bollinger_bands.trade bollinger_bands.init 100 110 90 112
                     (world_of [false])))
     = [(mkOrder "BTC" "buy" (1 # 100) 112, false)].
Proof. vm_compute. repeat split. Qed.

(** ** Exits of the two-leg bots *)

(** The exit profit is added before the orders are sent, whatever their
    outcome. *)
Lemma spread_exit_credits_before_orders s beta btc eth spread mean ub lb eB eE w :
  spread_bot.position s = 1%Z ->
  spread_bot.entry_BTC s = Some eB ->
  spread_bot.entry_ETH s = Some eE ->
  mean <= spread ->
  option_map spread_bot.cum_profit
    (fst (spread_bot.trade s beta btc eth spread mean ub lb w))
  = Some (spread_bot.cum_profit s + ((eth - eE) - beta * (btc - eB))).
Proof.
  intros Hpos HB HE Hsig.
  unfold spread_bot.trade, spread_bot.send_trade_order.
  rewrite Hpos. cbn [Z.eqb Pos.eqb andb].
  unfold Qgeb. apply Qle_bool_iff in Hsig. rewrite Hsig, HE, HB.
  cbn [need]. rewrite !bind_ret. do 2 step_order.
  now destruct (spread_bot.both_legs _ _).
Qed.

(** C4 (the code departs from the claim).  A long spread entered at
    BTC 1000, ETH 100 with hedge ratio 1 meets an exit signal at BTC 1000,
    ETH 110, worth 10.  Both exit orders fail: the position stays open and
    10 is credited all the same.  When the exit is retried on the next tick
    and succeeds, 10 is credited again: 20 for one trade.  The
    relative-arbitrage bot does the same (entered at BTC 100, ETH 100,
    ratio 1; exit signal at BTC 100, ETH 110).  Both held states are the
    ones a successful entry from the initial state produces. *)
Theorem failed_exit_still_credits_profit :
  let held := spread_bot.mkState 1 (Some 1000) (Some 100) (Some (-900)) 0 in
  let held' := relative_arbitrage.mkState 1 (Some 1) (Some 100) (Some 100) 0 in
  fst (spread_bot.trade spread_bot.init 1 1000 100 (-900) (-880) (-870) (-890)
         (world_of [true; true]))
  = Some held
  /\ fst (spread_bot.trade held 1 1000 110 (-890) (-895) (-885) (-905)
            (world_of [false; false]))
     = Some (spread_bot.mkState 1 (Some 1000) (Some 100) (Some (-900)) 10)
  /\ fst (spread_bot.trade_twice held 1 1000 110 (-890) (-895) (-885) (-905)
            (world_of [false; false; true; true]))
     = Some (spread_bot.mkState 0 None None None 20)
  /\ fst (relative_arbitrage.trade relative_arbitrage.init 100 100 1 (12 # 10)
            (13 # 10) (11 # 10) (world_of [true; true]))
     = Some held'
  /\ fst (relative_arbitrage.trade held' 100 110 (11 # 10) (21 # 20) (12 # 10)
            (9 # 10) (world_of [false; false]))
     = Some (relative_arbitrage.mkState 1 (Some 1) (Some 100) (Some 100) 10)
  /\ fst (relative_arbitrage.trade_twice held' 100 110 (11 # 10) (21 # 20)
            (12 # 10) (9 # 10) (world_of [false; false; true; true]))
     = Some (relative_arbitrage.mkState 0 None None None 20).
Proof. vm_compute. repeat split. Qed.

(** ** Realized profit of a round trip *)

Lemma momentum_long_round_trip s m1 p1 m2 p2 w :
  momentum_bot.position s = 0%Z ->
  momentum_bot.THRESHOLD < m1 ->
  m2 < 0 ->
  exchange w (length (journal w)) = true ->
  exchange w (S (length (journal w))) = true ->
  fst (momentum_bot.round_trip s m1 p1 m2 p2 w)
  = Some (momentum_bot.mkState (momentum_bot.price_history s) 0 None
            (momentum_bot.profit s + (p2 - p1))).
Proof.
  intros Hpos Hm1 Hm2 Hx1 Hx2.
  unfold momentum_bot.round_trip, momentum_bot.trade, momentum_bot.send_trade_order.
  apply Qgtb_gt in Hm1. apply Qltb_lt in Hm2.
  rewrite Hpos, Hm1. cbn [Z.eqb Pos.eqb].
  unfold bind at 1. step_order. rewrite Hx1. cbn [ret].
  cbn [momentum_bot.position Z.eqb Pos.eqb andb]. rewrite Hm2.
  step_order. rewrite Hx2. reflexivity.
Qed.

Lemma momentum_short_round_trip s m1 p1 m2 p2 w :
  momentum_bot.position s = 0%Z ->
  m1 < - momentum_bot.THRESHOLD ->
  0 < m2 ->
  exchange w (length (journal w)) = true ->
  exchange w (S (length (journal w))) = true ->
  fst (momentum_bot.round_trip s m1 p1 m2 p2 w)
  = Some (momentum_bot.mkState (momentum_bot.price_history s) 0 None
            (momentum_bot.profit s + (p1 - p2))).
Proof.
  intros Hpos Hm1 Hm2 Hx1 Hx2.
  unfold momentum_bot.round_trip, momentum_bot.trade, momentum_bot.send_trade_order.
  assert (Hm1' : Qgtb m1 momentum_bot.THRESHOLD = false).
  { apply Qgtb_le. unfold momentum_bot.THRESHOLD in *. lra. }
  apply Qltb_lt in Hm1. apply Qgtb_gt in Hm2.
  rewrite Hpos, Hm1', Hm1. cbn [Z.eqb Pos.eqb].
  unfold bind at 1. step_order. rewrite Hx1. cbn [ret].
  cbn [momentum_bot.position Z.eqb Pos.eqb andb]. rewrite Hm2.
  step_order. rewrite Hx2. reflexivity.
Qed.

Lemma bollinger_long_round_trip s ma1 u1 l1 p1 ma2 u2 l2 p2 w :
  bollinger_bands.position s = 0%Z ->
  u1 < p1 ->
  p2 < ma2 ->
  fst (bollinger_bands.round_trip s ma1 u1 l1 p1 ma2 u2 l2 p2 w)
  = Some (bollinger_bands.mkState 0 None (bollinger_bands.profit s + (p2 - p1))).
Proof.
  intros Hpos Hin Hout.
  unfold bollinger_bands.round_trip, bollinger_bands.trade,
    bollinger_bands.send_trade_order.
  apply Qgtb_gt in Hin. apply Qltb_lt in Hout.
  rewrite Hpos, Hin. cbn [Z.eqb Pos.eqb].
  unfold bind at 1. step_order. cbn [ret].
  cbn [bollinger_bands.position bollinger_bands.entry_price bollinger_bands.profit
       Z.eqb Pos.eqb andb need].
  rewrite Hout, bind_ret. now step_order.
Qed.

Lemma bollinger_short_round_trip s ma1 u1 l1 p1 ma2 u2 l2 p2 w :
  bollinger_bands.position s = 0%Z ->
  p1 <= u1 ->
  p1 < l1 ->
  ma2 < p2 ->
  fst (bollinger_bands.round_trip s ma1 u1 l1 p1 ma2 u2 l2 p2 w)
  = Some (bollinger_bands.mkState 0 None (bollinger_bands.profit s + (p1 - p2))).
Proof.
  intros Hpos Hnot Hin Hout.
  unfold bollinger_bands.round_trip, bollinger_bands.trade,
    bollinger_bands.send_trade_order.
  apply Qgtb_le in Hnot. apply Qltb_lt in Hin. apply Qgtb_gt in Hout.
  rewrite Hpos, Hnot, Hin. cbn [Z.eqb Pos.eqb].
  unfold bind at 1. step_order. cbn [ret].
  cbn [bollinger_bands.position bollinger_bands.entry_price bollinger_bands.profit
       Z.eqb Pos.eqb andb need].
  rewrite Hout, bind_ret. now step_order.
Qed.

(** C5 as stated fails: the momentum bot enters long at 100 and exits at
    110, each order for 0.01 BTC succeeding.  The accountant is credited 10,
    the price difference, not 10 times the size 0.01. *)
Lemma profit_is_not_scaled_by_size :
  exists s,
    fst (momentum_bot.round_trip momentum_bot.init 60 100 (-1) 110
           (world_of [true; true])) = Some s
    /\ momentum_bot.position s = 0%Z
    /\ momentum_bot.profit s == 10
    /\ ~ momentum_bot.profit s == (110 - 100) * momentum_bot.TRADE_AMOUNT.
Proof.
  eexists. split; [reflexivity|]. cbn.
  split; [reflexivity|]. split; [reflexivity|]. discriminate.
Qed.

(** C5, amended.  Entering long at price [p1] and exiting at price [p2]
    credits the accountant exactly [p2 - p1], and a short entered at [p1]
    and exited at [p2] credits exactly [p1 - p2]: the price difference of
    one unit, whatever the order size.  In the momentum bot this is the
    round trip whose two orders succeed; the Bollinger bot credits it
    without looking at the outcome of its orders. *)
Theorem round_trip_credits_price_difference :
  (forall s m1 p1 m2 p2 w,
      momentum_bot.position s = 0%Z ->
      exchange w (length (journal w)) = true ->
      exchange w (S (length (journal w))) = true ->
      (momentum_bot.THRESHOLD < m1 -> m2 < 0 ->
       fst (momentum_bot.round_trip s m1 p1 m2 p2 w)
       = Some (momentum_bot.mkState (momentum_bot.price_history s) 0 None
                 (momentum_bot.profit s + (p2 - p1))))
      /\ (m1 < - momentum_bot.THRESHOLD -> 0 < m2 ->
          fst (momentum_bot.round_trip s m1 p1 m2 p2 w)
          = Some (momentum_bot.mkState (momentum_bot.price_history s) 0 None
                    (momentum_bot.profit s + (p1 - p2)))))
  /\ (forall s ma1 u1 l1 p1 ma2 u2 l2 p2 w,
         bollinger_bands.position s = 0%Z ->
         (u1 < p1 -> p2 < ma2 ->
          fst (bollinger_bands.round_trip s ma1 u1 l1 p1 ma2 u2 l2 p2 w)
          = Some (bollinger_bands.mkState 0 None
                    (bollinger_bands.profit s + (p2 - p1))))
         /\ (p1 <= u1 -> p1 < l1 -> ma2 < p2 ->
             fst (bollinger_bands.round_trip s ma1 u1 l1 p1 ma2 u2 l2 p2 w)
             = Some (bollinger_bands.mkState 0 None
                       (bollinger_bands.profit s + (p1 - p2))))).
Proof.
  split.
  - intros s m1 p1 m2 p2 w Hpos Hx1 Hx2. split; intros.
    + now apply momentum_long_round_trip.
    + now apply momentum_short_round_trip.
  - intros s ma1 u1 l1 p1 ma2 u2 l2 p2 w Hpos. split; intros.
    + now apply bollinger_long_round_trip.
    + now apply bollinger_short_round_trip.
Qed.

Lemma round_trip_credits_price_difference_witness :
  fst (momentum_bot.round_trip momentum_bot.init 60 100 (-1) 110
         (world_of [true; true]))
  = Some (momentum_bot.mkState [] 0 None (0 + (110 - 100)))
  /\ fst (bollinger_bands.round_trip bollinger_bands.init 100 110 90 80 100 110 90 105
            (world_of [false; false]))
     = Some (bollinger_bands.mkState 0 None (0 + (80 - 105))).
Proof.
  destruct round_trip_credits_price_difference as [Hmom Hboll].
  split.
  - apply (Hmom momentum_bot.init 60 100 (-1) 110 (world_of [true; true]));
      reflexivity.
  - apply (Hboll bollinger_bands.init 100 110 90 80 100 110 90 105
             (world_of [false; false]));
      first [reflexivity | unfold Qle; cbn; lia].
Defined.

(** ** The crossover rule *)

(** What the crossover bot submits when it is flat: a buy when the fast
    average is above the slow one, and a sell otherwise, equality
    included. *)
Lemma dual_ma_flat_orders s fast_ma slow_ma p w :
  DualMovingAverage.position s = 0%Z ->
  journal (snd (DualMovingAverage.trade s fast_ma slow_ma p w))
  = journal w
    ++ [(mkOrder "BTC" (if Qgtb fast_ma slow_ma then "buy" else "sell")
           DualMovingAverage.TRADE_AMOUNT p,
         exchange w (length (journal w)))].
Proof.
  intros Hpos.
  unfold DualMovingAverage.trade, DualMovingAverage.send_trade_order.
  rewrite Hpos. cbn [Z.eqb Pos.eqb].
  destruct (Qgtb fast_ma slow_ma); step_order;
    now destruct (exchange w (length (journal w))).
Qed.

Lemma dual_ma_equal_averages_sell s fast_ma slow_ma p w :
  DualMovingAverage.position s = 0%Z ->
  fast_ma == slow_ma ->
  journal (snd (DualMovingAverage.trade s fast_ma slow_ma p w))
  = journal w
    ++ [(mkOrder "BTC" "sell" DualMovingAverage.TRADE_AMOUNT p,
         exchange w (length (journal w)))].
Proof.
  intros Hpos Heq. rewrite dual_ma_flat_orders by exact Hpos.
  now rewrite (Qgtb_eq_false _ _ Heq).
Qed.

(** A long position is flipped when the averages are equal: the exit leg
    is a sell. *)
Lemma dual_ma_equal_averages_flip_long s fast_ma slow_ma p w :
  DualMovingAverage.position s = 1%Z ->
  fast_ma == slow_ma ->
  exists rest,
    journal (snd (DualMovingAverage.trade s fast_ma slow_ma p w))
    = journal w
      ++ (mkOrder "BTC" "sell" DualMovingAverage.TRADE_AMOUNT p,
          exchange w (length (journal w))) :: rest.
Proof.
  intros Hpos Heq.
  unfold DualMovingAverage.trade, DualMovingAverage.send_trade_order.
  rewrite (Qgtb_eq_false _ _ Heq), Hpos. cbn [Z.eqb Pos.eqb].
  step_order. destruct (exchange w (length (journal w))).
  - destruct (DualMovingAverage.entry_price s) as [e|]; cbn [need].
    + rewrite bind_ret. step_order.
      destruct (exchange w (S (length (journal w)))); cbn;
        rewrite <- app_assoc; eauto.
    + cbn. eauto.
  - cbn. eauto.
Qed.

(** The strict cases of the rule.  A short position is flipped to long when
    the fast average is above the slow one, a long position to short when it
    is below; both orders succeeding, the exit profit is credited and the
    position is the other side at the current price. *)
Lemma dual_ma_flip_short_to_long s fast_ma slow_ma p e w :
  DualMovingAverage.position s = (-1)%Z ->
  DualMovingAverage.entry_price s = Some e ->
  slow_ma < fast_ma ->
  exchange w (length (journal w)) = true ->
  exchange w (S (length (journal w))) = true ->
  fst (DualMovingAverage.trade s fast_ma slow_ma p w)
  = Some (DualMovingAverage.mkState (DualMovingAverage.price_history s) 1
            (Some p) (DualMovingAverage.cum_profit s + (e - p))).
Proof.
  intros Hpos He Hlt Hx1 Hx2.
  unfold DualMovingAverage.trade, DualMovingAverage.send_trade_order.
  apply Qgtb_gt in Hlt. rewrite Hlt, Hpos. cbn [Z.eqb Pos.eqb].
  step_order. rewrite Hx1, He. cbn [need]. rewrite bind_ret.
  step_order. rewrite Hx2. reflexivity.
Qed.

Lemma dual_ma_flip_long_to_short s fast_ma slow_ma p e w :
  DualMovingAverage.position s = 1%Z ->
  DualMovingAverage.entry_price s = Some e ->
  fast_ma < slow_ma ->
  exchange w (length (journal w)) = true ->
  exchange w (S (length (journal w))) = true ->
  fst (DualMovingAverage.trade s fast_ma slow_ma p w)
  = Some (DualMovingAverage.mkState (DualMovingAverage.price_history s) (-1)
            (Some p) (DualMovingAverage.cum_profit s + (p - e))).
Proof.
  intros Hpos He Hlt Hx1 Hx2.
  unfold DualMovingAverage.trade, DualMovingAverage.send_trade_order.
  assert (Hgt : Qgtb fast_ma slow_ma = false) by (apply Qgtb_le; lra).
  rewrite Hgt, Hpos. cbn [Z.eqb Pos.eqb].
  step_order. rewrite Hx1, He. cbn [need]. rewrite bind_ret.
  step_order. rewrite Hx2. reflexivity.
Qed.

(** A position on the side of the signal is held: nothing is submitted. *)
Lemma dual_ma_holds_with_signal s fast_ma slow_ma p w :
  (DualMovingAverage.position s = 1%Z /\ slow_ma < fast_ma)
  \/ (DualMovingAverage.position s = (-1)%Z /\ fast_ma <= slow_ma) ->
  DualMovingAverage.trade s fast_ma slow_ma p w = (Some s, w).
Proof.
  intros [[Hpos Hlt] | [Hpos Hle]]; unfold DualMovingAverage.trade.
  - apply Qgtb_gt in Hlt. now rewrite Hlt, Hpos.
  - apply Qgtb_le in Hle. now rewrite Hle, Hpos.
Qed.

(** C6 (the code departs from the claim).  Fifty ticks at the constant
    price 100 fill the buffer of the crossover bot; the fast and the slow
    average are both 100.  The bot, flat, does not hold: it submits a sell
    order and, the order succeeding, ends short at 100.  The
    moving-average bot (price against its 50-bar average) does the same. *)
Theorem crossover_equal_averages_enters_short :
  let feed := repeat (Some 100) 50 in
  let history := repeat 100 50 in
  let r := DualMovingAverage.run DualMovingAverage.init feed (world_of [true]) in
  let r' := moving_average.run moving_average.init feed (world_of [true]) in
  DualMovingAverage.mean (Py.slice_last DualMovingAverage.FAST_WINDOW history)
  == DualMovingAverage.mean history
  /\ fst r = Some (DualMovingAverage.mkState history (-1) (Some 100) 0)
  /\ journal (snd r) = [(mkOrder "BTC" "sell" (1 # 100) 100, true)]
  /\ fst r' = Some (moving_average.mkState history (-1) (Some 100) 0)
  /\ journal (snd r') = [(mkOrder "BTC" "sell" (1 # 100) 100, true)].
Proof. vm_compute. repeat split. Qed.

(** ** The RSI of a rising series *)

Module RsiFacts.
Import rsi_strategy.

Lemma zip_with_snoc {A B C} (f : A -> B -> C) xs ys x y :
  length xs = length ys ->
  zip_with f (xs ++ [x]) (ys ++ [y]) = zip_with f xs ys ++ [f x y].
Proof.
  revert ys. induction xs as [|a xs IH]; intros [|b ys] Hlen;
    cbn in Hlen; try discriminate; cbn.
  - reflexivity.
  - f_equal. apply IH. congruence.
Qed.

Lemma rolling_mean_length period s : length (rolling_mean period s) = length s.
Proof. unfold rolling_mean. now rewrite length_map, length_seq. Qed.

Lemma rolling_mean_snoc period s x :
  rolling_mean period (s ++ [x])
  = map (fun i => window_mean period period (firstn (S i) (s ++ [x])))
      (seq 0 (length s))
    ++ [window_mean period period (s ++ [x])].
Proof.
  unfold rolling_mean.
  rewrite length_app. cbn [length].
  rewrite seq_app, map_app. cbn [seq map].
  rewrite Nat.add_0_l, firstn_all2; [reflexivity|].
  rewrite length_app. cbn [length]. lia.
Qed.

(** The last RSI value is computed from the means over the last window. *)
Lemma compute_RSI_last series period x :
  Py.last_opt (compute_RSI (series ++ [x]) period)
  = Some (rsi_of_rs
      (fdiv
         (of_missing (window_mean period period
                        (map clip_lower0 (diff (series ++ [x])))))
         (of_missing (window_mean period period
                        (map (fun d => option_map Qopp (clip_upper0 d))
                           (diff (series ++ [x]))))))).
Proof.
  unfold compute_RSI. rewrite last_opt_map.
  assert (Hd : exists ds d, diff (series ++ [x]) = ds ++ [d]).
  { destruct (diff (series ++ [x])) as [|d0 ds] eqn:E.
    - destruct series; discriminate.
    - destruct (exists_last (l := d0 :: ds) ltac:(discriminate)) as (ds' & d & ->).
      eauto. }
  destruct Hd as (ds & d & ->).
  rewrite !map_app. cbn [map].
  rewrite !rolling_mean_snoc, !length_map.
  rewrite zip_with_snoc by now rewrite !length_map, !length_seq.
  rewrite last_opt_snoc. reflexivity.
Qed.

(** *** Increasing series *)

Lemma diff_from_increasing prev xs :
  strictly_increasing (prev :: xs) -> Forall gain_entry (diff_from prev xs).
Proof.
  revert prev. induction xs as [|x xs IH]; intros prev H; cbn [diff_from].
  - constructor.
  - destruct H as [Hlt H]. constructor.
    + exists (x - prev). split; [reflexivity | lra].
    + now apply IH.
Qed.

Lemma diff_from_length prev xs : length (diff_from prev xs) = length xs.
Proof. revert prev. induction xs; intros; cbn; auto. Qed.

Lemma diff_length xs : length (diff xs) = length xs.
Proof. destruct xs; cbn; [reflexivity | now rewrite diff_from_length]. Qed.

Lemma Forall_skipn_of {A} (P : A -> Prop) n (l : list A) :
  Forall P l -> Forall P (skipn n l).
Proof.
  revert l. induction n as [|n IH]; intros l H; [exact H|].
  destruct H; cbn; [constructor | now apply IH].
Qed.

(** The last [period] differences of an increasing series are gains. *)
Lemma window_of_increasing xs period :
  strictly_increasing xs -> (period + 1 <= length xs)%nat ->
  Forall gain_entry (skipn (length (diff xs) - period) (diff xs))
  /\ length (skipn (length (diff xs) - period) (diff xs)) = period.
Proof.
  intros Hinc Hlen. split.
  - destruct xs as [|x xs]; [cbn in Hlen; lia|].
    cbn [diff]. cbn [length] in *. rewrite diff_from_length.
    replace (S (length xs) - period)%nat with (S (length xs - period)) by lia.
    cbn [skipn]. apply Forall_skipn_of. now apply diff_from_increasing.
  - rewrite length_skipn, diff_length. lia.
Qed.

Lemma present_gains w :
  Forall gain_entry w ->
  Forall (fun q => 0 < q) (present (map clip_lower0 w))
  /\ length (present (map clip_lower0 w)) = length w.
Proof.
  induction 1 as [|d w (q & -> & Hq) _ [IH1 IH2]]; cbn.
  - split; [constructor | reflexivity].
  - assert (E : Qltb q 0 = false) by (apply Qltb_ge; lra).
    rewrite E. split; [now constructor | now f_equal].
Qed.

Lemma present_losses w :
  Forall gain_entry w ->
  Forall (fun q => q == 0)
    (present (map (fun d => option_map Qopp (clip_upper0 d)) w))
  /\ length (present (map (fun d => option_map Qopp (clip_upper0 d)) w))
     = length w.
Proof.
  induction 1 as [|d w (q & -> & Hq) _ [IH1 IH2]]; cbn.
  - split; [constructor | reflexivity].
  - assert (E : Qgtb q 0 = true) by now apply Qgtb_gt.
    rewrite E. split; [constructor; [reflexivity | assumption] | now f_equal].
Qed.

Lemma rsi_of_rs_inf s : rsi_of_rs (Inf s) = Num 100.
Proof. destruct s; reflexivity. Qed.

End RsiFacts.

(** C7.  For every period of at least 1 and every strictly increasing
    price series of at least period + 1 values, the RSI computed for the
    last bar is defined and equals 100: the average loss is zero, the
    relative strength is the quotient of a positive number by zero, which
    is an infinity and not an error, and the RSI formula maps an infinity of
    either sign to 100.  No NaN reaches the result. *)
Theorem rsi_of_increasing_series_is_100 :
  forall (series : list Q) (period : nat),
    (1 <= period)%nat ->
    (period + 1 <= length series)%nat ->
    rsi_strategy.strictly_increasing series ->
    Py.last_opt (rsi_strategy.compute_RSI series period)
    = Some (rsi_strategy.Num 100)
    /\ (forall negative,
           rsi_strategy.rsi_of_rs (rsi_strategy.Inf negative) = rsi_strategy.Num 100).
Proof.
  intros series period Hp Hlen Hinc.
  split; [|apply RsiFacts.rsi_of_rs_inf].
  destruct (exists_last (l := series)) as (pre & x & E).
  { intros ->. cbn in Hlen. lia. }
  rewrite E, RsiFacts.compute_RSI_last, <- E.
  destruct (RsiFacts.window_of_increasing series period Hinc Hlen) as [Hw Hwl].
  unfold rsi_strategy.window_mean.
  rewrite !length_map, !skipn_map.
  destruct (RsiFacts.present_gains _ Hw) as [Hg Hgl].
  destruct (RsiFacts.present_losses _ Hw) as [Hl Hll].
  rewrite Hgl, Hll, Hwl, Nat.leb_refl. cbn [rsi_strategy.of_missing].
  set (g := rsi_strategy.present _) in *.
  set (l := rsi_strategy.present _) in Hl |- *.
  assert (Hgpos : 0 < Qsum g / Qof_nat period).
  { apply Qlt_shift_div_l; [apply Qof_nat_pos; lia|].
    rewrite Qmult_0_l. apply Qsum_pos; [exact Hg|].
    intros Hnil. rewrite Hnil in Hgl. cbn in Hgl. lia. }
  assert (Hlz : Qsum l / Qof_nat period == 0).
  { unfold Qdiv, Qsum. rewrite (Qsum_from_zeros l 0 Hl). apply Qmult_0_l. }
  unfold rsi_strategy.fdiv.
  apply Qeq_bool_iff in Hlz. rewrite Hlz.
  assert (Hgnz : Qeq_bool (Qsum g / Qof_nat period) 0 = false).
  { apply not_true_iff_false. rewrite Qeq_bool_iff. lra. }
  rewrite Hgnz.
  assert (Hgs : Qltb (Qsum g / Qof_nat period) 0 = false) by (apply Qltb_ge; lra).
  rewrite Hgs. reflexivity.
Qed.

Lemma rsi_of_increasing_series_is_100_witness :
  Py.last_opt
    (rsi_strategy.compute_RSI [1; 2; 3; 4; 5; 6; 7; 8; 9; 10; 11; 12; 13; 14; 15] 14)
  = Some (rsi_strategy.Num 100).
Proof.
  apply (rsi_of_increasing_series_is_100
           [1; 2; 3; 4; 5; 6; 7; 8; 9; 10; 11; 12; 13; 14; 15] 14).
  - lia.
  - cbn [length]. lia.
  - cbn. repeat split.
Defined.

(** At the bot: fifteen rising prices give an RSI of 100, above 70, and the
    RSI bot enters short. *)
Example rsi_bot_on_rising_prices :
  option_map rsi_strategy.position
    (fst (rsi_strategy.run rsi_strategy.init
            (map (fun k => Some (Qof_nat (100 + k))) (seq 0 15)) (world_of [true])))
  = Some (-1)%Z.
Proof. reflexivity. Qed.

(** ** The Q-learning update *)

Section QRule.
Variables a g R : Q.
Hypothesis a_pos : 0 < a.
Hypothesis a_le_1 : a <= 1.
Hypothesis g_lt_1 : g < 1.

Local Abbreviation target := (Reinforcement_bot.q_target g R).
Local Abbreviation factor := (Reinforcement_bot.q_factor a g).
Local Abbreviation rule v := (Reinforcement_bot.q_rule a g v R v).

Lemma q_rule_target : rule target == target.
Proof.
  unfold Reinforcement_bot.q_rule, Reinforcement_bot.q_target. field. lra.
Qed.

Lemma q_rule_error v : rule v - target == factor * (v - target).
Proof.
  unfold Reinforcement_bot.q_rule, Reinforcement_bot.q_target,
    Reinforcement_bot.q_factor.
  field. lra.
Qed.

Lemma q_factor_lt_1 : factor < 1.
Proof.
  unfold Reinforcement_bot.q_factor.
  assert (Hpos : 0 < a * (1 - g)) by (apply Qmult_lt_0_compat; lra).
  lra.
Qed.

Lemma q_rule_fixed_is_target v : rule v == v -> v == target.
Proof.
  intros Hfix.
  assert (Hz : (1 - factor) * (v - target) == 0).
  { pose proof (q_rule_error v) as He. lra. }
  apply Qmult_integral in Hz. destruct Hz as [Hz | Hz]; [|lra].
  pose proof q_factor_lt_1. lra.
Qed.

Lemma q_iter_error n v :
  Reinforcement_bot.q_iter a g R n v - target
  == factor ^ Z.of_nat n * (v - target).
Proof.
  revert v. induction n as [|n IH]; intros v.
  - cbn [Reinforcement_bot.q_iter]. change (factor ^ Z.of_nat 0) with 1. ring.
  - cbn [Reinforcement_bot.q_iter]. rewrite IH, q_rule_error.
    rewrite Nat2Z.inj_succ, <- Z.add_1_r, Qpower_plus' by lia.
    change (factor ^ 1) with factor. ring.
Qed.

(** With a discount above [-1] the factor is below 1 in absolute value and
    the iterates converge to the target. *)
Hypothesis g_gt_m1 : -1 < g.

Lemma q_factor_abs_lt_1 : Qabs factor < 1.
Proof.
  unfold Reinforcement_bot.q_factor. apply Qabs_Qlt_condition.
  assert (Hpos : 0 < a * (1 - g)) by (apply Qmult_lt_0_compat; lra).
  assert (Hlt : a * (1 - g) < 2).
  { apply Qle_lt_trans with (1 * (1 - g)); [|lra].
    apply Qmult_le_compat_r; lra. }
  split; lra.
Qed.

Lemma q_iter_error_bound n v :
  Qabs (Reinforcement_bot.q_iter a g R n v - target)
  * (1 + Qof_nat n * (1 - Qabs factor))
  <= Qabs (v - target).
Proof.
  pose proof q_factor_abs_lt_1 as Hr.
  pose proof (Qabs_nonneg factor) as Hr0.
  revert v. induction n as [|n IH]; intros v.
  - cbn [Reinforcement_bot.q_iter].
    assert (E0 : 1 + Qof_nat 0 * (1 - Qabs factor) == 1)
      by (unfold Qof_nat; cbn [Z.of_nat inject_Z]; ring).
    rewrite E0, Qmult_1_r. apply Qle_refl.
  - cbn [Reinforcement_bot.q_iter].
    specialize (IH (rule v)).
    rewrite q_rule_error, Qabs_Qmult in IH.
    set (E := Qabs (Reinforcement_bot.q_iter a g R n (rule v) - target)) in *.
    set (B := Qabs (v - target)) in *.
    set (r := Qabs factor) in *.
    assert (HE : 0 <= E) by apply Qabs_nonneg.
    assert (HB : 0 <= B) by apply Qabs_nonneg.
    pose proof (Qof_nat_nonneg n) as Hn0.
    rewrite Qof_nat_succ.
    assert (HEr : E <= r * B).
    { apply Qle_trans with (E * (1 + Qof_nat n * (1 - r))); [|exact IH].
      assert (0 <= E * (Qof_nat n * (1 - r))).
      { apply Qmult_le_0_compat; [exact HE|].
        apply Qmult_le_0_compat; lra. }
      lra. }
    assert (H1 : E * (1 - r) <= r * B * (1 - r)).
    { apply Qmult_le_compat_r; lra. }
    assert (H2 : 0 <= (1 - r) * (1 - r) * B).
    { apply Qmult_le_0_compat; [|exact HB].
      apply Qmult_le_0_compat; lra. }
    assert (E1 : E * (1 + (Qof_nat n + 1) * (1 - r))
                 == E * (1 + Qof_nat n * (1 - r)) + E * (1 - r)) by ring.
    assert (E2 : B == r * B + r * B * (1 - r) + (1 - r) * (1 - r) * B) by ring.
    rewrite E1. lra.
Qed.

Lemma q_iter_converges v0 eps :
  0 < eps ->
  exists N : nat, forall n : nat, (N <= n)%nat ->
    Qabs (Reinforcement_bot.q_iter a g R n v0 - target) < eps.
Proof.
  intros Heps.
  pose proof q_factor_abs_lt_1 as Hr.
  set (d := 1 - Qabs factor) in *.
  assert (Hd : 0 < d) by (unfold d; lra).
  set (B := Qabs (v0 - target)).
  destruct (Qarchimedean (B / (eps * d))) as [p Hp].
  exists (Pos.to_nat p). intros n Hn.
  pose proof (q_iter_error_bound n v0) as Hb. fold d B in Hb.
  set (E := Qabs (Reinforcement_bot.q_iter a g R n v0 - target)) in *.
  assert (HE : 0 <= E) by apply Qabs_nonneg.
  assert (Hpn : inject_Z (Z.pos p) <= Qof_nat n).
  { unfold Qof_nat. rewrite <- Zle_Qle. lia. }
  assert (Hed : 0 < eps * d) by (apply Qmult_lt_0_compat; lra).
  assert (HB : B < eps * d * Qof_nat n).
  { apply Qlt_le_trans with (eps * d * inject_Z (Z.pos p)).
    - change (Z.pos p # 1) with (inject_Z (Z.pos p)) in Hp.
      assert (HB0 : B == B / (eps * d) * (eps * d)) by (field; split; lra).
      rewrite HB0 at 1. rewrite (Qmult_comm (eps * d)).
      apply Qmult_lt_compat_r; [exact Hed | exact Hp].
    - apply Qmult_le_l; [exact Hed | exact Hpn]. }
  assert (Hk : 0 < 1 + Qof_nat n * d).
  { assert (0 <= Qof_nat n * d).
    { apply Qmult_le_0_compat; [apply Qof_nat_nonneg | lra]. }
    lra. }
  apply Qmult_lt_r with (1 + Qof_nat n * d); [exact Hk|].
  apply Qle_lt_trans with B; [exact Hb|].
  assert (E1 : eps * (1 + Qof_nat n * d) == eps + eps * d * Qof_nat n) by ring.
  rewrite E1. lra.
Qed.

End QRule.

(** The bound on the discount from below is needed for convergence: with
    learning rate 1 and discount -3 the update is [v |-> R - 3 v], whose
    fixed point is [R / 4], and the iterates from 1 under reward 0 are the
    powers of -3. *)
Example q_iter_negative_discount :
  Reinforcement_bot.q_target (-3) 0 == 0
  /\ map (fun n => Reinforcement_bot.q_iter 1 (-3) 0 n 1) [0; 1; 2; 3]%nat
     = [1; -3; 9; -27].
Proof. split; reflexivity. Qed.

(** [update_Q] stores the value of [q_rule] at the bot's learning rate and
    discount; here the next state is the state itself. *)
Lemma update_Q_applies_rule (Q_table : gmap (Z * string) (gmap Z Q))
    (state : Z * string) (action : Z) (reward : Q) (row : gmap Z Q) (v m : Q) :
  Q_table !! state = Some row ->
  row !! action = Some v ->
  Reinforcement_bot.max_values row = Some m ->
  Reinforcement_bot.update_Q state action reward state Q_table
  = Some (<[state :=
             <[action := Reinforcement_bot.q_rule Reinforcement_bot.alpha
                           Reinforcement_bot.gamma v reward m]> row]> Q_table).
Proof.
  intros Hrow Hv Hm.
  unfold Reinforcement_bot.update_Q, Reinforcement_bot.initialize_state_if_needed.
  unfold mbind, option_bind.
  repeat (rewrite Hrow; cbn beta iota).
  rewrite Hm, Hv. reflexivity.
Qed.

(** On an empty table the first update of [(0, "neutral")] under reward 1
    stores [alpha * 1]. *)
Example update_Q_first :
  option_map (fun t => Reinforcement_bot.q_value t (0%Z, "neutral") 1%Z)
    (Reinforcement_bot.update_Q (0%Z, "neutral") 1 1 (0%Z, "neutral") ∅)
  = Some (Some (0 + (1 # 10) * (1 + (99 # 100) * 0 - 0))).
Proof. vm_compute. reflexivity. Qed.

(** *** Repeated calls of [update_Q] on one state *)

Lemma q_rule_proper a g R v v' m m' :
  v == v' -> m == m' ->
  Reinforcement_bot.q_rule a g v R m == Reinforcement_bot.q_rule a g v' R m'.
Proof. intros Hv Hm. unfold Reinforcement_bot.q_rule. rewrite Hv, Hm. reflexivity. Qed.

Lemma q_iter_proper a g R n : forall v v',
  v == v' ->
  Reinforcement_bot.q_iter a g R n v == Reinforcement_bot.q_iter a g R n v'.
Proof.
  induction n as [|n IH]; intros v v' Hv; cbn [Reinforcement_bot.q_iter];
    [exact Hv|].
  apply IH. now apply q_rule_proper.
Qed.

(** [max] over a list returns one of its elements, and none is larger. *)
Lemma Qmax_first_fold (vs : list Q) : forall v0 : Q,
  let m := fold_left Reinforcement_bot.Qmax_first vs v0 in
  m ∈ v0 :: vs /\ forall x, x ∈ v0 :: vs -> x <= m.
Proof.
  induction vs as [|y vs IH]; intros v0; cbn [fold_left].
  - split; [apply list_elem_of_here|].
    intros x Hx. apply list_elem_of_singleton in Hx. subst x. apply Qle_refl.
  - destruct (IH (Reinforcement_bot.Qmax_first v0 y)) as [Hin Hmax].
    set (m := fold_left Reinforcement_bot.Qmax_first vs
                (Reinforcement_bot.Qmax_first v0 y)) in *.
    assert (Hm0 : Reinforcement_bot.Qmax_first v0 y <= m)
      by (apply Hmax, list_elem_of_here).
    unfold Reinforcement_bot.Qmax_first in Hin, Hm0.
    split.
    + apply elem_of_cons in Hin. destruct Hin as [Hin | Hin].
      * rewrite Hin. destruct (Qltb v0 y);
          [apply list_elem_of_further, list_elem_of_here | apply list_elem_of_here].
      * do 2 apply list_elem_of_further. exact Hin.
    + intros x Hx. apply elem_of_cons in Hx. destruct Hx as [-> | Hx].
      * destruct (Qltb v0 y) eqn:E; [|exact Hm0].
        apply Qltb_lt in E. lra.
      * apply elem_of_cons in Hx. destruct Hx as [-> | Hx].
        -- destruct (Qltb v0 y) eqn:E; [exact Hm0|].
           apply Qltb_ge in E. lra.
        -- apply Hmax, list_elem_of_further, Hx.
Qed.

Lemma fresh_row_values (k : Z) (x : Q) :
  Reinforcement_bot.fresh_row !! k = Some x -> x = 0.
Proof.
  unfold Reinforcement_bot.fresh_row.
  rewrite !lookup_insert_Some, lookup_empty. intuition congruence.
Qed.

Lemma fresh_row_has (a : Z) :
  (0 <= a <= 2)%Z -> Reinforcement_bot.fresh_row !! a = Some 0.
Proof.
  intros Ha. assert (a = 0 \/ a = 1 \/ a = 2)%Z as [-> | [-> | ->]] by lia;
    reflexivity.
Qed.

(** In a row whose other actions are still at 0, a non-negative value is
    the maximum of the row. *)
Lemma max_values_of_leading_action (action : Z) (v : Q) :
  0 <= v ->
  exists m,
    Reinforcement_bot.max_values (<[action := v]> Reinforcement_bot.fresh_row)
    = Some m
    /\ m == v.
Proof.
  intros Hv. unfold Reinforcement_bot.max_values.
  set (row := <[action := v]> Reinforcement_bot.fresh_row).
  assert (Hvals : forall x, x ∈ (map_to_list row).*2 -> x = v \/ x = 0).
  { intros x Hx. apply list_elem_of_fmap in Hx. destruct Hx as ([k y] & -> & Hk).
    apply elem_of_map_to_list in Hk. cbn [snd]. unfold row in Hk.
    apply lookup_insert_Some in Hk. destruct Hk as [[_ <-] | [_ Hk]];
      [now left | right; now apply (fresh_row_values k)]. }
  assert (Hin : v ∈ (map_to_list row).*2).
  { apply list_elem_of_fmap. exists (action, v). split; [reflexivity|].
    apply elem_of_map_to_list. unfold row. apply lookup_insert_eq. }
  destruct ((map_to_list row).*2) as [|v0 vs]; [inversion Hin|].
  destruct (Qmax_first_fold vs v0) as [Hm Hmax].
  eexists. split; [reflexivity|].
  destruct (Hvals _ Hm) as [-> | E]; [reflexivity|].
  pose proof (Hmax v Hin) as Hle. rewrite E in Hle |- *. lra.
Qed.

(** One call on a state whose row, once initialised, holds [v] for the
    action and 0 for the others: the row maximum is the value itself and
    the call stores the rule's value. *)
Lemma update_Q_self_loop (Q_table : gmap (Z * string) (gmap Z Q))
    (state : Z * string) (action : Z) (R v : Q) :
  0 <= v ->
  Reinforcement_bot.initialize_state_if_needed state Q_table !! state
  = Some (<[action := v]> Reinforcement_bot.fresh_row) ->
  exists t v',
    Reinforcement_bot.update_Q state action R state Q_table = Some t
    /\ t !! state = Some (<[action := v']> Reinforcement_bot.fresh_row)
    /\ v' == Reinforcement_bot.q_rule Reinforcement_bot.alpha
               Reinforcement_bot.gamma v R v.
Proof.
  intros Hv Hrow.
  destruct (max_values_of_leading_action action v Hv) as (m & Hm & Hmv).
  set (t1 := Reinforcement_bot.initialize_state_if_needed state Q_table) in *.
  assert (E : Reinforcement_bot.update_Q state action R state Q_table
              = Reinforcement_bot.update_Q state action R state t1).
  { unfold Reinforcement_bot.update_Q.
    replace (Reinforcement_bot.initialize_state_if_needed state t1) with t1;
      [reflexivity|].
    unfold Reinforcement_bot.initialize_state_if_needed at 1. now rewrite Hrow. }
  rewrite E.
  rewrite (update_Q_applies_rule t1 state action R _ v m Hrow
             (lookup_insert_eq _ _ _) Hm).
  eexists _, _. split; [reflexivity|]. split.
  - rewrite lookup_insert_eq, insert_insert_eq. reflexivity.
  - apply q_rule_proper; [reflexivity | exact Hmv].
Qed.

Lemma q_rule_nonneg v R :
  0 <= v -> 0 <= R ->
  0 <= Reinforcement_bot.q_rule Reinforcement_bot.alpha Reinforcement_bot.gamma
         v R v.
Proof.
  intros Hv HR.
  unfold Reinforcement_bot.q_rule, Reinforcement_bot.alpha, Reinforcement_bot.gamma.
  lra.
Qed.

Lemma update_Q_repeat_self_loop (state : Z * string) (action : Z) (R : Q) (n : nat) :
  0 <= R ->
  forall (Q_table : gmap (Z * string) (gmap Z Q)) (v : Q),
    0 <= v ->
    Reinforcement_bot.initialize_state_if_needed state Q_table !! state
    = Some (<[action := v]> Reinforcement_bot.fresh_row) ->
    exists t v',
      Reinforcement_bot.update_Q_repeat (S n) state action R Q_table = Some t
      /\ t !! state = Some (<[action := v']> Reinforcement_bot.fresh_row)
      /\ v' == Reinforcement_bot.q_iter Reinforcement_bot.alpha
                 Reinforcement_bot.gamma R (S n) v.
Proof.
  intros HR. induction n as [|n IH]; intros tbl v Hv Hrow.
  - destruct (update_Q_self_loop tbl state action R v Hv Hrow)
      as (t & v' & Ht & Hl & Hv').
    exists t, v'. cbn [Reinforcement_bot.update_Q_repeat Reinforcement_bot.q_iter].
    rewrite Ht. auto.
  - destruct (update_Q_self_loop tbl state action R v Hv Hrow)
      as (t & v' & Ht & Hl & Hv').
    assert (Hv0 : 0 <= v').
    { rewrite Hv'. now apply q_rule_nonneg. }
    destruct (IH t v' Hv0) as (t2 & v2 & Ht2 & Hl2 & Hv2).
    { unfold Reinforcement_bot.initialize_state_if_needed. now rewrite Hl. }
    exists t2, v2.
    change (Reinforcement_bot.update_Q_repeat (S (S n)) state action R tbl)
      with (match Reinforcement_bot.update_Q state action R state tbl with
            | Some t' => Reinforcement_bot.update_Q_repeat (S n) state action R t'
            | None => None
            end).
    rewrite Ht. split; [exact Ht2|]. split; [exact Hl2|].
    rewrite Hv2.
    change (Reinforcement_bot.q_iter Reinforcement_bot.alpha
              Reinforcement_bot.gamma R (S (S n)) v)
      with (Reinforcement_bot.q_iter Reinforcement_bot.alpha
              Reinforcement_bot.gamma R (S n)
              (Reinforcement_bot.q_rule Reinforcement_bot.alpha
                 Reinforcement_bot.gamma v R v)).
    now apply q_iter_proper.
Qed.

(** From the empty table: the stored value after [n + 1] calls is the
    [n + 1]-th iterate of the rule from 0. *)
Lemma update_Q_repeat_from_empty (state : Z * string) (action : Z) (R : Q) (n : nat) :
  (0 <= action <= 2)%Z -> 0 <= R ->
  exists t v,
    Reinforcement_bot.update_Q_repeat (S n) state action R ∅ = Some t
    /\ Reinforcement_bot.q_value t state action = Some v
    /\ v == Reinforcement_bot.q_iter Reinforcement_bot.alpha
               Reinforcement_bot.gamma R (S n) 0.
Proof.
  intros Ha HR.
  destruct (update_Q_repeat_self_loop state action R n HR ∅ 0)
    as (t & v & Ht & Hl & Hv).
  - apply Qle_refl.
  - unfold Reinforcement_bot.initialize_state_if_needed.
    rewrite lookup_empty, lookup_insert_eq. f_equal. symmetry.
    apply insert_id. now apply fresh_row_has.
  - exists t, v. split; [exact Ht|]. split; [|exact Hv].
    unfold Reinforcement_bot.q_value, mbind, option_bind.
    rewrite Hl. apply lookup_insert_eq.
Qed.

(** When the reward is negative the stored value falls below the 0 of the
    other actions, [max_next] is 0 and no longer the updated value, and the
    calls drive the value to the reward itself: after two calls under
    reward -1 the value is -0.19, not the -0.1999 of the rule with
    [max_next] the value. *)
Example update_Q_negative_reward :
  match Reinforcement_bot.update_Q_repeat 2 (0%Z, "neutral"%string) 1 (-1) ∅ with
  | Some t =>
      match Reinforcement_bot.q_value t (0%Z, "neutral"%string) 1 with
      | Some v => v == -19 # 100
      | None => False
      end
  | None => False
  end
  /\ Reinforcement_bot.q_iter Reinforcement_bot.alpha Reinforcement_bot.gamma
       (-1) 2 0 == -1999 # 10000.
Proof. split; [vm_compute; reflexivity | reflexivity]. Qed.

(** The iterates at learning rate 1 and discount -3 triple their distance
    to the fixed point at every step. *)
Lemma q_iter_minus_3_grows n : forall v,
  1 <= Qabs v -> 1 <= Qabs (Reinforcement_bot.q_iter 1 (-3) 0 n v).
Proof.
  induction n as [|n IH]; intros v Hv; cbn [Reinforcement_bot.q_iter]; [exact Hv|].
  apply IH.
  assert (E : Reinforcement_bot.q_rule 1 (-3) v 0 v == (-3) * v)
    by (unfold Reinforcement_bot.q_rule; ring).
  rewrite E, Qabs_Qmult.
  change (Qabs (-3)) with 3. lra.
Qed.




(** ** The learned-policy bot *)

Lemma gnn_buy_ignored_when_open e p w :
  GNN_1.act (GNN_1.mkState true e) 1 p w = (Some (GNN_1.mkState true e), w).
Proof. reflexivity. Qed.

Lemma gnn_sell_ignored_when_flat e p w :
  GNN_1.act (GNN_1.mkState false e) 2 p w = (Some (GNN_1.mkState false e), w).
Proof. reflexivity. Qed.

Lemma gnn_hold d e b p w :
  d <> 1%nat -> d <> 2%nat ->
  GNN_1.act (GNN_1.mkState b e) d p w = (Some (GNN_1.mkState b e), w).
Proof.
  intros H1 H2. unfold GNN_1.act.
  destruct (Nat.eqb_spec d 1%nat); [contradiction|].
  destruct (Nat.eqb_spec d 2%nat); [contradiction|]. reflexivity.
Qed.

(** One decision from a consistent state: no exception, a consistent state,
    and the lots booked at the API move with the position flag. *)
Lemma gnn_act_step s d p w :
  GNN_1.consistent s ->
  exists s',
    fst (GNN_1.act s d p w) = Some s'
    /\ GNN_1.consistent s'
    /\ (net_position (journal (snd (GNN_1.act s d p w))) - GNN_1.lots s')%Z
       = (net_position (journal w) - GNN_1.lots s)%Z.
Proof.
  intros Hc. destruct s as [b e].
  destruct (Nat.eq_dec d 1%nat) as [-> | Hd1];
    [|destruct (Nat.eq_dec d 2%nat) as [-> | Hd2]].
  - (* Buy *)
    destruct b.
    + rewrite gnn_buy_ignored_when_open. eauto.
    + unfold GNN_1.act, GNN_1.send_trade_order. cbn [Nat.eqb GNN_1.in_position negb].
      step_order. destruct (exchange w (length (journal w))); cbn [ret fst snd journal].
      * eexists. split; [reflexivity|]. split.
        -- unfold GNN_1.consistent. cbn. split; eauto.
        -- rewrite net_position_snoc. cbn. lia.
      * eexists. split; [reflexivity|]. split; [exact Hc|].
        rewrite net_position_snoc. cbn. lia.
  - (* Sell *)
    destruct b.
    + destruct (proj1 Hc eq_refl) as [e0 He]. cbn in He. subst e.
      unfold GNN_1.act, GNN_1.send_trade_order. cbn [Nat.eqb GNN_1.in_position].
      step_order. destruct (exchange w (length (journal w)));
        cbn [ret fst snd journal GNN_1.entry_price need bind].
      * eexists. split; [reflexivity|]. split.
        -- unfold GNN_1.consistent. cbn. split; [discriminate | intros [? ?]; discriminate].
        -- rewrite net_position_snoc. cbn. lia.
      * eexists. split; [reflexivity|]. split; [exact Hc|].
        rewrite net_position_snoc. cbn. lia.
    + rewrite gnn_sell_ignored_when_flat. eauto.
  - (* Hold *)
    rewrite gnn_hold by assumption. eauto.
Qed.

Lemma gnn_run_invariant ticks : forall s w,
  GNN_1.consistent s ->
  exists s',
    fst (GNN_1.run s ticks w) = Some s'
    /\ GNN_1.consistent s'
    /\ (net_position (journal (snd (GNN_1.run s ticks w))) - GNN_1.lots s')%Z
       = (net_position (journal w) - GNN_1.lots s)%Z.
Proof.
  induction ticks as [|[d p] ticks IH]; intros s w Hc.
  - exists s. cbn. auto.
  - cbn [GNN_1.run]. unfold bind.
    destruct (gnn_act_step s d p w Hc) as (s1 & H1 & Hc1 & Hn1).
    destruct (GNN_1.act s d p w) as [o w1]. cbn [fst snd] in H1, Hn1. subst o.
    destruct (IH s1 w1 Hc1) as (s' & H' & Hc' & Hn').
    exists s'. split; [exact H'|]. split; [exact Hc'|]. lia.
Qed.

(** C10.  The learned-policy bot is long-only.  Whatever the decisions, the
    prices and the outcomes of the orders, a run from the initial state
    raises no exception and ends in a state whose entry price is set exactly
    when a position is open; the lots booked at the trade API (executed
    buys minus executed sells) are 1 when a position is open and 0
    otherwise, never negative.  A Buy decision while a position is open and
    a Sell decision while none is open submit no order and change
    nothing. *)
Theorem learned_policy_is_long_only :
  (forall (ticks : list (nat * Q)) (outcomes : nat -> bool),
      exists s',
        fst (GNN_1.run GNN_1.init ticks (mkWorld outcomes [])) = Some s'
        /\ (GNN_1.in_position s' = true <-> is_Some (GNN_1.entry_price s'))
        /\ net_position
             (journal (snd (GNN_1.run GNN_1.init ticks (mkWorld outcomes []))))
           = (if GNN_1.in_position s' then 1 else 0)%Z)
  /\ (forall e p w,
         GNN_1.act (GNN_1.mkState true e) 1 p w = (Some (GNN_1.mkState true e), w))
  /\ (forall e p w,
         GNN_1.act (GNN_1.mkState false e) 2 p w = (Some (GNN_1.mkState false e), w)).
Proof.
  split; [|split; [exact gnn_buy_ignored_when_open | exact gnn_sell_ignored_when_flat]].
  intros ticks outcomes.
  assert (Hinit : GNN_1.consistent GNN_1.init).
  { unfold GNN_1.consistent. cbn. split; [discriminate | intros [? ?]; discriminate]. }
  destruct (gnn_run_invariant ticks GNN_1.init (mkWorld outcomes []) Hinit)
    as (s' & Hrun & Hc & Hn).
  exists s'. split; [exact Hrun|]. split; [exact Hc|].
  cbn in Hn. unfold GNN_1.lots in Hn. lia.
Qed.

(** A run: buy, buy again (ignored), sell, sell again (ignored). *)
Example gnn_run_example :
  let r := GNN_1.run GNN_1.init [(1%nat, 100); (1%nat, 101); (2%nat, 105); (2%nat, 106)]
             (world_of [true; true]) in
  fst r = Some GNN_1.init
  /\ map (fun e => (o_side (fst e), o_price (fst e), snd e)) (journal (snd r))
     = [("buy"%string, 100, true); ("sell"%string, 105, true)].
Proof. split; reflexivity. Qed.

(** * Further facts *)

(** ** Orders and worlds *)

Lemma fetched_app {A} (f1 f2 : list (option A)) :
  fetched (f1 ++ f2) = fetched f1 ++ fetched f2.
Proof. unfold fetched. apply flat_map_app. Qed.

Lemma most_recent_nil {A} (N : nat) : RollingBuffer.most_recent N (@nil A) = [].
Proof. reflexivity. Qed.

Lemma most_recent_all {A} (N : nat) (xs : list A) :
  (length xs <= N)%nat -> RollingBuffer.most_recent N xs = xs.
Proof.
  intros H. unfold RollingBuffer.most_recent.
  now replace (length xs - N)%nat with 0%nat by lia.
Qed.

(** ** The crossover bot over a whole run *)

Lemma dual_ma_trade_consistent s fast_ma slow_ma p w :
  DualMovingAverage.consistent s ->
  exists s',
    fst (DualMovingAverage.trade s fast_ma slow_ma p w) = Some s'
    /\ DualMovingAverage.consistent s'
    /\ DualMovingAverage.price_history s' = DualMovingAverage.price_history s.
Proof.
  intros Hc. destruct s as [h pos e c].
  unfold DualMovingAverage.consistent in *. cbn in Hc.
  unfold DualMovingAverage.trade, DualMovingAverage.send_trade_order.
  cbn [DualMovingAverage.position DualMovingAverage.entry_price
       DualMovingAverage.price_history DualMovingAverage.cum_profit].
  destruct Hc as [[-> ->] | [[-> | ->] [e0 ->]]]; cbn [Z.eqb Pos.eqb];
    destruct (Qgtb fast_ma slow_ma);
    try (eexists; split; [reflexivity|]; cbn; split; [|reflexivity]; eauto 6; fail);
    step_order; destruct (exchange w (length (journal w)));
    cbn [need]; rewrite ?bind_ret;
    try (eexists; split; [reflexivity|]; cbn; split; [|reflexivity]; eauto 6; fail);
    step_order; destruct (exchange w (S (length (journal w))));
    eexists; (split; [reflexivity|]); cbn; (split; [|reflexivity]); eauto 6.
Qed.

Lemma dual_ma_tick_invariant s f w pre :
  DualMovingAverage.consistent s ->
  DualMovingAverage.price_history s
  = RollingBuffer.most_recent DualMovingAverage.SLOW_WINDOW pre ->
  exists s',
    fst (DualMovingAverage.tick s f w) = Some s'
    /\ DualMovingAverage.consistent s'
    /\ DualMovingAverage.price_history s'
       = RollingBuffer.most_recent DualMovingAverage.SLOW_WINDOW (pre ++ fetched [f]).
Proof.
  intros Hc Hh. destruct f as [p|]; cbn [DualMovingAverage.tick fetched flat_map].
  - rewrite Hh, push_slice_recent, most_recent_snoc
      by (unfold DualMovingAverage.SLOW_WINDOW; lia).
    cbn [app].
    set (h := RollingBuffer.most_recent _ (pre ++ [p])).
    set (s1 := DualMovingAverage.mkState h _ _ _).
    assert (Hc1 : DualMovingAverage.consistent s1) by exact Hc.
    destruct (length h <? DualMovingAverage.SLOW_WINDOW)%nat.
    + exists s1. repeat split; try assumption.
    + destruct (dual_ma_trade_consistent s1
                  (DualMovingAverage.mean
                     (Py.slice_last DualMovingAverage.FAST_WINDOW h))
                  (DualMovingAverage.mean h) p w Hc1) as (s' & H1 & H2 & H3).
      exists s'. repeat split; assumption.
  - exists s. rewrite app_nil_r. repeat split; assumption.
Qed.

Lemma dual_ma_run_invariant feed : forall s w pre,
  DualMovingAverage.consistent s ->
  DualMovingAverage.price_history s
  = RollingBuffer.most_recent DualMovingAverage.SLOW_WINDOW pre ->
  exists s',
    fst (DualMovingAverage.run s feed w) = Some s'
    /\ DualMovingAverage.consistent s'
    /\ DualMovingAverage.price_history s'
       = RollingBuffer.most_recent DualMovingAverage.SLOW_WINDOW (pre ++ fetched feed).
Proof.
  induction feed as [|f feed IH]; intros s w pre Hc Hh.
  - exists s. cbn. rewrite app_nil_r. auto.
  - cbn [DualMovingAverage.run]. unfold bind.
    destruct (dual_ma_tick_invariant s f w pre Hc Hh) as (s1 & H1 & Hc1 & Hh1).
    destruct (DualMovingAverage.tick s f w) as [o w1]. cbn [fst] in H1. subst o.
    destruct (IH s1 w1 _ Hc1 Hh1) as (s' & H' & Hc' & Hh').
    exists s'. split; [exact H'|]. split; [exact Hc'|].
    change (f :: feed) with ([f] ++ feed).
    rewrite Hh', fetched_app, <- app_assoc. reflexivity.
Qed.

(** X1.  Whatever the feed (prices and failed fetches) and whatever the
    outcomes of the orders, the loop of the crossover bot raises no
    exception; the position is 0 with no entry price or 1 or -1 with an entry
    price; and the price history is exactly the last [SLOW_WINDOW] prices
    fetched, so it never holds more than [SLOW_WINDOW] values. *)
Theorem dual_ma_run_is_safe :
  forall (feed : list (option Q)) (outcomes : nat -> bool),
    exists s',
      fst (DualMovingAverage.run DualMovingAverage.init feed (mkWorld outcomes []))
      = Some s'
      /\ DualMovingAverage.consistent s'
      /\ DualMovingAverage.price_history s'
         = RollingBuffer.most_recent DualMovingAverage.SLOW_WINDOW (fetched feed)
      /\ (length (DualMovingAverage.price_history s')
          <= DualMovingAverage.SLOW_WINDOW)%nat.
Proof.
  intros feed outcomes.
  destruct (dual_ma_run_invariant feed DualMovingAverage.init (mkWorld outcomes []) [])
    as (s' & Hrun & Hc & Hh).
  - left. split; reflexivity.
  - reflexivity.
  - exists s'. cbn [app] in Hh.
    split; [exact Hrun|]. split; [exact Hc|]. split; [exact Hh|].
    rewrite Hh. apply most_recent_length.
Qed.

Lemma dual_ma_warm_up feed : forall s w,
  (length (DualMovingAverage.price_history s) + length (fetched feed)
   < DualMovingAverage.SLOW_WINDOW)%nat ->
  DualMovingAverage.run s feed w
  = (Some (DualMovingAverage.mkState
             (DualMovingAverage.price_history s ++ fetched feed)
             (DualMovingAverage.position s) (DualMovingAverage.entry_price s)
             (DualMovingAverage.cum_profit s)),
     w).
Proof.
  induction feed as [|[p|] feed IH]; intros s w Hlen.
  - cbn. rewrite app_nil_r. now destruct s.
  - cbn [fetched flat_map length app] in Hlen.
    change (length (flat_map _ feed)) with (length (fetched feed)) in Hlen.
    cbn [DualMovingAverage.run DualMovingAverage.tick]. unfold bind.
    unfold RollingBuffer.push_slice.
    assert (Hl : length (DualMovingAverage.price_history s ++ [p])
                 = S (length (DualMovingAverage.price_history s)))
      by apply length_snoc.
    destruct (Nat.ltb_spec DualMovingAverage.SLOW_WINDOW
                (length (DualMovingAverage.price_history s ++ [p]))); [lia|].
    destruct (Nat.ltb_spec (length (DualMovingAverage.price_history s ++ [p]))
                DualMovingAverage.SLOW_WINDOW); [|lia].
    cbn [ret]. rewrite IH.
    + cbn [DualMovingAverage.price_history DualMovingAverage.position
           DualMovingAverage.entry_price DualMovingAverage.cum_profit].
      rewrite <- app_assoc. reflexivity.
    + cbn [DualMovingAverage.price_history]. lia.
  - cbn [DualMovingAverage.run DualMovingAverage.tick]. unfold bind. cbn [ret].
    apply IH. exact Hlen.
Qed.

(** X2.  Warm-up of the crossover bot: as long as fewer than [SLOW_WINDOW]
    prices have been fetched, the bot only records them; no order is
    submitted and the position stays 0. *)
Theorem dual_ma_no_order_during_warm_up :
  forall (feed : list (option Q)) (w : World),
    (length (fetched feed) < DualMovingAverage.SLOW_WINDOW)%nat ->
    DualMovingAverage.run DualMovingAverage.init feed w
    = (Some (DualMovingAverage.mkState (fetched feed) 0 None 0), w).
Proof.
  intros feed w Hlen.
  now rewrite dual_ma_warm_up by (cbn [DualMovingAverage.init
    DualMovingAverage.price_history length]; lia).
Qed.

Lemma dual_ma_no_order_during_warm_up_witness :
  DualMovingAverage.run DualMovingAverage.init [Some 100; None; Some 101]
    (world_of [true])
  = (Some (DualMovingAverage.mkState [100; 101] 0 None 0), world_of [true]).
Proof.
  apply (dual_ma_no_order_during_warm_up [Some 100; None; Some 101] (world_of [true])).
  cbn. unfold DualMovingAverage.SLOW_WINDOW. lia.
Defined.

(** When every order is accepted, a call of the trading logic leaves the
    bot in the market and in step with the lots booked at the API. *)
Lemma dual_ma_trade_accepted s fast_ma slow_ma p w :
  DualMovingAverage.consistent s ->
  (forall k, exchange w k = true) ->
  net_position (journal w) = DualMovingAverage.position s ->
  exists s',
    fst (DualMovingAverage.trade s fast_ma slow_ma p w) = Some s'
    /\ (forall k, exchange (snd (DualMovingAverage.trade s fast_ma slow_ma p w)) k
                  = true)
    /\ net_position (journal (snd (DualMovingAverage.trade s fast_ma slow_ma p w)))
       = DualMovingAverage.position s'
    /\ DualMovingAverage.position s' <> 0%Z.
Proof.
  intros Hc Hx Hn. destruct s as [h pos e c].
  unfold DualMovingAverage.consistent in *. cbn in Hc, Hn.
  unfold DualMovingAverage.trade, DualMovingAverage.send_trade_order.
  cbn [DualMovingAverage.position DualMovingAverage.entry_price
       DualMovingAverage.price_history DualMovingAverage.cum_profit].
  destruct Hc as [[-> ->] | [[-> | ->] [e0 ->]]]; cbn [Z.eqb Pos.eqb];
    destruct (Qgtb fast_ma slow_ma);
    try (eexists; cbn; repeat split; auto; lia);
    step_order; rewrite Hx; cbn [need]; rewrite ?bind_ret; try step_order;
    rewrite ?Hx; eexists; cbn [ret fst snd exchange journal];
    (split; [reflexivity|]); (split; [exact Hx|]);
    rewrite ?net_position_snoc; cbn; split; lia.
Qed.

Lemma most_recent_exact_length {A} (N : nat) (xs : list A) :
  length (RollingBuffer.most_recent N xs) = Nat.min N (length xs).
Proof. unfold RollingBuffer.most_recent. rewrite length_skipn. lia. Qed.

Lemma dual_ma_run_accepted feed : forall s w pre,
  DualMovingAverage.consistent s ->
  (forall k, exchange w k = true) ->
  net_position (journal w) = DualMovingAverage.position s ->
  DualMovingAverage.price_history s
  = RollingBuffer.most_recent DualMovingAverage.SLOW_WINDOW pre ->
  ((DualMovingAverage.SLOW_WINDOW <= length pre)%nat ->
   DualMovingAverage.position s <> 0%Z) ->
  exists s',
    fst (DualMovingAverage.run s feed w) = Some s'
    /\ net_position (journal (snd (DualMovingAverage.run s feed w)))
       = DualMovingAverage.position s'
    /\ ((DualMovingAverage.SLOW_WINDOW <= length (pre ++ fetched feed))%nat ->
        DualMovingAverage.position s' <> 0%Z).
Proof.
  induction feed as [|[p|] feed IH]; intros s w pre Hc Hx Hn Hh Hin.
  - exists s. cbn. rewrite app_nil_r. auto.
  - cbn [DualMovingAverage.run DualMovingAverage.tick]. unfold bind.
    rewrite Hh, push_slice_recent, most_recent_snoc
      by (unfold DualMovingAverage.SLOW_WINDOW; lia).
    set (h := RollingBuffer.most_recent _ (pre ++ [p])).
    set (s1 := DualMovingAverage.mkState h _ _ _).
    assert (Hc1 : DualMovingAverage.consistent s1) by exact Hc.
    assert (Hlen : length h
                   = Nat.min DualMovingAverage.SLOW_WINDOW (length (pre ++ [p])))
      by apply most_recent_exact_length.
    change (Some p :: feed) with ([Some p] ++ feed).
    rewrite fetched_app, app_assoc. cbn [fetched flat_map app].
    destruct (Nat.ltb_spec (length h) DualMovingAverage.SLOW_WINDOW) as [Hlt | Hge].
    + cbn [ret].
      apply (IH s1 w (pre ++ [p]));
        [exact Hc1 | exact Hx | exact Hn | reflexivity | intros Hfull; lia].
    + destruct (dual_ma_trade_accepted s1
                  (DualMovingAverage.mean
                     (Py.slice_last DualMovingAverage.FAST_WINDOW h))
                  (DualMovingAverage.mean h) p w Hc1 Hx Hn)
        as (s2 & H1 & Hx2 & Hn2 & Hpos2).
      destruct (dual_ma_trade_consistent s1
                  (DualMovingAverage.mean
                     (Py.slice_last DualMovingAverage.FAST_WINDOW h))
                  (DualMovingAverage.mean h) p w Hc1)
        as (s2' & H1' & Hc2 & Hh2).
      rewrite H1 in H1'. injection H1' as <-.
      destruct (DualMovingAverage.trade s1 _ _ p w) as [o w2].
      cbn [fst snd] in *. subst o.
      apply (IH s2 w2 (pre ++ [p]));
        [exact Hc2 | exact Hx2 | exact Hn2 | exact Hh2 | intros _; exact Hpos2].
  - cbn [DualMovingAverage.run DualMovingAverage.tick]. unfold bind. cbn [ret].
    apply (IH s w pre); assumption.
Qed.

(** X3.  When the trade API accepts every order, the position kept by the
    crossover bot always equals the lots booked at the API (executed buys
    minus executed sells), and once [SLOW_WINDOW] prices have been fetched
    the bot is never flat again: it is long or short at every later tick. *)
Theorem dual_ma_in_step_when_orders_accepted :
  forall feed : list (option Q),
    exists s',
      fst (DualMovingAverage.run DualMovingAverage.init feed accepting_world)
      = Some s'
      /\ net_position
           (journal (snd (DualMovingAverage.run DualMovingAverage.init feed
                            accepting_world)))
         = DualMovingAverage.position s'
      /\ ((DualMovingAverage.SLOW_WINDOW <= length (fetched feed))%nat ->
          DualMovingAverage.position s' <> 0%Z).
Proof.
  intros feed.
  apply (dual_ma_run_accepted feed DualMovingAverage.init accepting_world []).
  - left. split; reflexivity.
  - reflexivity.
  - reflexivity.
  - reflexivity.
  - cbn. unfold DualMovingAverage.SLOW_WINDOW. lia.
Qed.

Lemma dual_ma_in_step_when_orders_accepted_witness :
  exists s',
    fst (DualMovingAverage.run DualMovingAverage.init (repeat (Some 100) 50)
           accepting_world) = Some s'
    /\ DualMovingAverage.position s' <> 0%Z.
Proof.
  destruct (dual_ma_in_step_when_orders_accepted (repeat (Some 100) 50))
    as (s' & Hrun & _ & Hpos).
  exists s'. split; [exact Hrun|]. apply Hpos. vm_compute. lia.
Defined.

(** ** The momentum bot over a whole run *)

Lemma momentum_trade_in_step s momentum p w :
  momentum_bot.consistent s ->
  exists s',
    fst (momentum_bot.trade s momentum p w) = Some s'
    /\ momentum_bot.consistent s'
    /\ momentum_bot.price_history s' = momentum_bot.price_history s
    /\ (net_position (journal (snd (momentum_bot.trade s momentum p w)))
        - momentum_bot.position s')%Z
       = (net_position (journal w) - momentum_bot.position s)%Z.
Proof.
  intros Hc. destruct s as [h pos e c].
  unfold momentum_bot.consistent in *. cbn in Hc.
  unfold momentum_bot.trade, momentum_bot.send_trade_order.
  cbn [momentum_bot.position momentum_bot.entry_price
       momentum_bot.price_history momentum_bot.profit].
  destruct Hc as [[-> ->] | [[-> | ->] [e0 ->]]]; cbn [Z.eqb Pos.eqb andb].
  - destruct (Qgtb momentum momentum_bot.THRESHOLD);
      [|destruct (Qltb momentum (- momentum_bot.THRESHOLD))];
      try (eexists; cbn; repeat split; auto; fail);
      step_order; destruct (exchange w (length (journal w)));
      eexists; cbn [ret fst snd journal]; (split; [reflexivity|]);
      unfold momentum_bot.consistent; cbn; rewrite net_position_snoc; cbn;
      repeat split; eauto 6; lia.
  - destruct (Qltb momentum 0);
      [|eexists; cbn; repeat split; eauto 6; fail].
    step_order; destruct (exchange w (length (journal w)));
      eexists; cbn [ret fst snd journal need bind]; (split; [reflexivity|]);
      unfold momentum_bot.consistent; cbn; rewrite net_position_snoc; cbn;
      repeat split; eauto 6; lia.
  - destruct (Qgtb momentum 0);
      [|eexists; cbn; repeat split; eauto 6; fail].
    step_order; destruct (exchange w (length (journal w)));
      eexists; cbn [ret fst snd journal need bind]; (split; [reflexivity|]);
      unfold momentum_bot.consistent; cbn; rewrite net_position_snoc; cbn;
      repeat split; eauto 6; lia.
Qed.

Lemma momentum_evaluate_in_step s w :
  momentum_bot.consistent s ->
  exists s',
    fst (momentum_bot.evaluate_trading_signal s w) = Some s'
    /\ momentum_bot.consistent s'
    /\ momentum_bot.price_history s' = momentum_bot.price_history s
    /\ (net_position (journal (snd (momentum_bot.evaluate_trading_signal s w)))
        - momentum_bot.position s')%Z
       = (net_position (journal w) - momentum_bot.position s)%Z.
Proof.
  intros Hc. unfold momentum_bot.evaluate_trading_signal.
  destruct (Nat.ltb_spec (length (momentum_bot.price_history s))
              momentum_bot.MOMENTUM_PERIOD) as [Hlt | Hge].
  - exists s. cbn. auto.
  - unfold momentum_bot.MOMENTUM_PERIOD in Hge.
    destruct (nth_error (momentum_bot.price_history s)
                (length (momentum_bot.price_history s) - 1)) as [cur|] eqn:Ecur;
      [|apply nth_error_None in Ecur; lia].
    destruct (nth_error (momentum_bot.price_history s)
                (length (momentum_bot.price_history s)
                 - momentum_bot.MOMENTUM_PERIOD)) as [past|] eqn:Epast;
      [|apply nth_error_None in Epast; unfold momentum_bot.MOMENTUM_PERIOD in Epast;
        lia].
    cbn [need]. rewrite !bind_ret.
    now apply momentum_trade_in_step.
Qed.

Lemma momentum_run_in_step feed : forall s w,
  momentum_bot.consistent s ->
  (length (momentum_bot.price_history s) <= 100)%nat ->
  exists s',
    fst (momentum_bot.run s feed w) = Some s'
    /\ momentum_bot.consistent s'
    /\ (length (momentum_bot.price_history s') <= 100)%nat
    /\ (net_position (journal (snd (momentum_bot.run s feed w)))
        - momentum_bot.position s')%Z
       = (net_position (journal w) - momentum_bot.position s)%Z.
Proof.
  induction feed as [|[[now p]|] feed IH]; intros s w Hc Hlen.
  - exists s. cbn. auto.
  - cbn [momentum_bot.run momentum_bot.tick]. unfold bind.
    set (s1 := momentum_bot.mkState _ _ _ _).
    assert (Hc1 : momentum_bot.consistent s1) by exact Hc.
    assert (Hlen1 : (length (momentum_bot.price_history s1) <= 100)%nat).
    { subst s1. cbn [momentum_bot.price_history].
      rewrite push_slice_recent by lia. apply most_recent_length. }
    destruct (momentum_evaluate_in_step s1 w Hc1) as (s2 & H2 & Hc2 & Hh2 & Hn2).
    destruct (momentum_bot.evaluate_trading_signal s1 w) as [o w2].
    cbn [fst snd] in H2, Hn2. subst o.
    destruct (IH s2 w2 Hc2) as (s' & H' & Hc' & Hlen' & Hn'); [congruence|].
    exists s'. repeat split; try assumption.
    rewrite Hn', Hn2. reflexivity.
  - cbn [momentum_bot.run momentum_bot.tick]. unfold bind. cbn [ret].
    now apply IH.
Qed.


(** ** The reinforcement-learning bot: trading state *)

Lemma rl_execute_consistent s action p w :
  Reinforcement_bot.consistent s ->
  exists s',
    fst (Reinforcement_bot.execute_action s action p w) = Some s'
    /\ Reinforcement_bot.consistent s'.
Proof.
  intros Hc. destruct s as [pos e c].
  unfold Reinforcement_bot.consistent in *. cbn in Hc.
  unfold Reinforcement_bot.execute_action, Reinforcement_bot.send_trade_order.
  cbn [Reinforcement_bot.position Reinforcement_bot.entry_price
       Reinforcement_bot.cash].
  destruct (action =? 1)%Z; [|destruct (action =? 2)%Z];
    destruct Hc as [[-> ->] | [[-> | ->] [e0 ->]]]; cbn [Z.eqb Pos.eqb];
    try (eexists; split; [reflexivity|]; cbn; eauto 6; fail);
    step_order; destruct (exchange w (length (journal w)));
    cbn [need]; rewrite ?bind_ret;
    try (eexists; split; [reflexivity|]; cbn; eauto 6; fail);
    step_order; destruct (exchange w (S (length (journal w))));
    eexists; (split; [reflexivity|]); cbn; eauto 6.
Qed.

Lemma rl_execute_all_consistent steps : forall s w,
  Reinforcement_bot.consistent s ->
  exists s',
    fst (Reinforcement_bot.execute_all s steps w) = Some s'
    /\ Reinforcement_bot.consistent s'.
Proof.
  induction steps as [|[action p] steps IH]; intros s w Hc.
  - exists s. cbn. auto.
  - cbn [Reinforcement_bot.execute_all]. unfold bind.
    destruct (rl_execute_consistent s action p w Hc) as (s1 & H1 & Hc1).
    destruct (Reinforcement_bot.execute_action s action p w) as [o w1].
    cbn [fst] in H1. subst o. now apply IH.
Qed.

(** X5.  Whatever actions are chosen, at whatever prices, and whatever the
    outcomes of the orders, [execute_action] never raises (it never computes
    a profit from a missing entry price), and it keeps the position 0 with
    no entry price or 1 or -1 with an entry price, so [get_portfolio_value]
    is always defined. *)
Theorem rl_execute_all_is_safe :
  forall (steps : list (Z * Q)) (outcomes : nat -> bool) (p : Q),
    exists s' v,
      fst (Reinforcement_bot.execute_all Reinforcement_bot.init steps
             (mkWorld outcomes [])) = Some s'
      /\ Reinforcement_bot.consistent s'
      /\ Reinforcement_bot.get_portfolio_value s' p = Some v.
Proof.
  intros steps outcomes p.
  destruct (rl_execute_all_consistent steps Reinforcement_bot.init
              (mkWorld outcomes [])) as (s' & Hrun & Hc).
  { left. split; reflexivity. }
  destruct s' as [pos e c].
  assert (Hc' := Hc). unfold Reinforcement_bot.consistent in Hc'. cbn in Hc'.
  destruct Hc' as [[-> ->] | [[-> | ->] [e0 ->]]];
    eexists; eexists; (split; [exact Hrun|]); (split; [exact Hc|]); reflexivity.
Qed.

(** X6.  Executing an action does not change the portfolio value measured at
    the execution price: entering costs nothing, and an exit turns
    unrealised profit into cash.  This holds for every action, state and
    order outcome except a flip (Buy while short, Sell while long) whose
    exit order succeeds and whose enter order fails. *)
Theorem rl_action_preserves_portfolio_value :
  forall (s : Reinforcement_bot.State) (action : Z) (p : Q) (w : World),
    Reinforcement_bot.consistent s ->
    ~ (((action = 1%Z /\ Reinforcement_bot.position s = (-1)%Z)
        \/ (action = 2%Z /\ Reinforcement_bot.position s = 1%Z))
       /\ exchange w (length (journal w)) = true
       /\ exchange w (S (length (journal w))) = false) ->
    exists s' v v',
      fst (Reinforcement_bot.execute_action s action p w) = Some s'
      /\ Reinforcement_bot.get_portfolio_value s p = Some v
      /\ Reinforcement_bot.get_portfolio_value s' p = Some v'
      /\ v' == v.
Proof.
  intros s action p w Hc Hx. destruct s as [pos e c].
  unfold Reinforcement_bot.consistent in Hc. cbn in Hc, Hx.
  unfold Reinforcement_bot.execute_action, Reinforcement_bot.send_trade_order.
  cbn [Reinforcement_bot.position Reinforcement_bot.entry_price
       Reinforcement_bot.cash].
  destruct (Z.eqb_spec action 1) as [Ha1 | Ha1];
    [|destruct (Z.eqb_spec action 2) as [Ha2 | Ha2]];
    destruct Hc as [[-> ->] | [[-> | ->] [e0 ->]]]; cbn [Z.eqb Pos.eqb];
    try (do 3 eexists; repeat (split; [reflexivity|]); reflexivity);
    step_order; destruct (exchange w (length (journal w))) eqn:Hx1;
    cbn [need]; rewrite ?bind_ret;
    try (do 3 eexists; repeat (split; [reflexivity|]); cbn; ring);
    step_order; destruct (exchange w (S (length (journal w)))) eqn:Hx2;
    try (exfalso; apply Hx; intuition congruence);
    do 3 eexists; repeat (split; [reflexivity|]); cbn; ring.
Qed.

Lemma rl_action_preserves_portfolio_value_witness :
  exists s' v v',
    fst (Reinforcement_bot.execute_action
           (Reinforcement_bot.mkState (-1) (Some 100) 10000) 1 90
           (world_of [true; true])) = Some s'
    /\ Reinforcement_bot.get_portfolio_value
         (Reinforcement_bot.mkState (-1) (Some 100) 10000) 90 = Some v
    /\ Reinforcement_bot.get_portfolio_value s' 90 = Some v'
    /\ v' == v.
Proof.
  apply (rl_action_preserves_portfolio_value
           (Reinforcement_bot.mkState (-1) (Some 100) 10000) 1 90
           (world_of [true; true])).
  - right. split; [right; reflexivity | cbn; eauto].
  - cbn. intros (_ & _ & H). discriminate H.
Defined.

(** The exception: after the half-completed flip of the first part the
    portfolio value at the execution price has moved from 10010 to 10020. *)
Example rl_half_flip_changes_portfolio_value :
  Reinforcement_bot.get_portfolio_value
    (Reinforcement_bot.mkState (-1) (Some 100) 10000) 90 = Some 10010
  /\ option_map (fun s' => Reinforcement_bot.get_portfolio_value s' 90)
       (fst (Reinforcement_bot.execute_action
               (Reinforcement_bot.mkState (-1) (Some 100) 10000) 1 90
               (world_of [true; false])))
     = Some (Some 10020).
Proof. split; reflexivity. Qed.

(** ** The reinforcement-learning bot: state label and policy *)

(** Twenty prices of 0 make the moving average 0 and the division by it
    raises. *)
Example get_state_zero_average :
  Reinforcement_bot.get_state (repeat 0 20) 0 0 = None.
Proof. reflexivity. Qed.

Lemma fresh_row_lookup a :
  (0 <= a <= 2)%Z -> Reinforcement_bot.fresh_row !! a = Some 0.
Proof.
  intros Ha. assert (a = 0 \/ a = 1 \/ a = 2)%Z as [-> | [-> | ->]] by lia;
    reflexivity.
Qed.

Lemma initialize_lookup_same (state : Z * string)
    (Q_table : gmap (Z * string) (gmap Z Q)) :
  is_Some (Reinforcement_bot.initialize_state_if_needed state Q_table !! state).
Proof.
  unfold Reinforcement_bot.initialize_state_if_needed.
  destruct (Q_table !! state) eqn:E; [rewrite E; eauto|].
  rewrite lookup_insert_eq. eauto.
Qed.

Lemma initialize_keeps_rows (state state' : Z * string)
    (Q_table : gmap (Z * string) (gmap Z Q)) (row : gmap Z Q) :
  Q_table !! state' = Some row ->
  Reinforcement_bot.initialize_state_if_needed state Q_table !! state' = Some row.
Proof.
  intros H. unfold Reinforcement_bot.initialize_state_if_needed.
  destruct (Q_table !! state) eqn:E; [exact H|].
  rewrite lookup_insert_ne; [exact H | congruence].
Qed.

Lemma initialize_rows_complete (state : Z * string)
    (Q_table : gmap (Z * string) (gmap Z Q)) :
  Reinforcement_bot.rows_complete Q_table ->
  Reinforcement_bot.rows_complete
    (Reinforcement_bot.initialize_state_if_needed state Q_table).
Proof.
  intros Hc st row Hrow a Ha.
  unfold Reinforcement_bot.initialize_state_if_needed in Hrow.
  destruct (Q_table !! state) eqn:E; [now apply (Hc st row)|].
  destruct (decide (state = st)) as [-> | Hne].
  - rewrite lookup_insert_eq in Hrow. injection Hrow as <-.
    rewrite fresh_row_lookup by exact Ha. eauto.
  - rewrite lookup_insert_ne in Hrow by exact Hne. now apply (Hc st row).
Qed.

Lemma max_values_complete (row : gmap Z Q) :
  is_Some (row !! 0%Z) -> is_Some (Reinforcement_bot.max_values row).
Proof.
  intros [v Hv]. unfold Reinforcement_bot.max_values.
  destruct (map_to_list row) as [|[k x] l] eqn:E.
  - apply map_to_list_empty_iff in E. subst row. rewrite lookup_empty in Hv.
    discriminate.
  - cbn. eauto.
Qed.

(** One update of a table whose rows hold the three actions. *)
Lemma update_Q_total (Q_table : gmap (Z * string) (gmap Z Q))
    (state next_state : Z * string) (action : Z) (reward : Q) :
  Reinforcement_bot.rows_complete Q_table ->
  (0 <= action <= 2)%Z ->
  exists Q_table',
    Reinforcement_bot.update_Q state action reward next_state Q_table
    = Some Q_table'
    /\ Reinforcement_bot.rows_complete Q_table'
    /\ is_Some (Q_table' !! state)
    /\ is_Some (Q_table' !! next_state).
Proof.
  revert Q_table state next_state action reward.
  intros tbl st st' a R Hc Ha.
  unfold Reinforcement_bot.update_Q.
  set (t1 := Reinforcement_bot.initialize_state_if_needed st tbl).
  set (t2 := Reinforcement_bot.initialize_state_if_needed st' t1).
  assert (Hc2 : Reinforcement_bot.rows_complete t2)
    by now apply initialize_rows_complete, initialize_rows_complete.
  destruct (initialize_lookup_same st' t1) as [row' Hrow']. fold t2 in Hrow'.
  destruct (initialize_lookup_same st tbl) as [row Hrow]. fold t1 in Hrow.
  apply (initialize_keeps_rows st') in Hrow. fold t2 in Hrow.
  destruct (max_values_complete row') as [m Hm];
    [apply (Hc2 st' row' Hrow'); lia|].
  destruct (Hc2 st row Hrow a Ha) as [v Hv].
  unfold mbind, option_bind. rewrite Hrow', Hm, Hrow, Hv.
  eexists. split; [reflexivity|]. split; [|split].
  - intros s0 r0 Hr0 a0 Ha0.
    destruct (decide (st = s0)) as [<- | Hne].
    + rewrite lookup_insert_eq in Hr0. injection Hr0 as <-.
      destruct (decide (a = a0)) as [<- | Hna].
      * rewrite lookup_insert_eq. eauto.
      * rewrite lookup_insert_ne by exact Hna. now apply (Hc2 st row).
    + rewrite lookup_insert_ne in Hr0 by exact Hne. now apply (Hc2 s0 r0).
  - rewrite lookup_insert_eq. eauto.
  - destruct (decide (st = st')) as [<- | Hne].
    + rewrite lookup_insert_eq. eauto.
    + rewrite lookup_insert_ne by exact Hne. eauto.
Qed.

Lemma update_all_total steps : forall Q_table : gmap (Z * string) (gmap Z Q),
  Reinforcement_bot.rows_complete Q_table ->
  Forall (fun step => (0 <= snd (fst (fst step)) <= 2)%Z) steps ->
  exists Q_table',
    Reinforcement_bot.update_all steps Q_table = Some Q_table'
    /\ Reinforcement_bot.rows_complete Q_table'.
Proof.
  induction steps as [|[[[st a] R] st'] steps IH]; intros tbl Hc Hall.
  - exists tbl. split; [reflexivity | exact Hc].
  - inversion Hall as [|? ? Ha Hall']; subst. cbn in Ha.
    cbn [Reinforcement_bot.update_all].
    destruct (update_Q_total tbl st st' a R Hc Ha) as (t1 & H1 & Hc1 & _).
    rewrite H1. now apply IH.
Qed.

(** X8.  Starting from the empty table, any sequence of calls of [update_Q]
    whose actions are among 0, 1, 2 goes through: no call raises a
    [KeyError] (or a [ValueError] from the maximum over an empty row), and
    every row of the resulting table holds the three actions. *)
Theorem update_Q_never_fails :
  forall steps : list ((Z * string) * Z * Q * (Z * string)),
    Forall (fun step => (0 <= snd (fst (fst step)) <= 2)%Z) steps ->
    exists Q_table',
      Reinforcement_bot.update_all steps ∅ = Some Q_table'
      /\ Reinforcement_bot.rows_complete Q_table'.
Proof.
  intros steps Hall. apply update_all_total; [|exact Hall].
  intros st row H. rewrite lookup_empty in H. discriminate.
Qed.

Lemma update_Q_never_fails_witness :
  exists Q_table',
    Reinforcement_bot.update_all
      [((0%Z, "neutral"%string), 1%Z, 1, (1%Z, "up"%string));
       ((1%Z, "up"%string), 2%Z, -3, ((-1)%Z, "down"%string))] ∅
    = Some Q_table'
    /\ Reinforcement_bot.rows_complete Q_table'.
Proof.
  apply (update_Q_never_fails
           [((0%Z, "neutral"%string), 1%Z, 1, (1%Z, "up"%string));
            ((1%Z, "up"%string), 2%Z, -3, ((-1)%Z, "down"%string))]).
  repeat constructor; cbn; lia.
Defined.

(** X9.  [update_Q] writes one entry only: after the update every other
    (state, action) entry reads as it did after the two initialisations, so
    learned values of other states and other actions are never overwritten;
    and a row that existed before is never reset by the initialisation. *)
Theorem update_Q_changes_one_entry :
  forall (Q_table Q_table' : gmap (Z * string) (gmap Z Q))
         (state next_state : Z * string) (action : Z) (reward : Q),
    Reinforcement_bot.update_Q state action reward next_state Q_table
    = Some Q_table' ->
    (forall state2 action2,
        (state2, action2) <> (state, action) ->
        Reinforcement_bot.q_value Q_table' state2 action2
        = Reinforcement_bot.q_value
            (Reinforcement_bot.initialize_state_if_needed next_state
               (Reinforcement_bot.initialize_state_if_needed state Q_table))
            state2 action2)
    /\ (forall state2 row,
           Q_table !! state2 = Some row ->
           Reinforcement_bot.initialize_state_if_needed next_state
             (Reinforcement_bot.initialize_state_if_needed state Q_table) !! state2
           = Some row).
Proof.
  intros tbl tbl' st st' a R Hup. split.
  - intros s2 a2 Hne.
    unfold Reinforcement_bot.update_Q in Hup.
    set (t2 := Reinforcement_bot.initialize_state_if_needed st' _) in *.
    unfold mbind, option_bind in Hup.
    destruct (t2 !! st') as [row'|] eqn:Hrow'; [|discriminate].
    destruct (Reinforcement_bot.max_values row') as [m|]; [|discriminate].
    destruct (t2 !! st) as [row|] eqn:Hrow; [|discriminate].
    destruct (row !! a) as [v|] eqn:Hv; [|discriminate].
    injection Hup as <-.
    unfold Reinforcement_bot.q_value, mbind, option_bind.
    destruct (decide (st = s2)) as [<- | Hs].
    + rewrite lookup_insert_eq, Hrow.
      rewrite lookup_insert_ne by congruence. reflexivity.
    + rewrite lookup_insert_ne by exact Hs. reflexivity.
  - intros s2 row Hrow. now apply initialize_keeps_rows, initialize_keeps_rows.
Qed.

Lemma update_Q_changes_one_entry_witness :
  exists t,
    Reinforcement_bot.update_Q (0%Z, "neutral"%string) 1 1 (0%Z, "neutral"%string) ∅
    = Some t
    /\ Reinforcement_bot.q_value t (0%Z, "neutral"%string) 2 = Some 0.
Proof.
  destruct (update_Q_total ∅ (0%Z, "neutral"%string) (0%Z, "neutral"%string) 1 1)
    as (t & Ht & _).
  { intros st row H. rewrite lookup_empty in H. discriminate. }
  { lia. }
  exists t. split; [exact Ht|].
  destruct (update_Q_changes_one_entry ∅ t (0%Z, "neutral"%string)
              (0%Z, "neutral"%string) 1 1 Ht) as [Hframe _].
  rewrite Hframe by (intros E; discriminate E). vm_compute. reflexivity.
Defined.

(** X10.  When it does not explore (the draw is not below [epsilon]),
    [choose_action] returns an action among 0, 1, 2 whose stored value is
    not exceeded by the value of any action, and every action with a smaller
    number has a strictly smaller value: ties go to the first action.  The
    table it leaves is the given one with the state initialised. *)
Theorem choose_action_is_greedy :
  forall (Q_table : gmap (Z * string) (gmap Z Q)) (state : Z * string)
         (u : Q) (pick : Z),
    Reinforcement_bot.rows_complete Q_table ->
    Reinforcement_bot.epsilon <= u ->
    exists a row v,
      Reinforcement_bot.choose_action state u pick Q_table
      = Some (a, Reinforcement_bot.initialize_state_if_needed state Q_table)
      /\ Reinforcement_bot.initialize_state_if_needed state Q_table !! state
         = Some row
      /\ row !! a = Some v
      /\ (0 <= a <= 2)%Z
      /\ (forall a' v',
             (0 <= a' <= 2)%Z -> row !! a' = Some v' ->
             v' <= v /\ ((a' < a)%Z -> v' < v)).
Proof.
  intros tbl st u pick Hc Hu.
  unfold Reinforcement_bot.choose_action.
  apply Qltb_ge in Hu. rewrite Hu.
  set (t1 := Reinforcement_bot.initialize_state_if_needed st tbl).
  assert (Hc1 : Reinforcement_bot.rows_complete t1)
    by now apply initialize_rows_complete.
  destruct (initialize_lookup_same st tbl) as [row Hrow]. fold t1 in Hrow.
  destruct (Hc1 st row Hrow 0%Z ltac:(lia)) as [v0 H0].
  destruct (Hc1 st row Hrow 1%Z ltac:(lia)) as [v1 H1].
  destruct (Hc1 st row Hrow 2%Z ltac:(lia)) as [v2 H2].
  unfold mbind, option_bind. rewrite Hrow.
  unfold Reinforcement_bot.row_items. cbn [flat_map]. rewrite H0, H1, H2.
  cbn [app Reinforcement_bot.first_max fold_left fst snd].
  assert (Hcases : forall a' v', (0 <= a' <= 2)%Z -> row !! a' = Some v' ->
            (a' = 0%Z /\ v' = v0) \/ (a' = 1%Z /\ v' = v1) \/ (a' = 2%Z /\ v' = v2)).
  { intros a' v' Ha' Hv'.
    assert (a' = 0 \/ a' = 1 \/ a' = 2)%Z as [-> | [-> | ->]] by lia;
      [left | right; left | right; right]; split; congruence. }
  destruct (Qltb v0 v1) eqn:E01; cbn [snd].
  - apply Qltb_lt in E01. destruct (Qltb v1 v2) eqn:E12; cbn [fst].
    + apply Qltb_lt in E12. exists 2%Z, row, v2.
      repeat (split; [first [reflexivity | assumption | lia]|]).
      intros a' v' Ha' Hv'.
      destruct (Hcases a' v' Ha' Hv') as [[-> ->] | [[-> ->] | [-> ->]]];
        split; intros; try lra; lia.
    + apply Qltb_ge in E12. exists 1%Z, row, v1.
      repeat (split; [first [reflexivity | assumption | lia]|]).
      intros a' v' Ha' Hv'.
      destruct (Hcases a' v' Ha' Hv') as [[-> ->] | [[-> ->] | [-> ->]]];
        split; intros; try lra; lia.
  - apply Qltb_ge in E01. destruct (Qltb v0 v2) eqn:E02; cbn [fst].
    + apply Qltb_lt in E02. exists 2%Z, row, v2.
      repeat (split; [first [reflexivity | assumption | lia]|]).
      intros a' v' Ha' Hv'.
      destruct (Hcases a' v' Ha' Hv') as [[-> ->] | [[-> ->] | [-> ->]]];
        split; intros; try lra; lia.
    + apply Qltb_ge in E02. exists 0%Z, row, v0.
      repeat (split; [first [reflexivity | assumption | lia]|]).
      intros a' v' Ha' Hv'.
      destruct (Hcases a' v' Ha' Hv') as [[-> ->] | [[-> ->] | [-> ->]]];
        split; intros; try lra; lia.
Qed.

Lemma choose_action_is_greedy_witness :
  exists a row v,
    Reinforcement_bot.choose_action (0%Z, "neutral"%string) (1 # 2) 2 ∅
    = Some (a, Reinforcement_bot.initialize_state_if_needed
                 (0%Z, "neutral"%string) ∅)
    /\ Reinforcement_bot.initialize_state_if_needed (0%Z, "neutral"%string) ∅
       !! (0%Z, "neutral"%string) = Some row
    /\ row !! a = Some v
    /\ (0 <= a <= 2)%Z.
Proof.
  destruct (choose_action_is_greedy ∅ (0%Z, "neutral"%string) (1 # 2) 2)
    as (a & row & v & H1 & H2 & H3 & H4 & _).
  - intros st row H. rewrite lookup_empty in H. discriminate.
  - unfold Qle. cbn. lia.
  - exists a, row, v. repeat split; try assumption; lia.
Defined.

(** On a state never seen before the three values are 0 and the greedy
    choice is 0 (Hold). *)
Example choose_action_unseen_state :
  option_map fst
    (Reinforcement_bot.choose_action (0%Z, "neutral"%string) (1 # 2) 2 ∅)
  = Some 0%Z.
Proof. vm_compute. reflexivity. Qed.

(** ** The RSI: range and special series *)

Lemma Forall_firstn_of {A} (P : A -> Prop) n (l : list A) :
  Forall P l -> Forall P (firstn n l).
Proof.
  revert l. induction n as [|n IH]; intros l H; [constructor|].
  destruct H; cbn; constructor; auto.
Qed.

Lemma Qsum_from_nonneg xs a :
  Forall (fun q => 0 <= q) xs -> 0 <= a -> 0 <= fold_left Qplus xs a.
Proof.
  intros H. revert a.
  induction H as [|x xs Hx _ IH]; intros a Ha; cbn [fold_left]; [exact Ha|].
  apply IH. lra.
Qed.

Lemma Qdiv_nonneg a b : 0 <= a -> 0 <= b -> 0 <= a / b.
Proof.
  intros Ha Hb. unfold Qdiv. apply Qmult_le_0_compat; [exact Ha|].
  apply Qinv_le_0_compat. exact Hb.
Qed.

Lemma zip_with_length {A B C} (f : A -> B -> C) xs ys :
  length (rsi_strategy.zip_with f xs ys) = Nat.min (length xs) (length ys).
Proof.
  revert ys. induction xs as [|x xs IH]; intros [|y ys]; cbn; auto.
Qed.

Lemma zip_with_Forall {A B C} (f : A -> B -> C) (PA : A -> Prop) (PB : B -> Prop)
    (P : C -> Prop) xs ys :
  (forall x y, PA x -> PB y -> P (f x y)) ->
  Forall PA xs -> Forall PB ys -> Forall P (rsi_strategy.zip_with f xs ys).
Proof.
  intros Hf Hxs. revert ys.
  induction Hxs as [|x xs Hx _ IH]; intros ys Hys; [constructor|].
  destruct Hys as [|y ys Hy Hys]; cbn; constructor; auto.
Qed.

Lemma present_nonneg w :
  Forall rsi_strategy.nonneg_entry w ->
  Forall (fun q => 0 <= q) (rsi_strategy.present w).
Proof.
  induction 1 as [|d w Hd _ IH]; cbn; [constructor|].
  destruct d as [q|]; cbn; [|exact IH].
  constructor; [now apply Hd | exact IH].
Qed.

Lemma window_mean_nonneg window min_periods prefix :
  Forall rsi_strategy.nonneg_entry prefix ->
  rsi_strategy.nonneg_entry (rsi_strategy.window_mean window min_periods prefix).
Proof.
  intros H q. unfold rsi_strategy.window_mean.
  destruct (min_periods <=? _)%nat; [|discriminate].
  intros [= <-]. apply Qdiv_nonneg; [|apply Qof_nat_nonneg].
  apply Qsum_from_nonneg; [|lra].
  apply present_nonneg. now apply RsiFacts.Forall_skipn_of.
Qed.

Lemma rolling_mean_nonneg period s :
  Forall rsi_strategy.nonneg_entry s ->
  Forall rsi_strategy.nonneg_entry (rsi_strategy.rolling_mean period s).
Proof.
  intros H. unfold rsi_strategy.rolling_mean.
  apply Forall_map, Forall_forall. intros i _.
  apply window_mean_nonneg. now apply Forall_firstn_of.
Qed.

Lemma gains_nonneg delta :
  Forall rsi_strategy.nonneg_entry (map rsi_strategy.clip_lower0 delta).
Proof.
  apply Forall_map, Forall_forall. intros [d|] _ q; [|discriminate].
  cbn. intros [= <-]. destruct (Qltb d 0) eqn:E; [lra|].
  now apply Qltb_ge in E.
Qed.

Lemma losses_nonneg delta :
  Forall rsi_strategy.nonneg_entry
    (map (fun d => option_map Qopp (rsi_strategy.clip_upper0 d)) delta).
Proof.
  apply Forall_map, Forall_forall. intros [d|] _ q; [|discriminate].
  cbn. intros [= <-]. destruct (Qgtb d 0) eqn:E; [lra|].
  apply Qgtb_le in E. lra.
Qed.

(** The RSI formula on the quotient of two averages that are not negative. *)
Lemma rsi_of_quotient_on_scale g l :
  rsi_strategy.nonneg_entry g -> rsi_strategy.nonneg_entry l ->
  rsi_strategy.on_rsi_scale
    (rsi_strategy.rsi_of_rs
       (rsi_strategy.fdiv (rsi_strategy.of_missing g) (rsi_strategy.of_missing l))).
Proof.
  intros Hg Hl. destruct g as [g|]; [|left; reflexivity].
  destruct l as [l|]; [|left; reflexivity].
  specialize (Hg g eq_refl). specialize (Hl l eq_refl).
  cbn [rsi_strategy.of_missing rsi_strategy.fdiv].
  destruct (Qeq_bool l 0) eqn:El.
  - destruct (Qeq_bool g 0) eqn:Eg; [left; reflexivity|].
    right. exists 100. rewrite RsiFacts.rsi_of_rs_inf.
    split; [reflexivity | split; lra].
  - assert (Hlpos : 0 < l).
    { apply not_true_iff_false in El. rewrite Qeq_bool_iff in El. lra. }
    assert (Hr : 0 <= g / l) by (apply Qdiv_nonneg; lra).
    unfold rsi_strategy.rsi_of_rs.
    cbn [rsi_strategy.fadd rsi_strategy.fdiv].
    assert (E1 : Qeq_bool (1 + g / l) 0 = false).
    { apply not_true_iff_false. rewrite Qeq_bool_iff. lra. }
    rewrite E1. cbn [rsi_strategy.fsub rsi_strategy.fneg rsi_strategy.fadd].
    right. eexists. split; [reflexivity|].
    assert (Hq : 0 <= 100 / (1 + g / l)) by (apply Qdiv_nonneg; lra).
    assert (Hq' : 100 / (1 + g / l) <= 100).
    { apply Qle_shift_div_r; lra. }
    split; lra.
Qed.

Lemma compute_RSI_length series period :
  length (rsi_strategy.compute_RSI series period) = length series.
Proof.
  unfold rsi_strategy.compute_RSI.
  rewrite length_map, zip_with_length, !RsiFacts.rolling_mean_length, !length_map,
    RsiFacts.diff_length. lia.
Qed.

(** X11.  For every price series and every period of at least 1, each value
    of the series returned by [compute_RSI] is NaN or a number between 0 and
    100: the computation never yields an infinity or a value off the scale,
    and the series returned has the length of the input. *)
Theorem rsi_stays_on_scale :
  forall (series : list Q) (period : nat),
    (1 <= period)%nat ->
    Forall rsi_strategy.on_rsi_scale (rsi_strategy.compute_RSI series period)
    /\ length (rsi_strategy.compute_RSI series period) = length series.
Proof.
  intros series period _. unfold rsi_strategy.compute_RSI. split.
  - apply Forall_map.
    apply (zip_with_Forall _ rsi_strategy.nonneg_entry rsi_strategy.nonneg_entry).
    + intros g l Hg Hl. now apply rsi_of_quotient_on_scale.
    + apply rolling_mean_nonneg, gains_nonneg.
    + apply rolling_mean_nonneg, losses_nonneg.
  - apply compute_RSI_length.
Qed.

Lemma rsi_stays_on_scale_witness :
  Forall rsi_strategy.on_rsi_scale (rsi_strategy.compute_RSI [3; 1; 4; 1; 5; 9; 2; 6] 3).
Proof.
  apply (rsi_stays_on_scale [3; 1; 4; 1; 5; 9; 2; 6] 3). lia.
Defined.

Lemma diff_from_decreasing prev xs :
  rsi_strategy.strictly_decreasing (prev :: xs) ->
  Forall rsi_strategy.loss_entry (rsi_strategy.diff_from prev xs).
Proof.
  revert prev. induction xs as [|x xs IH]; intros prev H; cbn [rsi_strategy.diff_from].
  - constructor.
  - destruct H as [Hlt H]. constructor.
    + exists (x - prev). split; [reflexivity | lra].
    + now apply IH.
Qed.

Lemma diff_from_constant c n :
  Forall rsi_strategy.flat_entry (rsi_strategy.diff_from c (repeat c n)).
Proof.
  induction n as [|n IH]; cbn; constructor; [|exact IH].
  exists (c - c). split; [reflexivity | ring].
Qed.

(** The last [period] differences of a series, given what holds of all its
    differences but the first, which is missing. *)
Lemma window_of_differences (P : option Q -> Prop) x xs period :
  Forall P (rsi_strategy.diff_from x xs) ->
  (period <= length xs)%nat ->
  Forall P (skipn (length (rsi_strategy.diff (x :: xs)) - period)
              (rsi_strategy.diff (x :: xs)))
  /\ length (skipn (length (rsi_strategy.diff (x :: xs)) - period)
               (rsi_strategy.diff (x :: xs))) = period.
Proof.
  intros H Hlen. split.
  - cbn [rsi_strategy.diff length]. rewrite RsiFacts.diff_from_length.
    replace (S (length xs) - period)%nat with (S (length xs - period)) by lia.
    cbn [skipn]. now apply RsiFacts.Forall_skipn_of.
  - rewrite length_skipn, RsiFacts.diff_length. cbn [length]. lia.
Qed.

Lemma present_of_losses_gain w :
  Forall rsi_strategy.loss_entry w ->
  Forall (fun q => q == 0) (rsi_strategy.present (map rsi_strategy.clip_lower0 w))
  /\ length (rsi_strategy.present (map rsi_strategy.clip_lower0 w)) = length w.
Proof.
  induction 1 as [|d w (q & -> & Hq) _ [IH1 IH2]]; cbn.
  - split; [constructor | reflexivity].
  - assert (E : Qltb q 0 = true) by now apply Qltb_lt.
    rewrite E. split; [constructor; [reflexivity | assumption] | now f_equal].
Qed.

Lemma present_of_losses_loss w :
  Forall rsi_strategy.loss_entry w ->
  Forall (fun q => 0 < q)
    (rsi_strategy.present
       (map (fun d => option_map Qopp (rsi_strategy.clip_upper0 d)) w))
  /\ length (rsi_strategy.present
               (map (fun d => option_map Qopp (rsi_strategy.clip_upper0 d)) w))
     = length w.
Proof.
  induction 1 as [|d w (q & -> & Hq) _ [IH1 IH2]]; cbn.
  - split; [constructor | reflexivity].
  - assert (E : Qgtb q 0 = false) by (apply Qgtb_le; lra).
    rewrite E. split; [constructor; [lra | assumption] | now f_equal].
Qed.

Lemma present_of_flat_gain w :
  Forall rsi_strategy.flat_entry w ->
  Forall (fun q => q == 0) (rsi_strategy.present (map rsi_strategy.clip_lower0 w))
  /\ length (rsi_strategy.present (map rsi_strategy.clip_lower0 w)) = length w.
Proof.
  induction 1 as [|d w (q & -> & Hq) _ [IH1 IH2]]; cbn.
  - split; [constructor | reflexivity].
  - split; [|now f_equal]. constructor; [|assumption].
    destruct (Qltb q 0); [reflexivity | exact Hq].
Qed.

Lemma present_of_flat_loss w :
  Forall rsi_strategy.flat_entry w ->
  Forall (fun q => q == 0)
    (rsi_strategy.present
       (map (fun d => option_map Qopp (rsi_strategy.clip_upper0 d)) w))
  /\ length (rsi_strategy.present
               (map (fun d => option_map Qopp (rsi_strategy.clip_upper0 d)) w))
     = length w.
Proof.
  induction 1 as [|d w (q & -> & Hq) _ [IH1 IH2]]; cbn.
  - split; [constructor | reflexivity].
  - split; [|now f_equal]. constructor; [|assumption].
    destruct (Qgtb q 0); [reflexivity | rewrite Hq; reflexivity].
Qed.

Lemma Qsum_zeros_mean xs n :
  Forall (fun q => q == 0) xs -> Qsum xs / Qof_nat n == 0.
Proof.
  intros H. unfold Qdiv, Qsum. rewrite (Qsum_from_zeros xs 0 H). apply Qmult_0_l.
Qed.

(** X12.  For every period of at least 1 and every strictly decreasing price
    series of at least period + 1 values, the RSI of the last bar is a
    number equal to 0: all losses and no gain. *)
Theorem rsi_of_decreasing_series_is_0 :
  forall (series : list Q) (period : nat),
    (1 <= period)%nat ->
    (period + 1 <= length series)%nat ->
    rsi_strategy.strictly_decreasing series ->
    exists q,
      Py.last_opt (rsi_strategy.compute_RSI series period)
      = Some (rsi_strategy.Num q)
      /\ q == 0.
Proof.
  intros series period Hp Hlen Hdec.
  destruct (exists_last (l := series)) as (pre & x & E).
  { intros ->. cbn in Hlen. lia. }
  rewrite E, RsiFacts.compute_RSI_last, <- E.
  destruct series as [|x0 xs]; [cbn in Hlen; lia|]. cbn [length] in Hlen.
  destruct (window_of_differences rsi_strategy.loss_entry x0 xs period)
    as [Hw Hwl]; [now apply diff_from_decreasing | lia|].
  unfold rsi_strategy.window_mean.
  rewrite !length_map, !skipn_map.
  destruct (present_of_losses_gain _ Hw) as [Hg Hgl].
  destruct (present_of_losses_loss _ Hw) as [Hl Hll].
  rewrite Hgl, Hll, Hwl, Nat.leb_refl. cbn [rsi_strategy.of_missing].
  set (g := rsi_strategy.present _) in *.
  set (l := rsi_strategy.present _) in Hl, Hll |- *.
  assert (Hgz : Qsum g / Qof_nat period == 0) by now apply Qsum_zeros_mean.
  assert (Hlpos : 0 < Qsum l / Qof_nat period).
  { apply Qlt_shift_div_l; [apply Qof_nat_pos; lia|].
    rewrite Qmult_0_l. apply Qsum_pos; [exact Hl|].
    intros Hnil. rewrite Hnil, Hwl in Hll. cbn [length] in Hll. lia. }
  set (ag := Qsum g / Qof_nat period) in *.
  set (al := Qsum l / Qof_nat period) in *.
  unfold rsi_strategy.rsi_of_rs. cbn [rsi_strategy.fdiv].
  assert (El : Qeq_bool al 0 = false).
  { apply not_true_iff_false. rewrite Qeq_bool_iff. lra. }
  rewrite El. cbn [rsi_strategy.fadd rsi_strategy.fdiv].
  assert (Hrs : ag / al == 0).
  { unfold Qdiv. rewrite Hgz. apply Qmult_0_l. }
  assert (E1 : Qeq_bool (1 + ag / al) 0 = false).
  { apply not_true_iff_false. rewrite Qeq_bool_iff, Hrs. lra. }
  rewrite E1. cbn [rsi_strategy.fsub rsi_strategy.fneg rsi_strategy.fadd].
  eexists. split; [reflexivity|].
  rewrite Hrs. field.
Qed.

Lemma rsi_of_decreasing_series_is_0_witness :
  exists q,
    Py.last_opt (rsi_strategy.compute_RSI [5; 4; 3; 2; 1] 3)
    = Some (rsi_strategy.Num q)
    /\ q == 0.
Proof.
  apply (rsi_of_decreasing_series_is_0 [5; 4; 3; 2; 1] 3).
  - lia.
  - cbn [length]. lia.
  - cbn. repeat split.
Defined.

Lemma rsi_of_constant_series c n period :
  (1 <= period)%nat ->
  (period + 1 <= n)%nat ->
  Py.last_opt (rsi_strategy.compute_RSI (repeat c n) period)
  = Some rsi_strategy.NaN.
Proof.
  intros Hp Hlen.
  destruct n as [|m]; [lia|].
  destruct (exists_last (l := repeat c (S m))) as (pre & x & E); [discriminate|].
  rewrite E, RsiFacts.compute_RSI_last, <- E. cbn [repeat].
  destruct (window_of_differences rsi_strategy.flat_entry c (repeat c m) period)
    as [Hw Hwl]; [apply diff_from_constant | rewrite repeat_length; lia|].
  unfold rsi_strategy.window_mean.
  rewrite !length_map, !skipn_map.
  destruct (present_of_flat_gain _ Hw) as [Hg Hgl].
  destruct (present_of_flat_loss _ Hw) as [Hl Hll].
  rewrite Hgl, Hll, Hwl, Nat.leb_refl. cbn [rsi_strategy.of_missing].
  pose proof (Qsum_zeros_mean _ period Hg) as Hgz.
  pose proof (Qsum_zeros_mean _ period Hl) as Hlz.
  apply Qeq_bool_iff in Hgz, Hlz.
  cbn [rsi_strategy.fdiv]. rewrite Hlz, Hgz. reflexivity.
Qed.

Lemma rsi_trade_on_nan s p w :
  rsi_strategy.trade s rsi_strategy.NaN p w = (Some s, w).
Proof.
  unfold rsi_strategy.trade. cbn [rsi_strategy.flt rsi_strategy.fgt].
  destruct (rsi_strategy.position s =? 0)%Z; [reflexivity|].
  now rewrite !andb_false_r.
Qed.

Lemma most_recent_repeat {A} (N : nat) (x : A) m :
  RollingBuffer.most_recent N (repeat x m) = repeat x (Nat.min m N).
Proof.
  unfold RollingBuffer.most_recent. rewrite repeat_length.
  replace m with ((m - N) + Nat.min m N)%nat at 2 by lia.
  rewrite repeat_app, skipn_app, repeat_length, Nat.sub_diag.
  rewrite skipn_all2 by (rewrite repeat_length; lia). reflexivity.
Qed.

Lemma rsi_run_on_constant_price c n : forall k pos e prof w,
  (k <= 15)%nat ->
  rsi_strategy.run
    (rsi_strategy.mkState (repeat (rsi_strategy.mkCandle c c c c) k) pos e prof)
    (repeat (Some c) n) w
  = (Some (rsi_strategy.mkState
             (repeat (rsi_strategy.mkCandle c c c c) (Nat.min (k + n) 15)) pos e prof),
     w).
Proof.
  induction n as [|n IH]; intros k pos e prof w Hk.
  - cbn [repeat rsi_strategy.run ret]. now rewrite Nat.add_0_r, Nat.min_l.
  - cbn [repeat rsi_strategy.run rsi_strategy.tick]. unfold bind.
    cbn [rsi_strategy.candles rsi_strategy.position rsi_strategy.entry_price
         rsi_strategy.profit].
    rewrite push_slice_recent by (unfold rsi_strategy.RSI_PERIOD; lia).
    replace (repeat (rsi_strategy.mkCandle c c c c) k
             ++ [rsi_strategy.mkCandle c c c c])
      with (repeat (rsi_strategy.mkCandle c c c c) (S k))
      by (cbn [repeat]; now rewrite repeat_cons).
    rewrite most_recent_repeat.
    change (rsi_strategy.RSI_PERIOD + 1)%nat with 15%nat.
    set (k1 := Nat.min (S k) 15).
    assert (Hev : forall w0,
      rsi_strategy.evaluate_RSI
        (rsi_strategy.mkState (repeat (rsi_strategy.mkCandle c c c c) k1) pos e prof) w0
      = (Some (rsi_strategy.mkState (repeat (rsi_strategy.mkCandle c c c c) k1)
                 pos e prof), w0)).
    { intros w0. unfold rsi_strategy.evaluate_RSI.
      cbn [rsi_strategy.candles]. rewrite repeat_length.
      change (rsi_strategy.RSI_PERIOD + 1)%nat with 15%nat.
      destruct (Nat.ltb_spec k1 15) as [Hlt | Hge]; [reflexivity|].
      assert (k1 = 15%nat) as -> by (subst k1; lia).
      rewrite map_repeat. cbn [rsi_strategy.c_close].
      rewrite rsi_of_constant_series
        by (unfold rsi_strategy.RSI_PERIOD; lia).
      cbn [need]. rewrite bind_ret.
      change (Py.last_opt (repeat (rsi_strategy.mkCandle c c c c) 15))
        with (Some (rsi_strategy.mkCandle c c c c)).
      cbn [need]. rewrite bind_ret. apply rsi_trade_on_nan. }
    rewrite Hev. rewrite IH by (subst k1; lia).
    replace (Nat.min (k1 + n) 15) with (Nat.min (k + S n) 15) by (subst k1; lia).
    reflexivity.
Qed.

(** X13.  On a constant price the RSI is NaN (no gain and no loss), every
    comparison of the bot with it is false, and the RSI bot never submits an
    order: after any number of ticks at one price the world is untouched and
    the bot is flat, holding the last 15 candles. *)
Theorem rsi_bot_idle_on_constant_price :
  forall (c : Q) (n : nat) (w : World),
    rsi_strategy.run rsi_strategy.init (repeat (Some c) n) w
    = (Some (rsi_strategy.mkState
               (repeat (rsi_strategy.mkCandle c c c c) (Nat.min n 15)) 0 None 0),
       w)
    /\ (forall period,
           (1 <= period)%nat -> (period + 1 <= n)%nat ->
           Py.last_opt (rsi_strategy.compute_RSI (repeat c n) period)
           = Some rsi_strategy.NaN).
Proof.
  intros c n w. split.
  - apply (rsi_run_on_constant_price c n 0 0%Z None 0 w). lia.
  - intros period Hp Hn. now apply rsi_of_constant_series.
Qed.

Lemma rsi_bot_idle_on_constant_price_witness :
  Py.last_opt (rsi_strategy.compute_RSI (repeat 100 15) 14) = Some rsi_strategy.NaN.
Proof.
  destruct (rsi_bot_idle_on_constant_price 100 15 (world_of [])) as [_ H].
  apply (H 14%nat); lia.
Defined.

(** ** The RSI bot over a whole run *)

Lemma last_opt_is_Some {A} (l : list A) : l <> [] -> is_Some (Py.last_opt l).
Proof.
  intros H. destruct (exists_last H) as (l' & x & ->).
  rewrite last_opt_snoc. eauto.
Qed.

Lemma rsi_trade_consistent s rsi p w :
  rsi_strategy.consistent s ->
  exists s',
    fst (rsi_strategy.trade s rsi p w) = Some s'
    /\ rsi_strategy.consistent s'
    /\ rsi_strategy.candles s' = rsi_strategy.candles s.
Proof.
  intros Hc. destruct s as [cs pos e prof].
  unfold rsi_strategy.consistent in *. cbn in Hc.
  unfold rsi_strategy.trade, rsi_strategy.send_trade_order.
  cbn [rsi_strategy.position rsi_strategy.entry_price rsi_strategy.candles
       rsi_strategy.profit].
  destruct Hc as [[-> ->] | [[-> | ->] [e0 ->]]]; cbn [Z.eqb Pos.eqb andb].
  - destruct (rsi_strategy.flt rsi 30); [|destruct (rsi_strategy.fgt rsi 70)];
      try step_order; eexists; (split; [reflexivity|]); cbn; eauto 6.
  - destruct (rsi_strategy.fgt rsi 50);
      cbn [need]; rewrite ?bind_ret; try step_order;
      eexists; (split; [reflexivity|]); cbn; eauto 6.
  - destruct (rsi_strategy.flt rsi 50);
      cbn [need]; rewrite ?bind_ret; try step_order;
      eexists; (split; [reflexivity|]); cbn; eauto 6.
Qed.

Lemma rsi_evaluate_consistent s w :
  rsi_strategy.consistent s ->
  exists s',
    fst (rsi_strategy.evaluate_RSI s w) = Some s'
    /\ rsi_strategy.consistent s'
    /\ rsi_strategy.candles s' = rsi_strategy.candles s.
Proof.
  intros Hc. unfold rsi_strategy.evaluate_RSI.
  destruct (Nat.ltb_spec (length (rsi_strategy.candles s))
              (rsi_strategy.RSI_PERIOD + 1)) as [Hlt | Hge].
  - exists s. cbn. auto.
  - unfold rsi_strategy.RSI_PERIOD in Hge.
    destruct (last_opt_is_Some
                (rsi_strategy.compute_RSI
                   (map rsi_strategy.c_close (rsi_strategy.candles s))
                   rsi_strategy.RSI_PERIOD)) as [rsi Hrsi].
    { intros Hnil. apply (f_equal (@length _)) in Hnil.
      rewrite compute_RSI_length, length_map in Hnil. cbn [length] in Hnil. lia. }
    destruct (last_opt_is_Some (rsi_strategy.candles s)) as [cur Hcur].
    { intros Hnil. rewrite Hnil in Hge. cbn in Hge. lia. }
    rewrite Hrsi, Hcur. cbn [need]. rewrite !bind_ret.
    now apply rsi_trade_consistent.
Qed.

Lemma rsi_run_consistent feed : forall s w pre,
  rsi_strategy.consistent s ->
  rsi_strategy.candles s = RollingBuffer.most_recent 15 pre ->
  exists s',
    fst (rsi_strategy.run s feed w) = Some s'
    /\ rsi_strategy.consistent s'
    /\ rsi_strategy.candles s'
       = RollingBuffer.most_recent 15
           (pre ++ map (fun p => rsi_strategy.mkCandle p p p p) (fetched feed)).
Proof.
  induction feed as [|[p|] feed IH]; intros s w pre Hc Hh.
  - exists s. cbn. rewrite app_nil_r. auto.
  - cbn [rsi_strategy.run rsi_strategy.tick]. unfold bind.
    change (rsi_strategy.RSI_PERIOD + 1)%nat with 15%nat.
    rewrite Hh, push_slice_recent, most_recent_snoc by lia.
    set (s1 := rsi_strategy.mkState _ _ _ _).
    assert (Hc1 : rsi_strategy.consistent s1) by exact Hc.
    destruct (rsi_evaluate_consistent s1 w Hc1) as (s2 & H2 & Hc2 & Hh2).
    destruct (rsi_strategy.evaluate_RSI s1 w) as [o w2]. cbn [fst] in H2. subst o.
    destruct (IH s2 w2 (pre ++ [rsi_strategy.mkCandle p p p p]) Hc2 Hh2)
      as (s' & H' & Hc' & Hh').
    exists s'. split; [exact H'|]. split; [exact Hc'|].
    rewrite Hh', <- app_assoc. reflexivity.
  - cbn [rsi_strategy.run rsi_strategy.tick]. unfold bind. cbn [ret].
    now apply IH.
Qed.


(** ** The moving-average bot over a whole run *)

Lemma moving_average_evaluate_in_market s w :
  moving_average.consistent s ->
  (moving_average.WINDOW <= length (moving_average.candles s))%nat ->
  exists s',
    fst (moving_average.evaluate_moving_average s w) = Some s'
    /\ moving_average.consistent s'
    /\ moving_average.candles s' = moving_average.candles s
    /\ moving_average.position s' <> 0%Z.
Proof.
  intros Hc Hlen. unfold moving_average.evaluate_moving_average.
  destruct (Nat.ltb_spec (length (moving_average.candles s)) moving_average.WINDOW)
    as [Hlt | _]; [lia|].
  destruct (last_opt_is_Some (moving_average.candles s)) as [p Hp].
  { intros Hnil. rewrite Hnil in Hlen. unfold moving_average.WINDOW in Hlen.
    cbn in Hlen. lia. }
  rewrite Hp. cbn [need]. rewrite bind_ret.
  set (ma := Qsum _ / _).
  destruct s as [cs pos e prof].
  unfold moving_average.consistent in *. cbn in Hc.
  unfold moving_average.enter, moving_average.send_trade_order.
  cbn [moving_average.position moving_average.entry_price moving_average.candles
       moving_average.profit].
  destruct Hc as [[-> ->] | [[-> | ->] [e0 ->]]];
    destruct (Qgtb p ma); cbn [Z.eqb Pos.eqb negb need]; rewrite ?bind_ret;
    repeat step_order;
    eexists; (split; [reflexivity|]); cbn; repeat split; eauto 6; lia.
Qed.

Lemma moving_average_run_in_market feed : forall s w pre,
  moving_average.consistent s ->
  moving_average.candles s = RollingBuffer.most_recent moving_average.WINDOW pre ->
  ((moving_average.WINDOW <= length pre)%nat -> moving_average.position s <> 0%Z) ->
  exists s',
    fst (moving_average.run s feed w) = Some s'
    /\ moving_average.consistent s'
    /\ ((moving_average.WINDOW <= length (pre ++ fetched feed))%nat ->
        moving_average.position s' <> 0%Z).
Proof.
  induction feed as [|[p|] feed IH]; intros s w pre Hc Hh Hin.
  - exists s. cbn. rewrite app_nil_r. auto.
  - cbn [moving_average.run moving_average.tick]. unfold bind.
    rewrite Hh, push_slice_recent, most_recent_snoc
      by (unfold moving_average.WINDOW; lia).
    set (h := RollingBuffer.most_recent _ (pre ++ [p])).
    set (s1 := moving_average.mkState h _ _ _).
    assert (Hc1 : moving_average.consistent s1) by exact Hc.
    assert (Hlen : length h = Nat.min moving_average.WINDOW (length (pre ++ [p])))
      by apply most_recent_exact_length.
    change (Some p :: feed) with ([Some p] ++ feed).
    rewrite fetched_app, app_assoc. cbn [fetched flat_map app].
    destruct (Nat.le_gt_cases moving_average.WINDOW (length h)) as [Hge | Hlt].
    + destruct (moving_average_evaluate_in_market s1 w Hc1 Hge)
        as (s2 & H2 & Hc2 & Hh2 & Hpos2).
      destruct (moving_average.evaluate_moving_average s1 w) as [o w2].
      cbn [fst] in H2. subst o.
      apply (IH s2 w2 (pre ++ [p])); [exact Hc2 | exact Hh2 | intros _; exact Hpos2].
    + assert (Hev : moving_average.evaluate_moving_average s1 w = (Some s1, w)).
      { unfold moving_average.evaluate_moving_average.
        destruct (Nat.ltb_spec (length (moving_average.candles s1))
                    moving_average.WINDOW) as [_ | Hge]; [reflexivity|].
        cbn [moving_average.candles s1] in Hge. subst s1. cbn in Hge. lia. }
      rewrite Hev.
      apply (IH s1 w (pre ++ [p])); [exact Hc1 | reflexivity | intros Hfull; lia].
  - cbn [moving_average.run moving_average.tick]. unfold bind. cbn [ret].
    now apply (IH s w pre).
Qed.



(** ** The hedge ratio of the spread bot *)

(** In exact arithmetic [estimate_beta] fails on the empty list only. *)
Lemma estimate_beta_is_Some pts :
  pts <> [] -> is_Some (spread_bot.estimate_beta pts).
Proof.
  intros Hne. unfold spread_bot.estimate_beta. rewrite length_map.
  destruct pts as [|p pts]; [congruence|].
  cbn [length Nat.eqb]. cbv zeta.
  destruct (Qeq_bool _ 0); eauto.
Qed.

Example estimate_beta_empty : spread_bot.estimate_beta [] = None.
Proof. reflexivity. Qed.

(** ** The loop of the spread bot *)

Lemma spread_trade_consistent s beta btc eth spread mean ub lb w :
  spread_bot.consistent s ->
  exists s',
    fst (spread_bot.trade s beta btc eth spread mean ub lb w) = Some s'
    /\ spread_bot.consistent s'.
Proof.
  intros Hc. destruct s as [pos eB eE eS c].
  unfold spread_bot.consistent in *. cbn in Hc.
  unfold spread_bot.trade, spread_bot.send_trade_order.
  cbn [spread_bot.position spread_bot.entry_BTC spread_bot.entry_ETH
       spread_bot.entry_spread spread_bot.cum_profit].
  destruct Hc as [(-> & -> & ->) | [[-> | ->] [[b0 ->] [e0 ->]]]];
    cbn [Z.eqb Pos.eqb andb].
  - destruct (Qgtb spread ub); [|destruct (Qltb spread lb)];
      try (eexists; split; [reflexivity|]; cbn; eauto 8; fail);
      step_order; step_order;
      destruct (exchange w (length (journal w))),
               (exchange w (S (length (journal w))));
      eexists; (split; [reflexivity|]); cbn; eauto 8.
  - destruct (Qgeb spread mean);
      try (eexists; split; [reflexivity|]; cbn; eauto 8; fail).
    cbn [need]. rewrite !bind_ret. step_order. step_order.
    destruct (exchange w (length (journal w))),
             (exchange w (S (length (journal w))));
      eexists; (split; [reflexivity|]); cbn; eauto 8.
  - destruct (Qleb spread mean);
      try (eexists; split; [reflexivity|]; cbn; eauto 8; fail).
    cbn [need]. rewrite !bind_ret. step_order. step_order.
    destruct (exchange w (length (journal w))),
             (exchange w (S (length (journal w))));
      eexists; (split; [reflexivity|]); cbn; eauto 8.
Qed.

Lemma bind_ret_inner {A B C} (a : A) (k1 : A -> M B) (k2 : B -> M C) w :
  bind (bind (ret a) k1) k2 w = bind (k1 a) k2 w.
Proof. reflexivity. Qed.

Lemma data_points_of_app f1 f2 :
  spread_bot.data_points_of (f1 ++ f2)
  = spread_bot.data_points_of f1 ++ spread_bot.data_points_of f2.
Proof. unfold spread_bot.data_points_of. now rewrite fetched_app, map_app. Qed.

Section SpreadLoop.

Variable estimate : list spread_bot.DataPoint -> option Q.
Variable pstdev : list Q -> option Q.

Lemma beta_after_short pts :
  (length pts < spread_bot.INITIAL_WINDOW)%nat ->
  spread_bot.beta_after estimate pts = None.
Proof.
  intros H. unfold spread_bot.beta_after.
  destruct (Nat.leb_spec spread_bot.INITIAL_WINDOW (length pts)); [lia | reflexivity].
Qed.

Lemma beta_after_long pts :
  (spread_bot.INITIAL_WINDOW <= length pts)%nat ->
  spread_bot.beta_after estimate pts
  = estimate (firstn spread_bot.INITIAL_WINDOW pts).
Proof.
  intros H. unfold spread_bot.beta_after.
  destruct (Nat.leb_spec spread_bot.INITIAL_WINDOW (length pts)); [reflexivity | lia].
Qed.

Lemma beta_after_snoc_long pts p :
  (spread_bot.INITIAL_WINDOW <= length pts)%nat ->
  spread_bot.beta_after estimate (pts ++ [p]) = spread_bot.beta_after estimate pts.
Proof.
  intros Hlen. rewrite !beta_after_long by (rewrite ?length_app; lia).
  rewrite firstn_app.
  replace (spread_bot.INITIAL_WINDOW - length pts)%nat with 0%nat by lia.
  cbn [firstn]. now rewrite app_nil_r.
Qed.

Lemma beta_after_Some_long pts b :
  spread_bot.beta_after estimate pts = Some b ->
  (spread_bot.INITIAL_WINDOW <= length pts)%nat.
Proof.
  intros Hb.
  destruct (Nat.le_gt_cases spread_bot.INITIAL_WINDOW (length pts)) as [H|H];
    [exact H|]. rewrite beta_after_short in Hb by exact H. discriminate.
Qed.

Ltac loop_proj :=
  cbn [spread_bot.historical_data spread_bot.beta spread_bot.spread_history
       spread_bot.bot fst snd].

(** One pass of the loop after the data points [pre]: no order during the
    warm-up; if the pass returns, the globals are those after one more data
    point; and the pass returns when [estimate] and [pstdev] do. *)
Lemma spread_tick_step l f w pre :
  spread_bot.historical_data l = pre ->
  spread_bot.beta l = spread_bot.beta_after estimate pre ->
  spread_bot.spread_history l = spread_bot.spread_history_after estimate pre ->
  spread_bot.consistent (spread_bot.bot l) ->
  let pts := pre ++ spread_bot.data_points_of [f] in
  let r := spread_bot.tick estimate pstdev l f w in
  ((length pts < spread_bot.INITIAL_WINDOW - 1 + spread_bot.ROLLING_WINDOW)%nat ->
   snd r = w)
  /\ (forall l',
        fst r = Some l' ->
        spread_bot.historical_data l' = pts
        /\ spread_bot.beta l' = spread_bot.beta_after estimate pts
        /\ spread_bot.spread_history l'
           = spread_bot.spread_history_after estimate pts
        /\ spread_bot.consistent (spread_bot.bot l')
        /\ ((length pts
             < spread_bot.INITIAL_WINDOW - 1 + spread_bot.ROLLING_WINDOW)%nat ->
            spread_bot.bot l' = spread_bot.bot l))
  /\ ((forall ps, length ps = spread_bot.INITIAL_WINDOW -> is_Some (estimate ps)) ->
      (forall xs, length xs = spread_bot.ROLLING_WINDOW -> is_Some (pstdev xs))
      \/ (length pts
          < spread_bot.INITIAL_WINDOW - 1 + spread_bot.ROLLING_WINDOW)%nat ->
      is_Some (fst r)).
Proof.
  intros Hh Hb Hs Hc pts r. subst pts r.
  destruct f as [[[t btc] eth]|];
    cbn [spread_bot.tick spread_bot.data_points_of fetched flat_map map app
         fst snd].
  2:{ rewrite app_nil_r. split; [reflexivity|]. split; [|cbn; eauto].
      intros l' [= <-]. auto. }
  rewrite Hh.
  set (p := spread_bot.mkDataPoint t btc eth).
  destruct (spread_bot.beta l) as [b|] eqn:Eb.
  - (* the hedge ratio is known *)
    symmetry in Hb.
    pose proof (beta_after_Some_long pre b Hb) as Hlen.
    assert (Hb' : spread_bot.beta_after estimate (pre ++ [p]) = Some b)
      by (rewrite beta_after_snoc_long by exact Hlen; exact Hb).
    rewrite bind_ret.
    unfold spread_bot.spread_history_after in Hs. rewrite Hb in Hs.
    rewrite Hs, push_pop_recent. cbn [need]. rewrite bind_ret.
    assert (Hsp : RollingBuffer.most_recent spread_bot.ROLLING_WINDOW
                    (map (spread_bot.spread_of b)
                       (skipn (spread_bot.INITIAL_WINDOW - 1) pre)
                     ++ [eth - b * btc])
                  = spread_bot.spread_history_after estimate (pre ++ [p])).
    { unfold spread_bot.spread_history_after. rewrite Hb'.
      rewrite skipn_app, map_app.
      replace (spread_bot.INITIAL_WINDOW - 1 - length pre)%nat with 0%nat
        by (unfold spread_bot.INITIAL_WINDOW in *; lia).
      reflexivity. }
    rewrite Hsp.
    set (spreads := spread_bot.spread_history_after estimate (pre ++ [p])) in *.
    assert (Hsl : length spreads
                  = Nat.min spread_bot.ROLLING_WINDOW
                      (length pre + 1 - (spread_bot.INITIAL_WINDOW - 1))).
    { rewrite <- Hsp. unfold RollingBuffer.most_recent.
      rewrite length_skipn, length_app, length_map, length_skipn.
      cbn [length]. lia. }
    destruct (Nat.ltb_spec (length spreads) spread_bot.ROLLING_WINDOW)
      as [Hshort | Hfull].
    + split; [reflexivity|]. split; [|cbn; eauto].
      intros l' [= <-]. loop_proj. auto 6.
    + assert (Hnot : ~ (length (pre ++ [p])
                        < spread_bot.INITIAL_WINDOW - 1
                          + spread_bot.ROLLING_WINDOW)%nat).
      { rewrite length_app. cbn [length].
        unfold spread_bot.INITIAL_WINDOW, spread_bot.ROLLING_WINDOW in *. lia. }
      destruct (pstdev spreads) as [sd|] eqn:Esd; cbn [need].
      * rewrite bind_ret.
        match goal with
        | |- context [spread_bot.trade ?s ?b0 ?x ?y ?sp ?m ?u ?lo] =>
            destruct (spread_trade_consistent s b0 x y sp m u lo w Hc)
              as (s' & Hs' & Hc');
            unfold bind;
            destruct (spread_bot.trade s b0 x y sp m u lo w) as [o w'] eqn:Et
        end.
        cbn [fst] in Hs'. subst o. cbn [ret fst snd].
        split; [intros Hlt; contradiction|]. split; [|eauto].
        intros l' [= <-]. loop_proj.
        split; [reflexivity|]. split; [now rewrite Hb'|].
        split; [reflexivity|]. split; [exact Hc'|]. intros Hlt; contradiction.
      * split; [reflexivity|]. split; [intros l'; discriminate|].
        intros _ [Hp | Hlt]; [|contradiction].
        destruct (Hp spreads) as [sd Hsd]; [|congruence].
        unfold spread_bot.ROLLING_WINDOW in *. lia.
  - (* the hedge ratio is not known yet *)
    symmetry in Hb.
    unfold spread_bot.spread_history_after in Hs. rewrite Hb in Hs.
    destruct (Nat.leb_spec spread_bot.INITIAL_WINDOW (length (pre ++ [p])))
      as [Hnow | Hnot].
    + pose proof (beta_after_long (pre ++ [p]) Hnow) as E.
      destruct (estimate (firstn spread_bot.INITIAL_WINDOW (pre ++ [p])))
        as [b|] eqn:Ee; cbn [need].
      * assert (Hlen : length pre = (spread_bot.INITIAL_WINDOW - 1)%nat).
        { rewrite length_app in Hnow. cbn [length] in Hnow.
          destruct (Nat.le_gt_cases spread_bot.INITIAL_WINDOW (length pre))
            as [Hge | Hlt]; [|unfold spread_bot.INITIAL_WINDOW in *; lia].
          rewrite beta_after_snoc_long in E by exact Hge. congruence. }
        rewrite bind_ret_inner, !bind_ret.
        rewrite Hs. cbn [RollingBuffer.push_pop app length Nat.ltb Nat.leb
                         spread_bot.ROLLING_WINDOW].
        cbn [need]. rewrite bind_ret. cbn [length Nat.ltb Nat.leb].
        split; [reflexivity|]. split; [|cbn; eauto].
        intros l' [= <-]. loop_proj.
        split; [reflexivity|]. split; [congruence|].
        split.
        { unfold spread_bot.spread_history_after. rewrite E.
          rewrite skipn_app.
          replace (spread_bot.INITIAL_WINDOW - 1 - length pre)%nat with 0%nat
            by lia.
          rewrite skipn_all2 by lia.
          reflexivity. }
        split; [exact Hc|]. reflexivity.
      * unfold bind. cbn [raise].
        split; [reflexivity|]. split; [intros l'; discriminate|].
        intros He _. destruct (He (firstn spread_bot.INITIAL_WINDOW (pre ++ [p])))
          as [b Hbb]; [|congruence].
        rewrite length_firstn. lia.
    + rewrite bind_ret.
      split; [reflexivity|]. split; [|cbn; eauto].
      intros l' [= <-]. loop_proj.
      split; [reflexivity|].
      split; [now rewrite beta_after_short|].
      split.
      { unfold spread_bot.spread_history_after. now rewrite beta_after_short. }
      split; [exact Hc|]. reflexivity.
Qed.

Lemma spread_run_steps feed : forall l w pre,
  spread_bot.historical_data l = pre ->
  spread_bot.beta l = spread_bot.beta_after estimate pre ->
  spread_bot.spread_history l = spread_bot.spread_history_after estimate pre ->
  spread_bot.consistent (spread_bot.bot l) ->
  let pts := pre ++ spread_bot.data_points_of feed in
  let r := spread_bot.run estimate pstdev l feed w in
  ((length pts < spread_bot.INITIAL_WINDOW - 1 + spread_bot.ROLLING_WINDOW)%nat ->
   snd r = w)
  /\ (forall l',
        fst r = Some l' ->
        spread_bot.historical_data l' = pts
        /\ spread_bot.beta l' = spread_bot.beta_after estimate pts
        /\ spread_bot.spread_history l'
           = spread_bot.spread_history_after estimate pts
        /\ spread_bot.consistent (spread_bot.bot l')
        /\ ((length pts
             < spread_bot.INITIAL_WINDOW - 1 + spread_bot.ROLLING_WINDOW)%nat ->
            spread_bot.bot l' = spread_bot.bot l))
  /\ ((forall ps, length ps = spread_bot.INITIAL_WINDOW -> is_Some (estimate ps)) ->
      (forall xs, length xs = spread_bot.ROLLING_WINDOW -> is_Some (pstdev xs))
      \/ (length pts
          < spread_bot.INITIAL_WINDOW - 1 + spread_bot.ROLLING_WINDOW)%nat ->
      is_Some (fst r)).
Proof.
  induction feed as [|f feed IH]; intros l w pre Hh Hb Hs Hc pts r; subst pts r.
  - cbn [spread_bot.run].
    change (spread_bot.data_points_of []) with (@nil spread_bot.DataPoint).
    rewrite app_nil_r. split; [reflexivity|]. split; [|cbn; eauto].
    intros l' [= <-]. auto 6.
  - assert (Hd : spread_bot.data_points_of (f :: feed)
                 = spread_bot.data_points_of [f] ++ spread_bot.data_points_of feed)
      by apply (data_points_of_app [f] feed).
    rewrite Hd, app_assoc.
    destruct (spread_tick_step l f w pre Hh Hb Hs Hc) as (Hw1 & Hl1 & Ht1).
    cbn [spread_bot.run]. unfold bind.
    destruct (spread_bot.tick estimate pstdev l f w) as [[l1|] w1];
      cbn [fst snd] in *.
    + destruct (Hl1 l1 eq_refl) as (Hh1 & Hb1 & Hs1 & Hc1 & Hbot1).
      destruct (IH l1 w1 _ Hh1 Hb1 Hs1 Hc1) as (Hw2 & Hl2 & Ht2).
      split; [|split].
      * intros Hlt. rewrite Hw2 by exact Hlt. apply Hw1.
        rewrite length_app in Hlt. lia.
      * intros l' Hl'. destruct (Hl2 l' Hl') as (H1 & H2 & H3 & H4 & H5).
        split; [exact H1|]. split; [exact H2|]. split; [exact H3|].
        split; [exact H4|]. intros Hlt. rewrite H5 by exact Hlt. apply Hbot1.
        rewrite length_app in Hlt. lia.
      * exact Ht2.
    + split; [|split].
      * intros Hlt. apply Hw1. rewrite length_app in Hlt. lia.
      * intros l'; discriminate.
      * intros He Hp. destruct (Ht1 He) as [? ?]; [|discriminate].
        destruct Hp as [Hp | Hlt]; [now left | right].
        rewrite length_app in Hlt. lia.
Qed.

End SpreadLoop.

Lemma spread_init_loop_invariant estimate :
  spread_bot.historical_data spread_bot.init_loop = []
  /\ spread_bot.beta spread_bot.init_loop = spread_bot.beta_after estimate []
  /\ spread_bot.spread_history spread_bot.init_loop
     = spread_bot.spread_history_after estimate []
  /\ spread_bot.consistent (spread_bot.bot spread_bot.init_loop).
Proof.
  split; [reflexivity|]. split; [reflexivity|]. split; [reflexivity|].
  left. repeat split.
Qed.

(** X18.  Provided the evaluations of [estimate_beta] and of
    [statistics.pstdev] do not raise (in floating point both can, on an
    overflow), the loop of the spread bot never raises, on every feed and
    whatever the exchange answers.  Afterwards [historical_data] holds every
    fetched data point (it is never trimmed), [beta] is unset before the
    100th data point and from then on is the estimate over the first 100
    data points (it is never estimated again), [spread_history] holds the at
    most 60 most recent spreads at that hedge ratio, the first of them taken
    at the 100th data point, and the position and its entry prices are in
    step. *)
Theorem spread_loop_state_after_run
    (estimate : list spread_bot.DataPoint -> option Q)
    (pstdev : list Q -> option Q)
    (feed : list (option (Z * Q * Q))) (w : World) :
  (forall ps, length ps = spread_bot.INITIAL_WINDOW -> is_Some (estimate ps)) ->
  (forall xs, length xs = spread_bot.ROLLING_WINDOW -> is_Some (pstdev xs)) ->
  exists l,
    fst (spread_bot.run estimate pstdev spread_bot.init_loop feed w) = Some l
    /\ spread_bot.historical_data l = spread_bot.data_points_of feed
    /\ spread_bot.beta l
       = spread_bot.beta_after estimate (spread_bot.data_points_of feed)
    /\ spread_bot.spread_history l
       = spread_bot.spread_history_after estimate (spread_bot.data_points_of feed)
    /\ (length (spread_bot.spread_history l) <= spread_bot.ROLLING_WINDOW)%nat
    /\ spread_bot.consistent (spread_bot.bot l).
Proof.
  intros He Hp.
  destruct (spread_init_loop_invariant estimate) as (Hh & Hb & Hs & Hc).
  destruct (spread_run_steps estimate pstdev feed spread_bot.init_loop w []
              Hh Hb Hs Hc) as (_ & Hl & Ht).
  destruct (Ht He (or_introl Hp)) as [l Hr]. cbn [app] in Hl.
  destruct (Hl l Hr) as (H1 & H2 & H3 & H4 & _).
  exists l. split; [exact Hr|]. split; [exact H1|]. split; [exact H2|].
  split; [exact H3|]. split; [|exact H4].
  rewrite H3. unfold spread_bot.spread_history_after.
  destruct (spread_bot.beta_after estimate (spread_bot.data_points_of feed));
    [apply most_recent_length | cbn; lia].
Qed.

Lemma spread_loop_state_after_run_witness :
  exists l,
    fst (spread_bot.run (fun _ => Some 2) (fun _ => Some 0) spread_bot.init_loop
           [Some (0%Z, 100, 200); None; Some (1%Z, 50, 400)] accepting_world)
    = Some l
    /\ spread_bot.historical_data l
       = [spread_bot.mkDataPoint 0 100 200; spread_bot.mkDataPoint 1 50 400].
Proof.
  destruct (spread_loop_state_after_run (fun _ => Some 2) (fun _ => Some 0)
              [Some (0%Z, 100, 200); None; Some (1%Z, 50, 400)] accepting_world)
    as (l & Hr & Hh & _).
  - intros ps _. eauto.
  - intros xs _. eauto.
  - exists l. split; [exact Hr | exact Hh].
Defined.

(** X19.  While fewer than 159 data points have been fetched (99 before the
    hedge ratio is estimated and 60 to fill the spread window), the spread
    bot sends no order and stays flat, whatever the prices are: this holds
    for every evaluation of [estimate_beta] and of [statistics.pstdev],
    raising or not, and with [estimate_beta] in exact arithmetic the loop
    returns. *)
Theorem spread_no_order_during_warm_up
    (pstdev : list Q -> option Q) (feed : list (option (Z * Q * Q))) (w : World) :
  (length (spread_bot.data_points_of feed) < 159)%nat ->
  (snd (spread_bot.run spread_bot.estimate_beta pstdev spread_bot.init_loop feed w)
   = w
   /\ exists l,
        fst (spread_bot.run spread_bot.estimate_beta pstdev spread_bot.init_loop
               feed w) = Some l
        /\ spread_bot.bot l = spread_bot.init)
  /\ forall estimate : list spread_bot.DataPoint -> option Q,
       snd (spread_bot.run estimate pstdev spread_bot.init_loop feed w) = w
       /\ forall l,
            fst (spread_bot.run estimate pstdev spread_bot.init_loop feed w)
            = Some l ->
            spread_bot.bot l = spread_bot.init.
Proof.
  intros Hlt.
  assert (Hgen : forall estimate : list spread_bot.DataPoint -> option Q,
             snd (spread_bot.run estimate pstdev spread_bot.init_loop feed w) = w
             /\ forall l,
                  fst (spread_bot.run estimate pstdev spread_bot.init_loop feed w)
                  = Some l ->
                  spread_bot.bot l = spread_bot.init).
  { intros estimate.
    destruct (spread_init_loop_invariant estimate) as (Hh & Hb & Hs & Hc).
    destruct (spread_run_steps estimate pstdev feed spread_bot.init_loop w []
                Hh Hb Hs Hc) as (Hw & Hl & _).
    cbn [app] in *. split; [exact (Hw Hlt)|].
    intros l Hr. destruct (Hl l Hr) as (_ & _ & _ & _ & Hbot). exact (Hbot Hlt). }
  split; [|exact Hgen].
  destruct (Hgen spread_bot.estimate_beta) as [Hw Hbot].
  split; [exact Hw|].
  (* in exact arithmetic the estimate exists, and the deviation is not
     called before the window is full *)
  destruct (spread_init_loop_invariant spread_bot.estimate_beta)
    as (Hh & Hb & Hs & Hc).
  destruct (spread_run_steps spread_bot.estimate_beta pstdev feed
              spread_bot.init_loop w [] Hh Hb Hs Hc) as (_ & _ & Ht).
  destruct Ht as [l Hr].
  { intros ps Hps. apply estimate_beta_is_Some. intros ->. discriminate Hps. }
  { right. exact Hlt. }
  exists l. split; [exact Hr | exact (Hbot l Hr)].
Qed.

Lemma spread_no_order_during_warm_up_witness :
  snd (spread_bot.run spread_bot.estimate_beta (fun _ => None) spread_bot.init_loop
         [Some (0%Z, 100, 200); None; Some (1%Z, 50, 400)] accepting_world)
  = accepting_world.
Proof.
  apply (spread_no_order_during_warm_up (fun _ => None)
           [Some (0%Z, 100, 200); None; Some (1%Z, 50, 400)] accepting_world).
  cbn. lia.
Defined.

(** The bound is met: the 159th data point can open a position. *)
Example spread_order_at_159th_data_point :
  length (journal (snd (spread_bot.run spread_bot.estimate_beta (fun _ => Some 0)
                          spread_bot.init_loop
                          (repeat (Some (0%Z, 1, 1)) 158 ++ [Some (0%Z, 1, 2)])
                          accepting_world)))
  = 2%nat.
Proof. vm_compute. reflexivity. Qed.

(** ** The loop of the relative-arbitrage bot *)

Lemma arbitrage_trade_consistent s btc eth ratio mean ub lb w :
  relative_arbitrage.consistent s ->
  exists s',
    fst (relative_arbitrage.trade s btc eth ratio mean ub lb w) = Some s'
    /\ relative_arbitrage.consistent s'.
Proof.
  intros Hc. destruct s as [pos eR eB eE c].
  unfold relative_arbitrage.consistent in *. cbn in Hc.
  unfold relative_arbitrage.trade, relative_arbitrage.send_trade_order.
  cbn [relative_arbitrage.position relative_arbitrage.entry_BTC
       relative_arbitrage.entry_ETH relative_arbitrage.entry_ratio
       relative_arbitrage.cum_profit].
  destruct Hc as [(-> & -> & -> & ->)
                 | [[-> | ->] [[r0 ->] [[b0 ->] [e0 ->]]]]];
    cbn [Z.eqb Pos.eqb andb].
  - destruct (Qgtb ratio ub); [|destruct (Qltb ratio lb)];
      try (eexists; split; [reflexivity|]; cbn; eauto 9; fail);
      step_order; step_order;
      destruct (exchange w (length (journal w))),
               (exchange w (S (length (journal w))));
      eexists; (split; [reflexivity|]); cbn; eauto 9.
  - destruct (Qgeb ratio mean);
      try (eexists; split; [reflexivity|]; cbn; eauto 9; fail).
    cbn [need]. rewrite !bind_ret. step_order. step_order.
    destruct (exchange w (length (journal w))),
             (exchange w (S (length (journal w))));
      eexists; (split; [reflexivity|]); cbn; eauto 9.
  - destruct (Qleb ratio mean);
      try (eexists; split; [reflexivity|]; cbn; eauto 9; fail).
    cbn [need]. rewrite !bind_ret. step_order. step_order.
    destruct (exchange w (length (journal w))),
             (exchange w (S (length (journal w))));
      eexists; (split; [reflexivity|]); cbn; eauto 9.
Qed.

Lemma ratios_of_app f1 f2 :
  relative_arbitrage.ratios_of (f1 ++ f2)
  = relative_arbitrage.ratios_of f1 ++ relative_arbitrage.ratios_of f2.
Proof. unfold relative_arbitrage.ratios_of. now rewrite fetched_app, map_app. Qed.

Lemma arbitrage_tick_invariant stdev l f w pre :
  relative_arbitrage.ratio_history l
  = RollingBuffer.most_recent relative_arbitrage.ROLLING_WINDOW pre ->
  relative_arbitrage.consistent (relative_arbitrage.bot l) ->
  Forall (fun p => ~ fst p == 0) (fetched [f]) ->
  (forall xs, length xs = relative_arbitrage.ROLLING_WINDOW -> is_Some (stdev xs)) ->
  exists l',
    fst (relative_arbitrage.tick stdev l f w) = Some l'
    /\ relative_arbitrage.ratio_history l'
       = RollingBuffer.most_recent relative_arbitrage.ROLLING_WINDOW
           (pre ++ relative_arbitrage.ratios_of [f])
    /\ relative_arbitrage.consistent (relative_arbitrage.bot l').
Proof.
  intros Hh Hc Hnz Hsd.
  destruct f as [[btc eth]|];
    cbn [relative_arbitrage.tick relative_arbitrage.ratios_of fetched flat_map
         map app fst snd] in *.
  2:{ rewrite app_nil_r. exists l. split; [reflexivity|]. split; assumption. }
  apply Forall_inv in Hnz. cbn [fst] in Hnz.
  destruct (Qeq_bool btc 0) eqn:Hz.
  { apply Qeq_bool_iff in Hz. contradiction. }
  rewrite Hh, push_pop_recent. cbn [need]. rewrite bind_ret.
  set (ratios := RollingBuffer.most_recent _ (pre ++ [eth / btc])).
  destruct (Nat.ltb_spec (length ratios) relative_arbitrage.ROLLING_WINDOW)
    as [Hshort | Hfull].
  - eexists. split; [reflexivity|]. split; [reflexivity | exact Hc].
  - destruct (Hsd ratios) as [sd Esd].
    { pose proof (most_recent_length relative_arbitrage.ROLLING_WINDOW
                    (pre ++ [eth / btc])) as Hle.
      fold ratios in Hle. lia. }
    rewrite Esd. cbn [need]. rewrite bind_ret.
    match goal with
    | |- context [relative_arbitrage.trade ?s ?x ?y ?r ?m ?u ?lo] =>
        destruct (arbitrage_trade_consistent s x y r m u lo w Hc)
          as (s' & Hs' & Hc')
    end.
    unfold bind at 1.
    match goal with
    | |- context [relative_arbitrage.trade ?s ?x ?y ?r ?m ?u ?lo w] =>
        destruct (relative_arbitrage.trade s x y r m u lo w) as [o w'] eqn:Et
    end.
    cbn [fst] in Hs'. subst o.
    eexists. split; [reflexivity|]. split; [reflexivity | exact Hc'].
Qed.

Lemma arbitrage_run_invariant stdev feed : forall l w pre,
  relative_arbitrage.ratio_history l
  = RollingBuffer.most_recent relative_arbitrage.ROLLING_WINDOW pre ->
  relative_arbitrage.consistent (relative_arbitrage.bot l) ->
  Forall (fun p => ~ fst p == 0) (fetched feed) ->
  (forall xs, length xs = relative_arbitrage.ROLLING_WINDOW -> is_Some (stdev xs)) ->
  exists l',
    fst (relative_arbitrage.run stdev l feed w) = Some l'
    /\ relative_arbitrage.ratio_history l'
       = RollingBuffer.most_recent relative_arbitrage.ROLLING_WINDOW
           (pre ++ relative_arbitrage.ratios_of feed)
    /\ relative_arbitrage.consistent (relative_arbitrage.bot l').
Proof.
  induction feed as [|f feed IH]; intros l w pre Hh Hc Hnz Hsd.
  - cbn [relative_arbitrage.run].
    change (relative_arbitrage.ratios_of []) with (@nil Q).
    rewrite app_nil_r. exists l. split; [reflexivity|]. split; assumption.
  - assert (Hd : relative_arbitrage.ratios_of (f :: feed)
                 = relative_arbitrage.ratios_of [f]
                   ++ relative_arbitrage.ratios_of feed)
      by apply (ratios_of_app [f] feed).
    assert (Hf : fetched (f :: feed) = fetched [f] ++ fetched feed)
      by apply (fetched_app [f] feed).
    rewrite Hf in Hnz. apply Forall_app in Hnz. destruct Hnz as [Hnz1 Hnz2].
    rewrite Hd, app_assoc.
    destruct (arbitrage_tick_invariant stdev l f w pre Hh Hc Hnz1 Hsd)
      as (l1 & Hr1 & Hh1 & Hc1).
    cbn [relative_arbitrage.run]. unfold bind.
    destruct (relative_arbitrage.tick stdev l f w) as [r w1].
    cbn [fst] in Hr1. subst r.
    exact (IH l1 w1 _ Hh1 Hc1 Hnz2 Hsd).
Qed.

Lemma arbitrage_run_zero_price stdev feed : forall l w,
  Exists (fun p => fst p == 0) (fetched feed) ->
  fst (relative_arbitrage.run stdev l feed w) = None.
Proof.
  induction feed as [|f feed IH]; intros l w Hz.
  - inversion Hz.
  - assert (Hf : fetched (f :: feed) = fetched [f] ++ fetched feed)
      by apply (fetched_app [f] feed).
    rewrite Hf in Hz. apply Exists_app in Hz.
    cbn [relative_arbitrage.run]. unfold bind.
    destruct Hz as [Hz | Hz].
    + destruct f as [[btc eth]|]; cbn [fetched flat_map app] in Hz;
        [|inversion Hz].
      apply Exists_cons in Hz. destruct Hz as [Hz | Hz]; [|inversion Hz].
      cbn [fst] in Hz. apply Qeq_bool_iff in Hz.
      cbn [relative_arbitrage.tick]. rewrite Hz. reflexivity.
    + destruct (relative_arbitrage.tick stdev l f w) as [[l1|] w1];
        [apply IH; exact Hz | reflexivity].
Qed.

Lemma Qnonzero_dec (q : Q) : {~ q == 0} + {q == 0}.
Proof. destruct (Qeq_dec q 0); [right | left]; assumption. Qed.

(** X20.  A fetched BTC price of zero makes the loop of the
    relative-arbitrage bot raise (the division of the ETH price by the BTC
    price is not guarded), whatever else happened before.  As long as
    [statistics.stdev] does not raise, nothing else makes the loop raise:
    the orders and their outcomes play no part. *)
Theorem arbitrage_zero_btc_price_raises
    (stdev : list Q -> option Q) (feed : list (option (Q * Q))) (w : World) :
  (Exists (fun p => fst p == 0) (fetched feed) ->
   fst (relative_arbitrage.run stdev relative_arbitrage.init_loop feed w) = None)
  /\ ((forall xs, length xs = relative_arbitrage.ROLLING_WINDOW ->
                  is_Some (stdev xs)) ->
      fst (relative_arbitrage.run stdev relative_arbitrage.init_loop feed w) = None ->
      Exists (fun p => fst p == 0) (fetched feed)).
Proof.
  split; [apply arbitrage_run_zero_price|].
  intros Hsd Hnone.
  destruct (Forall_Exists_dec (fun p : Q * Q => ~ fst p == 0)
              (fun p => fst p == 0) (fun p => Qnonzero_dec (fst p))
              (fetched feed))
    as [Hall | Hex]; [|exact Hex].
  destruct (arbitrage_run_invariant stdev feed relative_arbitrage.init_loop
              w [] eq_refl) as (l & Hl & _);
    [left; repeat split | exact Hall | exact Hsd | congruence].
Qed.

Lemma arbitrage_zero_btc_price_raises_witness :
  fst (relative_arbitrage.run (fun _ => Some 0) relative_arbitrage.init_loop
         [Some (100, 200); Some (0, 400); Some (50, 400)] accepting_world)
  = None.
Proof.
  apply (arbitrage_zero_btc_price_raises (fun _ => Some 0)
           [Some (100, 200); Some (0, 400); Some (50, 400)] accepting_world).
  cbn. apply Exists_cons_tl, Exists_cons_hd. reflexivity.
Defined.

(** X21.  When no fetched BTC price is zero and [statistics.stdev] does not
    raise (in floating point it does on a ratio that has overflowed), the
    loop of the relative-arbitrage bot ends with [ratio_history] holding the
    ETH/BTC ratios of the at most 60 most recent fetches, oldest first, and
    with the position and its entry data in step, whatever the exchange
    answered. *)
Theorem arbitrage_loop_keeps_recent_ratios
    (stdev : list Q -> option Q) (feed : list (option (Q * Q))) (w : World) :
  Forall (fun p => ~ fst p == 0) (fetched feed) ->
  (forall xs, length xs = relative_arbitrage.ROLLING_WINDOW -> is_Some (stdev xs)) ->
  exists l,
    fst (relative_arbitrage.run stdev relative_arbitrage.init_loop feed w) = Some l
    /\ relative_arbitrage.ratio_history l
       = RollingBuffer.most_recent relative_arbitrage.ROLLING_WINDOW
           (relative_arbitrage.ratios_of feed)
    /\ (length (relative_arbitrage.ratio_history l)
        <= relative_arbitrage.ROLLING_WINDOW)%nat
    /\ relative_arbitrage.consistent (relative_arbitrage.bot l).
Proof.
  intros Hnz Hsd.
  destruct (arbitrage_run_invariant stdev feed relative_arbitrage.init_loop
              w [] eq_refl) as (l & Hl & Hh & Hc); [|exact Hnz|exact Hsd|].
  { left. repeat split. }
  cbn [app] in Hh. exists l. split; [exact Hl|]. split; [exact Hh|].
  split; [|exact Hc]. rewrite Hh. apply most_recent_length.
Qed.

Lemma arbitrage_loop_keeps_recent_ratios_witness :
  exists l,
    fst (relative_arbitrage.run (fun _ => Some 0) relative_arbitrage.init_loop
           [Some (100, 200); None; Some (50, 400)] accepting_world) = Some l
    /\ relative_arbitrage.ratio_history l
       = RollingBuffer.most_recent relative_arbitrage.ROLLING_WINDOW
           (relative_arbitrage.ratios_of [Some (100, 200); None; Some (50, 400)]).
Proof.
  destruct (arbitrage_loop_keeps_recent_ratios (fun _ => Some 0)
              [Some (100, 200); None; Some (50, 400)] accepting_world)
    as (l & Hl & Hh & _).
  - cbn. repeat constructor; cbn; discriminate.
  - intros xs _. eauto.
  - exists l. split; assumption.
Defined.

Lemma arbitrage_tick_warm_up stdev l f w :
  (length (relative_arbitrage.ratio_history l) + length (fetched [f])
   < relative_arbitrage.ROLLING_WINDOW)%nat ->
  snd (relative_arbitrage.tick stdev l f w) = w
  /\ forall l',
       fst (relative_arbitrage.tick stdev l f w) = Some l' ->
       length (relative_arbitrage.ratio_history l')
       = (length (relative_arbitrage.ratio_history l) + length (fetched [f]))%nat.
Proof.
  intros Hlt.
  destruct f as [[btc eth]|];
    cbn [relative_arbitrage.tick fetched flat_map app length] in *.
  2:{ split; [reflexivity|]. intros l' [= <-]. lia. }
  destruct (Qeq_bool btc 0); [split; [reflexivity | discriminate]|].
  unfold RollingBuffer.push_pop.
  assert (Hlen : length (relative_arbitrage.ratio_history l ++ [eth / btc])
                 = S (length (relative_arbitrage.ratio_history l)))
    by apply length_snoc.
  rewrite Hlen.
  destruct (Nat.ltb_spec relative_arbitrage.ROLLING_WINDOW
              (S (length (relative_arbitrage.ratio_history l)))); [lia|].
  cbn [need]. rewrite bind_ret, Hlen.
  destruct (Nat.ltb_spec (S (length (relative_arbitrage.ratio_history l)))
              relative_arbitrage.ROLLING_WINDOW); [|lia].
  split; [reflexivity|]. intros l' [= <-].
  cbn [relative_arbitrage.ratio_history]. rewrite Hlen. lia.
Qed.

Lemma arbitrage_run_warm_up stdev feed : forall l w,
  (length (relative_arbitrage.ratio_history l) + length (fetched feed)
   < relative_arbitrage.ROLLING_WINDOW)%nat ->
  snd (relative_arbitrage.run stdev l feed w) = w.
Proof.
  induction feed as [|f feed IH]; intros l w Hlt; [reflexivity|].
  assert (Hf : fetched (f :: feed) = fetched [f] ++ fetched feed)
    by apply (fetched_app [f] feed).
  rewrite Hf, length_app in Hlt.
  destruct (arbitrage_tick_warm_up stdev l f w) as [Hw Hl]; [lia|].
  cbn [relative_arbitrage.run]. unfold bind.
  destruct (relative_arbitrage.tick stdev l f w) as [[l1|] w1];
    cbn [fst snd] in *; subst w1; [|reflexivity].
  apply IH. rewrite (Hl l1 eq_refl). lia.
Qed.

(** X22.  While fewer than 60 price pairs have been fetched, the
    relative-arbitrage bot sends no order, whatever the prices are (also
    when a zero BTC price stops it). *)
Theorem arbitrage_no_order_during_warm_up
    (stdev : list Q -> option Q) (feed : list (option (Q * Q))) (w : World) :
  (length (fetched feed) < relative_arbitrage.ROLLING_WINDOW)%nat ->
  snd (relative_arbitrage.run stdev relative_arbitrage.init_loop feed w) = w.
Proof. intros Hlt. apply arbitrage_run_warm_up. cbn [length Nat.add]. exact Hlt. Qed.

Lemma arbitrage_no_order_during_warm_up_witness :
  snd (relative_arbitrage.run (fun _ => None) relative_arbitrage.init_loop
         [Some (100, 200); None; Some (50, 400)] accepting_world)
  = accepting_world.
Proof.
  apply (arbitrage_no_order_during_warm_up (fun _ => None)
           [Some (100, 200); None; Some (50, 400)] accepting_world).
  cbn. unfold relative_arbitrage.ROLLING_WINDOW. lia.
Defined.

(** The bound is met: the 60th price pair can open a position. *)
Example arbitrage_order_at_60th_fetch :
  length (journal (snd (relative_arbitrage.run (fun _ => Some 0)
                          relative_arbitrage.init_loop
                          (repeat (Some (1, 1)) 59 ++ [Some (1, 2)])
                          accepting_world)))
  = 2%nat.
Proof. vm_compute. reflexivity. Qed.

(** ** The loop of the learned-policy bot *)

Lemma gnn_act_consistent s d p w :
  GNN_1.consistent s ->
  exists s', fst (GNN_1.act s d p w) = Some s' /\ GNN_1.consistent s'.
Proof.
  intros Hc. destruct (gnn_act_step s d p w Hc) as (s' & H & Hc' & _). eauto.
Qed.

Lemma fetched_cons_None {A} (feed : list (option A)) :
  fetched (None :: feed) = fetched feed.
Proof. reflexivity. Qed.

Lemma fetched_cons_Some {A} (x : A) (feed : list (option A)) :
  fetched (Some x :: feed) = x :: fetched feed.
Proof. reflexivity. Qed.

Section GnnLoop.

Variable activate : list Q -> list Q.
Hypothesis activate_outputs : forall inputs, activate inputs <> [].

(** Once the baselines are set on a nonzero price nothing raises. *)
Lemma gnn_tick_after_baseline l f w c v t p :
  GNN_1.consistent (GNN_1.bot l) ->
  GNN_1.baseline_close l = Some c -> ~ c == 0 ->
  GNN_1.baseline_volume l = Some v ->
  GNN_1.baseline_trades l = Some t ->
  GNN_1.previous_close l = Some p ->
  exists l' p',
    fst (GNN_1.tick activate l f w) = Some l'
    /\ GNN_1.consistent (GNN_1.bot l')
    /\ GNN_1.baseline_close l' = Some c
    /\ GNN_1.baseline_volume l' = Some v
    /\ GNN_1.baseline_trades l' = Some t
    /\ GNN_1.previous_close l' = Some p'.
Proof.
  intros Hc Hbc Hnz Hbv Hbt Hpc.
  destruct f as [price|]; cbn [GNN_1.tick].
  2:{ exists l, p. cbn. auto 7. }
  rewrite Hbc. cbv zeta. rewrite Hbc, Hbv, Hbt, Hpc. cbn [need].
  rewrite !bind_ret.
  destruct (Qeq_bool c 0) eqn:Hz.
  { apply Qeq_bool_iff in Hz. contradiction. }
  match goal with
  | |- context [activate ?i] =>
      pose proof (activate_outputs i) as Hout; destruct (activate i) as [|o os];
        [congruence|]
  end.
  cbn [GNN_1.argmax need]. rewrite bind_ret.
  match goal with
  | |- context [GNN_1.act ?s ?d ?x] =>
      destruct (gnn_act_consistent s d x w Hc) as (s' & Hs' & Hc')
  end.
  unfold bind at 1.
  match goal with
  | |- context [GNN_1.act ?s ?d ?x w] =>
      destruct (GNN_1.act s d x w) as [r w']
  end.
  cbn [fst] in Hs'. subst r.
  eexists _, _. split; [reflexivity|]. cbn. auto 7.
Qed.

Lemma gnn_run_after_baseline feed : forall l w c v t p,
  GNN_1.consistent (GNN_1.bot l) ->
  GNN_1.baseline_close l = Some c -> ~ c == 0 ->
  GNN_1.baseline_volume l = Some v ->
  GNN_1.baseline_trades l = Some t ->
  GNN_1.previous_close l = Some p ->
  exists l',
    fst (GNN_1.main_loop activate l feed w) = Some l'
    /\ GNN_1.consistent (GNN_1.bot l')
    /\ GNN_1.baseline_close l' = Some c.
Proof.
  induction feed as [|f feed IH]; intros l w c v t p Hc Hbc Hnz Hbv Hbt Hpc.
  - exists l. cbn. auto.
  - destruct (gnn_tick_after_baseline l f w c v t p Hc Hbc Hnz Hbv Hbt Hpc)
      as (l1 & p1 & Hr & Hc1 & Hbc1 & Hbv1 & Hbt1 & Hpc1).
    cbn [GNN_1.main_loop]. unfold bind.
    destruct (GNN_1.tick activate l f w) as [r w1]. cbn [fst] in Hr. subst r.
    exact (IH l1 w1 c v t p1 Hc1 Hbc1 Hnz Hbv1 Hbt1 Hpc1).
Qed.

(** The first successful fetch sets the baselines; the loop survives it
    exactly when its price is not zero. *)
Lemma gnn_first_fetch l price w :
  GNN_1.consistent (GNN_1.bot l) ->
  GNN_1.baseline_close l = None ->
  (price == 0 -> fst (GNN_1.tick activate l (Some price) w) = None)
  /\ (~ price == 0 ->
      exists l' p',
        fst (GNN_1.tick activate l (Some price) w) = Some l'
        /\ GNN_1.consistent (GNN_1.bot l')
        /\ GNN_1.baseline_close l' = Some price
        /\ GNN_1.baseline_volume l' = Some 1
        /\ GNN_1.baseline_trades l' = Some 1
        /\ GNN_1.previous_close l' = Some p').
Proof.
  intros Hc Hbc.
  set (l0 := GNN_1.mkLoop (GNN_1.bot l) (Some price) (Some 1) (Some 1) (Some price)).
  assert (E : GNN_1.tick activate l (Some price) w
              = GNN_1.tick activate l0 (Some price) w).
  { cbn [GNN_1.tick]. rewrite Hbc. reflexivity. }
  rewrite E. split.
  - intros Hz. apply Qeq_bool_iff in Hz.
    cbn [GNN_1.tick l0 GNN_1.baseline_close GNN_1.baseline_volume
         GNN_1.baseline_trades GNN_1.previous_close need].
    rewrite !bind_ret, Hz. reflexivity.
  - intros Hnz.
    apply (gnn_tick_after_baseline l0 (Some price) w price 1 1 price);
      try reflexivity; assumption.
Qed.

Lemma gnn_run_from_no_baseline feed : forall l w,
  GNN_1.consistent (GNN_1.bot l) ->
  GNN_1.baseline_close l = None ->
  fst (GNN_1.main_loop activate l feed w) = None
  <-> exists p rest, fetched feed = p :: rest /\ p == 0.
Proof.
  induction feed as [|[price|] feed IH]; intros l w Hc Hbc.
  - cbn. split; [discriminate | intros (p & rest & H & _); discriminate].
  - rewrite fetched_cons_Some.
    destruct (gnn_first_fetch l price w Hc Hbc) as [Hzero Hnonzero].
    cbn [GNN_1.main_loop]. unfold bind.
    destruct (Qeq_dec price 0) as [Hz | Hnz].
    + specialize (Hzero Hz).
      destruct (GNN_1.tick activate l (Some price) w) as [r w1].
      cbn [fst] in Hzero. subst r. split; [|reflexivity].
      intros _. exists price, (fetched feed). split; [reflexivity | exact Hz].
    + destruct (Hnonzero Hnz) as (l1 & p1 & Hr & Hc1 & Hbc1 & Hbv1 & Hbt1 & Hpc1).
      destruct (GNN_1.tick activate l (Some price) w) as [r w1].
      cbn [fst] in Hr. subst r.
      destruct (gnn_run_after_baseline feed l1 w1 price 1 1 p1 Hc1 Hbc1 Hnz
                  Hbv1 Hbt1 Hpc1) as (l2 & Hr2 & _).
      split.
      * intros Hnone. congruence.
      * intros (p & rest & [= <- _] & Hz). contradiction.
  - rewrite fetched_cons_None. cbn [GNN_1.main_loop GNN_1.tick].
    unfold bind. cbn [ret]. apply IH; assumption.
Qed.

End GnnLoop.

(** X23.  With a network that always produces at least one output, the loop
    of the learned-policy bot raises an exception exactly when the first
    price it fetches is zero (that price becomes the baseline the prices are
    divided by); later prices, zero or not, the decisions and the outcomes
    of the orders never make it raise. *)
Theorem gnn_loop_raises_iff_first_price_zero
    (activate : list Q -> list Q) (feed : list (option Q)) (w : World) :
  (forall inputs, activate inputs <> []) ->
  fst (GNN_1.main_loop activate GNN_1.init_loop feed w) = None
  <-> exists p rest, fetched feed = p :: rest /\ p == 0.
Proof.
  intros Hout. apply gnn_run_from_no_baseline; [exact Hout | | reflexivity].
  unfold GNN_1.consistent. cbn. split; [discriminate | intros [? ?]; discriminate].
Qed.

Lemma gnn_loop_raises_iff_first_price_zero_witness :
  fst (GNN_1.main_loop (fun _ => [0; 1; 0]) GNN_1.init_loop
         [None; Some 0; Some 100] accepting_world) = None.
Proof.
  apply (gnn_loop_raises_iff_first_price_zero (fun _ => [0; 1; 0])
           [None; Some 0; Some 100] accepting_world).
  - discriminate.
  - exists 0, [100]. split; reflexivity.
Defined.

(** A zero price after the first one is harmless: the price change is
    guarded. *)
Example gnn_later_zero_price :
  exists l,
    fst (GNN_1.main_loop (fun _ => [0; 1; 0]) GNN_1.init_loop
           [Some 100; Some 0; Some 100] accepting_world) = Some l.
Proof. eexists. vm_compute. reflexivity. Qed.

Section GnnInputs.

Variables activate1 activate2 : list Q -> list Q.
Hypothesis agree : forall (x y : Q) (b : bool),
  activate1 [x; y; 1; 1; if b then 1 else 0]
  = activate2 [x; y; 1; 1; if b then 1 else 0].

Lemma gnn_tick_inputs_after_baseline l price w c :
  GNN_1.baseline_close l = Some c ->
  GNN_1.baseline_volume l = Some 1 ->
  GNN_1.baseline_trades l = Some 1 ->
  GNN_1.tick activate1 l (Some price) w = GNN_1.tick activate2 l (Some price) w
  /\ forall l' w',
       GNN_1.tick activate1 l (Some price) w = (Some l', w') ->
       GNN_1.baseline_volume l' = Some 1 /\ GNN_1.baseline_trades l' = Some 1.
Proof.
  intros Hbc Hbv Hbt. cbn [GNN_1.tick].
  rewrite Hbc. cbv zeta. rewrite Hbc, Hbv, Hbt. cbn [need]. rewrite !bind_ret.
  destruct (GNN_1.previous_close l) as [p|]; cbn [need];
    [rewrite !bind_ret | split; [reflexivity | discriminate]].
  destruct (Qeq_bool c 0); [split; [reflexivity | discriminate]|].
  cbn [GNN_1.volume GNN_1.trades GNN_1.close GNN_1.market_data_of].
  change (Qeq_bool 1 0) with false. cbn [negb]. change (1 / 1) with 1.
  rewrite agree. split; [reflexivity|].
  intros l' w'.
  destruct (GNN_1.argmax _) as [d|]; cbn [need]; [rewrite bind_ret | discriminate].
  unfold bind.
  destruct (GNN_1.act (GNN_1.bot l) d price w) as [[s'|] w1]; [|discriminate].
  intros [= <- _]. cbn. split; first [assumption | reflexivity].
Qed.

Lemma gnn_tick_inputs l f w :
  (GNN_1.baseline_close l = None
   \/ (GNN_1.baseline_volume l = Some 1 /\ GNN_1.baseline_trades l = Some 1)) ->
  GNN_1.tick activate1 l f w = GNN_1.tick activate2 l f w
  /\ forall l' w',
       GNN_1.tick activate1 l f w = (Some l', w') ->
       GNN_1.baseline_close l' = None
       \/ (GNN_1.baseline_volume l' = Some 1 /\ GNN_1.baseline_trades l' = Some 1).
Proof.
  intros Hinv.
  destruct f as [price|].
  2:{ split; [reflexivity|]. intros l' w' [= <- _]. exact Hinv. }
  destruct (GNN_1.baseline_close l) as [c|] eqn:Hbc.
  - destruct Hinv as [? | [Hbv Hbt]]; [discriminate|].
    destruct (gnn_tick_inputs_after_baseline l price w c Hbc Hbv Hbt) as [E H].
    split; [exact E|]. intros l' w' Hl. right. exact (H l' w' Hl).
  - set (l0 := GNN_1.mkLoop (GNN_1.bot l) (Some price) (Some 1) (Some 1)
                 (Some price)).
    assert (E : forall a, GNN_1.tick a l (Some price) w
                          = GNN_1.tick a l0 (Some price) w).
    { intros a. cbn [GNN_1.tick]. rewrite Hbc. reflexivity. }
    rewrite !E.
    destruct (gnn_tick_inputs_after_baseline l0 price w price eq_refl eq_refl
                eq_refl) as [E0 H].
    split; [exact E0|]. intros l' w' Hl. right. exact (H l' w' Hl).
Qed.

Lemma gnn_run_inputs feed : forall l w,
  (GNN_1.baseline_close l = None
   \/ (GNN_1.baseline_volume l = Some 1 /\ GNN_1.baseline_trades l = Some 1)) ->
  GNN_1.main_loop activate1 l feed w = GNN_1.main_loop activate2 l feed w.
Proof.
  induction feed as [|f feed IH]; intros l w Hinv; [reflexivity|].
  destruct (gnn_tick_inputs l f w Hinv) as [E H].
  cbn [GNN_1.main_loop]. unfold bind. rewrite <- E.
  destruct (GNN_1.tick activate1 l f w) as [[l1|] w1]; [|reflexivity].
  apply IH. exact (H l1 w1 eq_refl).
Qed.

End GnnInputs.

(** X24.  The volume and trade-count inputs of the network are the constant 1
    at every tick (the fetch defaults both to 1.0 and they are divided by
    their own baseline), and the position flag is 0 or 1: two networks that
    agree on the input vectors of the form [[x; y; 1; 1; flag]] drive the
    loop identically, with the same results, orders and exceptions. *)
Theorem gnn_volume_and_trades_inputs_are_constant
    (activate1 activate2 : list Q -> list Q) (feed : list (option Q)) (w : World) :
  (forall (x y : Q) (b : bool),
      activate1 [x; y; 1; 1; if b then 1 else 0]
      = activate2 [x; y; 1; 1; if b then 1 else 0]) ->
  GNN_1.main_loop activate1 GNN_1.init_loop feed w
  = GNN_1.main_loop activate2 GNN_1.init_loop feed w.
Proof. intros Hagree. apply gnn_run_inputs; [exact Hagree | left; reflexivity]. Qed.

Lemma gnn_volume_and_trades_inputs_are_constant_witness :
  GNN_1.main_loop (fun i => [0; nth 2 i 0; 0]) GNN_1.init_loop
    [Some 100; None; Some 101] accepting_world
  = GNN_1.main_loop (fun i => [0; nth 3 i 0; 0]) GNN_1.init_loop
      [Some 100; None; Some 101] accepting_world.
Proof.
  apply (gnn_volume_and_trades_inputs_are_constant
           (fun i => [0; nth 2 i 0; 0]) (fun i => [0; nth 3 i 0; 0])
           [Some 100; None; Some 101] accepting_world).
  intros x y b. reflexivity.
Defined.

(** ** The loop of the Bollinger-bands bot *)

Lemma net_submitted_snoc j e :
  net_submitted (j ++ [e]) = (net_submitted j + signed_order e)%Z.
Proof.
  unfold net_submitted. induction j as [|x j IH]; cbn [app fold_right]; lia.
Qed.

Lemma bollinger_trade_in_step s ma ub lb p w :
  bollinger_bands.consistent s ->
  exists s',
    fst (bollinger_bands.trade s ma ub lb p w) = Some s'
    /\ bollinger_bands.consistent s'
    /\ (net_submitted (journal (snd (bollinger_bands.trade s ma ub lb p w)))
        - bollinger_bands.position s')%Z
       = (net_submitted (journal w) - bollinger_bands.position s)%Z.
Proof.
  intros Hc. destruct s as [pos e c].
  unfold bollinger_bands.consistent in *. cbn in Hc.
  unfold bollinger_bands.trade, bollinger_bands.send_trade_order.
  cbn [bollinger_bands.position bollinger_bands.entry_price
       bollinger_bands.profit].
  destruct Hc as [[-> ->] | [[-> | ->] [e0 ->]]]; cbn [Z.eqb Pos.eqb andb].
  - destruct (Qgtb p ub); [|destruct (Qltb p lb)];
      try (eexists; cbn; repeat split; auto; fail);
      step_order; destruct (exchange w (length (journal w)));
      eexists; cbn [ret fst snd journal]; (split; [reflexivity|]);
      unfold bollinger_bands.consistent; cbn; rewrite net_submitted_snoc; cbn;
      repeat split; eauto 6; lia.
  - destruct (Qltb p ma);
      [|eexists; cbn; repeat split; eauto 6; fail].
    cbn [need]. rewrite bind_ret.
    step_order; destruct (exchange w (length (journal w)));
      eexists; cbn [ret fst snd journal]; (split; [reflexivity|]);
      unfold bollinger_bands.consistent; cbn; rewrite net_submitted_snoc; cbn;
      repeat split; eauto 6; lia.
  - destruct (Qgtb p ma);
      [|eexists; cbn; repeat split; eauto 6; fail].
    cbn [need]. rewrite bind_ret.
    step_order; destruct (exchange w (length (journal w)));
      eexists; cbn [ret fst snd journal]; (split; [reflexivity|]);
      unfold bollinger_bands.consistent; cbn; rewrite net_submitted_snoc; cbn;
      repeat split; eauto 6; lia.
Qed.

Lemma bollinger_tick_in_step stdev l f w :
  bollinger_bands.consistent (bollinger_bands.bot l) ->
  (length (bollinger_bands.candles l) <= bollinger_bands.WINDOW)%nat ->
  exists l',
    fst (bollinger_bands.tick stdev l f w) = Some l'
    /\ bollinger_bands.consistent (bollinger_bands.bot l')
    /\ (length (bollinger_bands.candles l') <= bollinger_bands.WINDOW)%nat
    /\ (net_submitted (journal (snd (bollinger_bands.tick stdev l f w)))
        - bollinger_bands.position (bollinger_bands.bot l'))%Z
       = (net_submitted (journal w)
          - bollinger_bands.position (bollinger_bands.bot l))%Z
    /\ ((length (bollinger_bands.candles l) + length (fetched [f])
         < bollinger_bands.WINDOW)%nat ->
        snd (bollinger_bands.tick stdev l f w) = w
        /\ length (bollinger_bands.candles l')
           = (length (bollinger_bands.candles l) + length (fetched [f]))%nat).
Proof.
  intros Hc Hlen.
  destruct f as [[now price]|]; cbn [bollinger_bands.tick fetched flat_map app length].
  2:{ exists l. cbn. repeat split; auto; lia. }
  set (candle := bollinger_bands.mkCandle now price price price price).
  assert (Hcs : RollingBuffer.push_slice bollinger_bands.WINDOW
                  (bollinger_bands.candles l) candle
                = RollingBuffer.most_recent bollinger_bands.WINDOW
                    (bollinger_bands.candles l ++ [candle])).
  { apply push_slice_recent. unfold bollinger_bands.WINDOW. lia. }
  rewrite Hcs.
  set (cs := RollingBuffer.most_recent bollinger_bands.WINDOW
               (bollinger_bands.candles l ++ [candle])).
  assert (Hcl : (length cs <= bollinger_bands.WINDOW)%nat)
    by apply most_recent_length.
  assert (Hcn : length cs
                = Nat.min bollinger_bands.WINDOW
                    (S (length (bollinger_bands.candles l)))).
  { unfold cs, RollingBuffer.most_recent.
    rewrite length_skipn, length_snoc. lia. }
  unfold bollinger_bands.evaluate_bollinger_bands.
  cbn [bollinger_bands.candles bollinger_bands.bot].
  destruct (Nat.ltb_spec (length cs) bollinger_bands.WINDOW) as [Hshort | Hfull].
  - eexists. split; [reflexivity|]. cbn.
    split; [exact Hc|]. split; [exact Hcl|]. split; [reflexivity|].
    intros _. split; [reflexivity|]. lia.
  - destruct (last_opt_is_Some cs) as [c Hlast].
    { intros ->. cbn in Hfull. unfold bollinger_bands.WINDOW in Hfull. lia. }
    rewrite Hlast. cbn [need]. rewrite bind_ret.
    match goal with
    | |- context [bollinger_bands.trade ?s ?m ?u ?lo ?x] =>
        destruct (bollinger_trade_in_step s m u lo x w Hc)
          as (s' & Hs' & Hc' & Hn')
    end.
    unfold bind.
    match goal with
    | |- context [bollinger_bands.trade ?s ?m ?u ?lo ?x w] =>
        destruct (bollinger_bands.trade s m u lo x w) as [r w']
    end.
    cbn [fst snd] in Hs', Hn'. subst r.
    eexists. split; [reflexivity|]. cbn.
    split; [exact Hc'|]. split; [exact Hcl|]. split; [exact Hn'|].
    intros Hlt. exfalso. lia.
Qed.

Lemma bollinger_run_in_step stdev feed : forall l w,
  bollinger_bands.consistent (bollinger_bands.bot l) ->
  (length (bollinger_bands.candles l) <= bollinger_bands.WINDOW)%nat ->
  exists l',
    fst (bollinger_bands.run stdev l feed w) = Some l'
    /\ bollinger_bands.consistent (bollinger_bands.bot l')
    /\ (length (bollinger_bands.candles l') <= bollinger_bands.WINDOW)%nat
    /\ (net_submitted (journal (snd (bollinger_bands.run stdev l feed w)))
        - bollinger_bands.position (bollinger_bands.bot l'))%Z
       = (net_submitted (journal w)
          - bollinger_bands.position (bollinger_bands.bot l))%Z
    /\ ((length (bollinger_bands.candles l) + length (fetched feed)
         < bollinger_bands.WINDOW)%nat ->
        snd (bollinger_bands.run stdev l feed w) = w).
Proof.
  induction feed as [|f feed IH]; intros l w Hc Hlen.
  - exists l. cbn. repeat split; auto.
  - assert (Hf : fetched (f :: feed) = fetched [f] ++ fetched feed)
      by apply (fetched_app [f] feed).
    rewrite Hf, length_app.
    destruct (bollinger_tick_in_step stdev l f w Hc Hlen)
      as (l1 & Hr1 & Hc1 & Hl1 & Hn1 & Hw1).
    cbn [bollinger_bands.run]. unfold bind.
    destruct (bollinger_bands.tick stdev l f w) as [r w1].
    cbn [fst snd] in Hr1, Hn1, Hw1. subst r.
    destruct (IH l1 w1 Hc1 Hl1) as (l2 & Hr2 & Hc2 & Hl2 & Hn2 & Hw2).
    exists l2. split; [exact Hr2|]. split; [exact Hc2|]. split; [exact Hl2|].
    split; [lia|].
    intros Hlt. destruct Hw1 as [E1 L1]; [lia|].
    rewrite Hw2 by lia. exact E1.
Qed.


(** X26.  While fewer than 20 prices have been fetched, the Bollinger-bands
    bot sends no order, whatever the prices are. *)
Theorem bollinger_no_order_during_warm_up
    (stdev : list Q -> Q) (feed : list (option (Z * Q))) (w : World) :
  (length (fetched feed) < bollinger_bands.WINDOW)%nat ->
  snd (bollinger_bands.run stdev bollinger_bands.init_loop feed w) = w.
Proof.
  intros Hlt.
  destruct (bollinger_run_in_step stdev feed bollinger_bands.init_loop w)
    as (l & _ & _ & _ & _ & Hw).
  { left. split; reflexivity. }
  { cbn. lia. }
  apply Hw. cbn. exact Hlt.
Qed.

Lemma bollinger_no_order_during_warm_up_witness :
  snd (bollinger_bands.run (fun _ => 0) bollinger_bands.init_loop
         [Some (0%Z, 100); None; Some (1%Z, 400)] accepting_world)
  = accepting_world.
Proof.
  apply (bollinger_no_order_during_warm_up (fun _ => 0)
           [Some (0%Z, 100); None; Some (1%Z, 400)] accepting_world).
  cbn. unfold bollinger_bands.WINDOW. lia.
Defined.

(** The bound is met, and a refused order still moves the position: at the
    20th price the bot submits a buy, the exchange refuses it, and the bot
    holds itself long. *)
Example bollinger_order_at_20th_fetch :
  let r := bollinger_bands.run (fun _ => 0) bollinger_bands.init_loop
             (repeat (Some (0%Z, 1)) 19 ++ [Some (0%Z, 2)])
             (mkWorld (fun _ => false) []) in
  option_map (fun l => bollinger_bands.position (bollinger_bands.bot l)) (fst r)
  = Some 1%Z
  /\ net_submitted (journal (snd r)) = 1%Z
  /\ net_position (journal (snd r)) = 0%Z.
Proof. vm_compute. repeat split. Qed.

(** ** The loop of the reinforcement-learning bot *)

Lemma choose_action_total (Q_table : gmap (Z * string) (gmap Z Q))
    (state : Z * string) (u : Q) (pick : Z) :
  Reinforcement_bot.rows_complete Q_table ->
  (0 <= pick <= 2)%Z ->
  exists a,
    Reinforcement_bot.choose_action state u pick Q_table
    = Some (a, Reinforcement_bot.initialize_state_if_needed state Q_table)
    /\ (0 <= a <= 2)%Z.
Proof.
  intros Hrows Hpick. unfold Reinforcement_bot.choose_action.
  destruct (Qltb u Reinforcement_bot.epsilon); [eauto|].
  destruct (initialize_lookup_same state Q_table) as [row Hrow].
  pose proof (initialize_rows_complete state Q_table Hrows) as Hrows'.
  destruct (Hrows' state row Hrow 0%Z) as [v0 H0]; [lia|].
  destruct (Hrows' state row Hrow 1%Z) as [v1 H1]; [lia|].
  destruct (Hrows' state row Hrow 2%Z) as [v2 H2]; [lia|].
  rewrite Hrow. cbn [mbind option_bind].
  unfold Reinforcement_bot.row_items. cbn [flat_map app].
  rewrite H0, H1, H2. cbn [app Reinforcement_bot.first_max fold_left fst snd].
  destruct (Qltb v0 v1); cbn [snd]; destruct (Qltb _ v2); cbn [fst mbind option_bind];
    eexists; (split; [reflexivity | lia]).
Qed.

Lemma get_state_total (price_history : list Q) (position : Z) (current_price : Q) :
  Forall (fun q => 0 < q) price_history ->
  is_Some (Reinforcement_bot.get_state price_history position current_price).
Proof.
  intros Hpos. unfold Reinforcement_bot.get_state.
  destruct (Nat.ltb_spec (length price_history) Reinforcement_bot.MA_WINDOW)
    as [Hshort | Hfull]; [eauto|].
  set (window := Py.slice_last Reinforcement_bot.MA_WINDOW price_history).
  assert (Hw : 0 < Qsum window).
  { apply Qsum_pos.
    - unfold window, Py.slice_last, Reinforcement_bot.MA_WINDOW.
      now apply RsiFacts.Forall_skipn_of.
    - intros Hnil. apply (f_equal (@length _)) in Hnil.
      unfold window, Py.slice_last, Reinforcement_bot.MA_WINDOW in *.
      rewrite length_skipn in Hnil. cbn [length] in Hnil. lia. }
  assert (Hma : 0 < Qsum window / Qof_nat Reinforcement_bot.MA_WINDOW).
  { apply Qlt_shift_div_l; [reflexivity | lra]. }
  destruct (Qeq_bool _ 0) eqn:Hz; [|eauto].
  apply Qeq_bool_iff in Hz. lra.
Qed.

Lemma push_slice_positive N (buf : list Q) (x : Q) :
  (1 <= N)%nat ->
  Forall (fun q => 0 < q) buf -> 0 < x ->
  Forall (fun q => 0 < q) (RollingBuffer.push_slice N buf x)
  /\ (length (RollingBuffer.push_slice N buf x) <= N)%nat.
Proof.
  intros HN Hbuf Hx. rewrite push_slice_recent by exact HN.
  split; [|apply most_recent_length].
  unfold RollingBuffer.most_recent. apply RsiFacts.Forall_skipn_of.
  apply Forall_app. split; [exact Hbuf | constructor; [exact Hx | constructor]].
Qed.

Lemma rl_portfolio_value_total s p :
  Reinforcement_bot.consistent s ->
  is_Some (Reinforcement_bot.get_portfolio_value s p).
Proof.
  intros Hc. destruct s as [pos e c].
  unfold Reinforcement_bot.consistent in Hc. cbn in Hc.
  unfold Reinforcement_bot.get_portfolio_value.
  cbn [Reinforcement_bot.position Reinforcement_bot.entry_price
       Reinforcement_bot.cash].
  destruct Hc as [[-> ->] | [[-> | ->] [e0 ->]]]; cbn; eauto.
Qed.

(** What every pass of the loop keeps. *)
Lemma rl_iteration_invariant l i w :
  Reinforcement_bot.usable i ->
  Reinforcement_bot.rows_complete (Reinforcement_bot.Q_table l) ->
  Reinforcement_bot.consistent (Reinforcement_bot.bot l) ->
  Forall (fun q => 0 < q) (Reinforcement_bot.price_history l) ->
  (is_Some (Reinforcement_bot.state l) ->
   is_Some (Reinforcement_bot.previous_portfolio_value l)) ->
  exists l',
    fst (Reinforcement_bot.iteration l i w) = Some l'
    /\ Reinforcement_bot.rows_complete (Reinforcement_bot.Q_table l')
    /\ Reinforcement_bot.consistent (Reinforcement_bot.bot l')
    /\ Forall (fun q => 0 < q) (Reinforcement_bot.price_history l')
    /\ (is_Some (Reinforcement_bot.state l') ->
        is_Some (Reinforcement_bot.previous_portfolio_value l')).
Proof.
  intros (Hf1 & Hf2 & Hpick) Hrows Hc Hpos Hprev.
  unfold Reinforcement_bot.iteration.
  destruct (Reinforcement_bot.fetch1 i) as [p1|]; [|exists l; cbn; auto].
  specialize (Hf1 p1 eq_refl).
  destruct (push_slice_positive Reinforcement_bot.MA_WINDOW
              (Reinforcement_bot.price_history l) p1) as [Hpos1 _];
    [unfold Reinforcement_bot.MA_WINDOW; lia | exact Hpos | exact Hf1 |].
  set (h1 := RollingBuffer.push_slice _ (Reinforcement_bot.price_history l) p1) in *.
  destruct (get_state_total h1
              (Reinforcement_bot.position (Reinforcement_bot.bot l)) p1 Hpos1)
    as [ns Hns].
  rewrite Hns. cbn [need]. rewrite bind_ret.
  destruct ns as [new_state|]; [|eexists; split; [reflexivity|]; cbn; auto].
  set (sp := match Reinforcement_bot.state l with
             | Some st => (st, Reinforcement_bot.previous_portfolio_value l)
             | None => (new_state,
                        Reinforcement_bot.get_portfolio_value
                          (Reinforcement_bot.bot l) p1)
             end).
  assert (Hsp : is_Some (snd sp)).
  { unfold sp. destruct (Reinforcement_bot.state l) as [st|]; cbn [snd].
    - apply Hprev. eauto.
    - apply rl_portfolio_value_total. exact Hc. }
  destruct sp as [state' previous]. cbn [snd] in Hsp.
  destruct Hsp as [pv ->].
  destruct (choose_action_total (Reinforcement_bot.Q_table l) state'
              (Reinforcement_bot.rand i) (Reinforcement_bot.choice i) Hrows Hpick)
    as (a & Ha & Harange).
  rewrite Ha. cbn [need]. rewrite bind_ret.
  pose proof (initialize_rows_complete state' _ Hrows) as Hrows1.
  set (t1 := Reinforcement_bot.initialize_state_if_needed state' _) in *.
  destruct (rl_execute_consistent (Reinforcement_bot.bot l) a p1 w Hc)
    as (b1 & Hb1 & Hc1).
  unfold bind at 1.
  destruct (Reinforcement_bot.execute_action (Reinforcement_bot.bot l) a p1 w)
    as [r w1].
  cbn [fst] in Hb1. subst r.
  destruct (Reinforcement_bot.fetch2 i) as [p2|];
    [|eexists; split; [reflexivity|]; cbn; eauto 6].
  specialize (Hf2 p2 eq_refl).
  destruct (push_slice_positive Reinforcement_bot.MA_WINDOW h1 p2) as [Hpos2 _];
    [unfold Reinforcement_bot.MA_WINDOW; lia | exact Hpos1 | exact Hf2 |].
  set (h2 := RollingBuffer.push_slice _ h1 p2) in *.
  destruct (get_state_total h2 (Reinforcement_bot.position b1) p2 Hpos2)
    as [ns2 Hns2].
  rewrite Hns2. cbn [need]. rewrite bind_ret.
  destruct ns2 as [next_state|];
    [|eexists; split; [reflexivity|]; cbn; eauto 6].
  destruct (rl_portfolio_value_total b1 p2 Hc1) as [npv Hnpv].
  rewrite Hnpv. cbn [need]. rewrite !bind_ret.
  destruct (update_Q_total t1 state' next_state a (npv - pv) Hrows1 Harange)
    as (t2 & Ht2 & Hrows2 & _).
  rewrite Ht2. cbn [need]. rewrite bind_ret.
  eexists. split; [reflexivity|]. cbn. eauto 6.
Qed.

Lemma rl_main_loop_invariant inputs : forall l w,
  Forall Reinforcement_bot.usable inputs ->
  Reinforcement_bot.rows_complete (Reinforcement_bot.Q_table l) ->
  Reinforcement_bot.consistent (Reinforcement_bot.bot l) ->
  Forall (fun q => 0 < q) (Reinforcement_bot.price_history l) ->
  (is_Some (Reinforcement_bot.state l) ->
   is_Some (Reinforcement_bot.previous_portfolio_value l)) ->
  exists l',
    fst (Reinforcement_bot.main_loop l inputs w) = Some l'
    /\ Reinforcement_bot.rows_complete (Reinforcement_bot.Q_table l')
    /\ Reinforcement_bot.consistent (Reinforcement_bot.bot l').
Proof.
  induction inputs as [|i inputs IH]; intros l w Hall Hrows Hc Hpos Hprev.
  - exists l. cbn. auto.
  - apply Forall_cons in Hall. destruct Hall as [Hi Hall].
    destruct (rl_iteration_invariant l i w Hi Hrows Hc Hpos Hprev)
      as (l1 & Hr & Hrows1 & Hc1 & Hpos1 & Hprev1).
    cbn [Reinforcement_bot.main_loop]. unfold bind.
    destruct (Reinforcement_bot.iteration l i w) as [r w1].
    cbn [fst] in Hr. subst r.
    exact (IH l1 w1 Hall Hrows1 Hc1 Hpos1 Hprev1).
Qed.

(** X27.  When every fetched price is positive and every random choice is
    one of the actions 0, 1, 2, the loop of the reinforcement-learning bot
    never raises, whatever the exchange answers: the moving average it
    divides by is positive, the rewards are differences of two numbers, and
    every table access finds its row and its action.  The table keeps all
    three actions in every row and the position stays in step with the
    entry price. *)
Theorem rl_main_loop_is_safe
    (inputs : list Reinforcement_bot.Inputs) (w : World) :
  Forall Reinforcement_bot.usable inputs ->
  exists l,
    fst (Reinforcement_bot.main_loop Reinforcement_bot.init_loop inputs w) = Some l
    /\ Reinforcement_bot.rows_complete (Reinforcement_bot.Q_table l)
    /\ Reinforcement_bot.consistent (Reinforcement_bot.bot l).
Proof.
  intros Hall.
  apply rl_main_loop_invariant; try exact Hall.
  - intros st row Hrow.
    cbn [Reinforcement_bot.Q_table Reinforcement_bot.init_loop] in Hrow.
    rewrite lookup_empty in Hrow. discriminate.
  - left. split; reflexivity.
  - constructor.
  - cbn. intros [? ?]. discriminate.
Qed.

Lemma rl_main_loop_is_safe_witness :
  exists l,
    fst (Reinforcement_bot.main_loop Reinforcement_bot.init_loop
           [Reinforcement_bot.mkInputs (Some 100) (1 # 2) 1 (Some 101);
            Reinforcement_bot.mkInputs None 0 0 None]
           accepting_world) = Some l
    /\ Reinforcement_bot.rows_complete (Reinforcement_bot.Q_table l).
Proof.
  destruct (rl_main_loop_is_safe
              [Reinforcement_bot.mkInputs (Some 100) (1 # 2) 1 (Some 101);
               Reinforcement_bot.mkInputs None 0 0 None]
              accepting_world) as (l & Hl & Hrows & _).
  - repeat constructor; cbn; try lia; intros p [= <-]; reflexivity.
  - exists l. split; assumption.
Defined.

(** The hypothesis on the prices is needed: twenty prices of zero make the
    moving average zero and the loop raises. *)
Example rl_main_loop_zero_prices :
  fst (Reinforcement_bot.main_loop Reinforcement_bot.init_loop
         (repeat (Reinforcement_bot.mkInputs (Some 0) 0 0 None) 20)
         accepting_world) = None.
Proof. vm_compute. reflexivity. Qed.
